(** * String analyser service: a shallow embedding of [app.js]

    The repository holds two variants of one Express service.  The first
    keys its in-memory store by the SHA-256 fingerprint of the string
    (module [V1] below), the second by the trimmed string itself (module
    [V2]).  [analyzeString] and [applyFilters] are the same in both
    variants and are embedded once; [parseNaturalLanguage] and the route
    handlers differ and are embedded per variant.

    JavaScript strings are sequences of UTF-16 code units and are modelled
    as [list Z].  JavaScript numbers are modelled by [Z] (with a separate
    NaN); the two agree on the integers below 2^53. *)

From Stdlib Require Import ZArith List Bool Lia String Ascii DecimalPos.
From stdpp Require Import base option list gmap fin_maps.

Open Scope Z_scope.

(** ** JavaScript strings *)

Abbreviation jsstring := (list Z).

(** A string literal of the source, as its code units. *)
Definition js (s : string) : jsstring :=
  map (fun a => Z.of_N (N_of_ascii a)) (list_ascii_of_string s).

Definition in_range (lo hi c : Z) : bool := (lo <=? c) && (c <=? hi).

(** The classes the source's regular expressions use. *)
Definition is_digit (c : Z) : bool := in_range 48 57 c.
Definition is_lower_az (c : Z) : bool := in_range 97 122 c.
Definition is_upper_AZ (c : Z) : bool := in_range 65 90 c.
(** [[a-z0-9]] *)
Definition is_lower_alnum (c : Z) : bool := is_lower_az c || is_digit c.
(** [\w] is [[A-Za-z0-9_]] *)
Definition is_word (c : Z) : bool :=
  is_lower_az c || is_upper_AZ c || is_digit c || (c =? 95).
(** [\s], which is also the set [String.prototype.trim] strips: WhiteSpace
    (TAB, VT, FF, SP, NBSP, ZWNBSP and the space separators) and
    LineTerminator (LF, CR, LS, PS). *)
Definition is_space (c : Z) : bool :=
  in_range 9 13 c || (c =? 32) || (c =? 160) || (c =? 5760)
  || in_range 8192 8202 c || (c =? 8232) || (c =? 8233) || (c =? 8239)
  || (c =? 8287) || (c =? 12288) || (c =? 65279).
(** [\S] *)
Definition is_nonspace (c : Z) : bool := negb (is_space c).

Definition is_ascii_unit (c : Z) : bool := in_range 0 127 c.

(** [String.prototype.trim] *)
Fixpoint trimStart (s : jsstring) : jsstring :=
  match s with
  | c :: t => if is_space c then trimStart t else s
  | [] => []
  end.

Definition trimEnd (s : jsstring) : jsstring := rev (trimStart (rev s)).

Definition trim (s : jsstring) : jsstring := trimEnd (trimStart s).

(** [String.prototype.startsWith] and [String.prototype.includes] *)
Fixpoint startsWith (s sub : jsstring) : bool :=
  match sub, s with
  | [], _ => true
  | _ :: _, [] => false
  | c :: sub', d :: s' => (c =? d) && startsWith s' sub'
  end.

Fixpoint includes (s sub : jsstring) : bool :=
  startsWith s sub ||
  match s with
  | [] => false
  | _ :: t => includes t sub
  end.

(** ** Case mapping

    [String.prototype.toLowerCase] applies the Unicode default case
    conversion of the host.  Its table is not part of the repository, so the
    development is parametric in it and only relies on two facts: on Basic
    Latin it maps [A-Z] to [a-z] and leaves the rest alone, and its result
    never holds an upper-case Basic Latin letter. *)

Definition lower_unit (c : Z) : Z := if is_upper_AZ c then c + 32 else c.

Class CaseMapping := {
  toLowerCase : jsstring -> jsstring;
  toLowerCase_ascii : forall s,
    forallb is_ascii_unit s = true -> toLowerCase s = map lower_unit s;
  toLowerCase_no_upper : forall s,
    forallb (fun c => negb (is_upper_AZ c)) (toLowerCase s) = true
}.

(** ** The string iterator and UTF-8 *)

Definition is_high_surrogate (c : Z) : bool := in_range 55296 56319 c.
Definition is_low_surrogate (c : Z) : bool := in_range 56320 57343 c.

(** [for (const char of value)]: the string iterator yields one string per
    code point, a well-formed surrogate pair as a two-unit string and any
    other code unit (a lone surrogate too) as a one-unit string. *)
Fixpoint codePoints (s : jsstring) : list jsstring :=
  match s with
  | [] => []
  | c :: t =>
      match t with
      | d :: t' =>
          if is_high_surrogate c && is_low_surrogate d
          then [c; d] :: codePoints t'
          else [c] :: codePoints t
      | [] => [[c]]
      end
  end.

(** The scalar value the UTF-8 encoder writes for one iterator item; a lone
    surrogate is replaced by U+FFFD. *)
Definition scalar_of (ch : jsstring) : Z :=
  match ch with
  | [c; d] => 65536 + (c - 55296) * 1024 + (d - 56320)
  | [c] => if is_high_surrogate c || is_low_surrogate c then 65533 else c
  | _ => 65533
  end.

Definition utf8_of_scalar (u : Z) : list Z :=
  if u <? 128 then [u]
  else if u <? 2048 then
    [Z.lor 192 (Z.shiftr u 6); Z.lor 128 (Z.land u 63)]
  else if u <? 65536 then
    [Z.lor 224 (Z.shiftr u 12); Z.lor 128 (Z.land (Z.shiftr u 6) 63);
     Z.lor 128 (Z.land u 63)]
  else
    [Z.lor 240 (Z.shiftr u 18); Z.lor 128 (Z.land (Z.shiftr u 12) 63);
     Z.lor 128 (Z.land (Z.shiftr u 6) 63); Z.lor 128 (Z.land u 63)].

Definition utf8 (s : jsstring) : list Z :=
  concat (map (fun ch => utf8_of_scalar (scalar_of ch)) (codePoints s)).

(** ** SHA-256 (FIPS 180-4), on 32-bit words held in [Z] *)

Module SHA256.

Definition w32 (x : Z) : Z := Z.land x 4294967295.
Definition add32 (x y : Z) : Z := w32 (x + y).
Definition not32 (x : Z) : Z := Z.lxor x 4294967295.
Definition rotr (n x : Z) : Z :=
  Z.lor (Z.shiftr x n) (w32 (Z.shiftl x (32 - n))).

Definition Ch (x y z : Z) : Z := Z.lxor (Z.land x y) (Z.land (not32 x) z).
Definition Maj (x y z : Z) : Z :=
  Z.lxor (Z.lxor (Z.land x y) (Z.land x z)) (Z.land y z).
Definition bsig0 (x : Z) : Z := Z.lxor (Z.lxor (rotr 2 x) (rotr 13 x)) (rotr 22 x).
Definition bsig1 (x : Z) : Z := Z.lxor (Z.lxor (rotr 6 x) (rotr 11 x)) (rotr 25 x).
Definition ssig0 (x : Z) : Z := Z.lxor (Z.lxor (rotr 7 x) (rotr 18 x)) (Z.shiftr x 3).
Definition ssig1 (x : Z) : Z := Z.lxor (Z.lxor (rotr 17 x) (rotr 19 x)) (Z.shiftr x 10).

Definition K : list Z :=
  [1116352408; 1899447441; 3049323471; 3921009573; 961987163; 1508970993;
   2453635748; 2870763221; 3624381080; 310598401; 607225278; 1426881987;
   1925078388; 2162078206; 2614888103; 3248222580; 3835390401; 4022224774;
   264347078; 604807628; 770255983; 1249150122; 1555081692; 1996064986;
   2554220882; 2821834349; 2952996808; 3210313671; 3336571891; 3584528711;
   113926993; 338241895; 666307205; 773529912; 1294757372; 1396182291;
   1695183700; 1986661051; 2177026350; 2456956037; 2730485921; 2820302411;
   3259730800; 3345764771; 3516065817; 3600352804; 4094571909; 275423344;
   430227734; 506948616; 659060556; 883997877; 958139571; 1322822218;
   1537002063; 1747873779; 1955562222; 2024104815; 2227730452; 2361852424;
   2428436474; 2756734187; 3204031479; 3329325298].

Record state := mkState { ha : Z; hb : Z; hc : Z; hd : Z; he : Z; hf : Z; hg : Z; hh : Z }.

Definition H0 : state :=
  mkState 1779033703 3144134277 1013904242 2773480762
          1359893119 2600822924 528734635 1541459225.

(** Message padding: one 0x80 byte, zeros up to 56 modulo 64, then the bit
    length on eight bytes, big-endian. *)
Definition be_bytes (n : nat) (x : Z) : list Z :=
  map (fun i => Z.land (Z.shiftr x (8 * Z.of_nat i)) 255) (rev (seq 0 n)).

Definition pad (msg : list Z) : list Z :=
  let len := Z.of_nat (length msg) in
  let zeros := Z.to_nat ((55 - len) mod 64) in
  msg ++ [128] ++ repeat 0 zeros ++ be_bytes 8 (8 * len).

Fixpoint words_of (n : nat) (bytes : list Z) : list Z :=
  match n with
  | O => []
  | S n' =>
      match bytes with
      | b0 :: b1 :: b2 :: b3 :: rest =>
          (Z.shiftl b0 24 + Z.shiftl b1 16 + Z.shiftl b2 8 + b3) :: words_of n' rest
      | _ => []
      end
  end.

(** The message schedule: [w] holds W_0 .. W_{t-1}; [n] more words are
    appended. *)
Fixpoint schedule (n : nat) (w : list Z) : list Z :=
  match n with
  | O => w
  | S n' =>
      let t := length w in
      let at_ i := nth (t - i) w 0 in
      schedule n'
        (w ++ [add32 (add32 (ssig1 (at_ 2%nat)) (at_ 7%nat))
                     (add32 (ssig0 (at_ 15%nat)) (at_ 16%nat))])
  end.

Definition round (s : state) (kw : Z * Z) : state :=
  let t1 := add32 (add32 (add32 (hh s) (bsig1 (he s)))
                         (add32 (Ch (he s) (hf s) (hg s)) (fst kw))) (snd kw) in
  let t2 := add32 (bsig0 (ha s)) (Maj (ha s) (hb s) (hc s)) in
  mkState (add32 t1 t2) (ha s) (hb s) (hc s) (add32 (hd s) t1) (he s) (hf s) (hg s).

Definition compress (h : state) (block : list Z) : state :=
  let w := schedule 48 (words_of 16 block) in
  let s := fold_left round (combine K w) h in
  mkState (add32 (ha h) (ha s)) (add32 (hb h) (hb s)) (add32 (hc h) (hc s))
          (add32 (hd h) (hd s)) (add32 (he h) (he s)) (add32 (hf h) (hf s))
          (add32 (hg h) (hg s)) (add32 (hh h) (hh s)).

Fixpoint blocks (n : nat) (h : state) (bytes : list Z) : state :=
  match n with
  | O => h
  | S n' => blocks n' (compress h (firstn 64 bytes)) (skipn 64 bytes)
  end.

Definition digest (msg : list Z) : state :=
  let p := pad msg in
  blocks (length p / 64)%nat H0 p.

Definition hex_digit (d : Z) : Z := if d <? 10 then 48 + d else 87 + d.

Definition hex8 (x : Z) : jsstring :=
  map (fun sh => hex_digit (Z.land (Z.shiftr x sh) 15)) [28; 24; 20; 16; 12; 8; 4; 0].

Definition hex (s : state) : jsstring :=
  concat (map hex8 [ha s; hb s; hc s; hd s; he s; hf s; hg s; hh s]).

End SHA256.

(** [crypto.createHash('sha256').update(value).digest('hex')]: the string is
    hashed as its UTF-8 bytes, the digest is printed in lower-case
    hexadecimal. *)
Definition sha256_hex (value : jsstring) : jsstring :=
  SHA256.hex (SHA256.digest (utf8 value)).

(** ** Regular expressions

    The regular expressions of the source are matched by a backtracking
    matcher in continuation-passing style, as the ECMAScript specification
    describes it: alternatives are tried left to right, quantifiers are
    greedy, and a failure further right makes the matcher come back to the
    last choice.  Every quantifier of the source ranges over a
    one-character class, so [Star] takes a class. *)

Module Regex.

Inductive regex :=
| Eps
| Lit (l : jsstring)
| Class (p : Z -> bool)
| Seq (a b : regex)
| Alt (a b : regex)
| Star (p : Z -> bool)
| Group (i : nat) (a : regex)
| WordB.

(** [p+] and [a?] *)
Definition Plus (p : Z -> bool) : regex := Seq (Class p) (Star p).
Definition Opt (a : regex) : regex := Alt a Eps.

(** A position in the input: the unit before it (for [\b]), the units from
    it on, and the captures made so far. *)
Record mstate := MState {
  before : option Z;
  rest : jsstring;
  caps : list (nat * jsstring)
}.

Definition is_word_at (o : option Z) : bool :=
  match o with Some c => is_word c | None => false end.

Fixpoint eat (l : jsstring) (prev : option Z) (r : jsstring)
  : option (option Z * jsstring) :=
  match l with
  | [] => Some (prev, r)
  | c :: l' =>
      match r with
      | d :: r' => if c =? d then eat l' (Some d) r' else None
      | [] => None
      end
  end.

Fixpoint star (p : Z -> bool) (k : mstate -> option mstate)
  (prev : option Z) (r : jsstring) (cs : list (nat * jsstring)) : option mstate :=
  match r with
  | c :: r' =>
      if p c then
        match star p k (Some c) r' cs with
        | Some res => Some res
        | None => k (MState prev r cs)
        end
      else k (MState prev r cs)
  | [] => k (MState prev [] cs)
  end.

Fixpoint run (re : regex) (k : mstate -> option mstate) (s : mstate)
  : option mstate :=
  match re with
  | Eps => k s
  | Lit l =>
      match eat l (before s) (rest s) with
      | Some (p, r) => k (MState p r (caps s))
      | None => None
      end
  | Class p =>
      match rest s with
      | c :: r => if p c then k (MState (Some c) r (caps s)) else None
      | [] => None
      end
  | Seq a b => run a (run b k) s
  | Alt a b =>
      match run a k s with
      | Some res => Some res
      | None => run b k s
      end
  | Star p => star p k (before s) (rest s) (caps s)
  | Group i a =>
      run a (fun s' =>
        k (MState (before s') (rest s')
             ((i, firstn (length (rest s) - length (rest s')) (rest s)) :: caps s')))
        s
  | WordB =>
      if xorb (is_word_at (before s)) (is_word_at (head (rest s)))
      then k s else None
  end.

(** One attempt at a given position. *)
Definition attempt (re : regex) (prev : option Z) (r : jsstring) : option mstate :=
  run re Some (MState prev r []).

(** The leftmost position at which an attempt succeeds. *)
Fixpoint search_from (re : regex) (prev : option Z) (r : jsstring)
  : option mstate :=
  match attempt re prev r with
  | Some res => Some res
  | None =>
      match r with
      | c :: r' => search_from re (Some c) r'
      | [] => None
      end
  end.

(** [str.match(re)] for a regular expression without the [g] flag; [None]
    is [null]. *)
Definition exec (re : regex) (s : jsstring) : option mstate :=
  search_from re None s.

(** [re.test(str)] *)
Definition test (re : regex) (s : jsstring) : bool :=
  match exec re s with Some _ => true | None => false end.

(** [m[i]] of a match result; [None] is [undefined]. *)
Fixpoint lookup_cap (i : nat) (cs : list (nat * jsstring)) : option jsstring :=
  match cs with
  | [] => None
  | (j, v) :: cs' => if Nat.eqb i j then Some v else lookup_cap i cs'
  end.

Definition group (i : nat) (res : mstate) : option jsstring :=
  lookup_cap i (caps res).

(** [str.match(re)] for a regular expression with the [g] flag: all the
    matches, left to right, each search resuming where the last match
    ended (one unit further after an empty match).  [skip] counts the
    units of the last match still to be passed. *)
Fixpoint match_all_from (re : regex) (skip : nat) (prev : option Z)
  (r : jsstring) : list jsstring :=
  match skip with
  | S skip' =>
      match r with
      | c :: r' => match_all_from re skip' (Some c) r'
      | [] => []
      end
  | O =>
      match attempt re prev r with
      | Some res =>
          let n := (length r - length (rest res))%nat in
          firstn n r ::
          match r with
          | c :: r' => match_all_from re (Nat.pred n) (Some c) r'
          | [] => []
          end
      | None =>
          match r with
          | c :: r' => match_all_from re O (Some c) r'
          | [] => []
          end
      end
  end.

Definition match_all (re : regex) (s : jsstring) : list jsstring :=
  match_all_from re O None s.

End Regex.

(** ** The analyzer *)

Module Props.
Record t := mk {
  length : Z;
  sha256_hash : jsstring;
  is_palindrome : bool;
  character_frequency_map : gmap (list Z) Z;
  unique_characters : Z;
  word_count : Z
}.
End Props.

Module Rec.
Record t := mk {
  id : jsstring;
  value : jsstring;
  properties : Props.t;
  created_at : jsstring
}.
End Rec.

(** [str.replace(/[^a-z0-9]/g, '')]: every unit outside [[a-z0-9]] is
    removed. *)
Definition sanitize (s : jsstring) : jsstring := List.filter is_lower_alnum s.

Definition jsstring_eqb (a b : jsstring) : bool := bool_decide (a = b).

(** The loop [map[char] = (map[char] || 0) + 1] over the string iterator.
    A key is one item of the iterator, a string of one or two units, so the
    read never finds a property inherited from [Object.prototype], whose
    names are longer. *)
Definition count_char (m : gmap (list Z) Z) (char : jsstring) : gmap (list Z) Z :=
  <[char := default 0 (m !! char) + 1]> m.

Definition frequency_map (value : jsstring) : gmap (list Z) Z :=
  fold_left count_char (codePoints value) ∅.

(** [/\S+/g] *)
Definition re_words : Regex.regex := Regex.Plus is_nonspace.

Section Analyzer.
Context `{CaseMapping}.

(** [analyzeString]; [now] is what [new Date().toISOString()] returns at the
    call. *)
Definition analyzeString (now : jsstring) (value : jsstring) : Rec.t :=
  let lowerCaseValue := toLowerCase value in
  let length := Z.of_nat (List.length value) in
  let sha256_hash := sha256_hex value in
  let sanitizedString := sanitize lowerCaseValue in
  let reversedString := rev sanitizedString in
  let is_palindrome :=
    jsstring_eqb sanitizedString reversedString
    && (0 <? Z.of_nat (List.length sanitizedString)) in
  let character_frequency_map := frequency_map value in
  let unique_characters := Z.of_nat (size character_frequency_map) in
  let wordMatches := Regex.match_all re_words value in
  let word_count := Z.of_nat (List.length wordMatches) in
  Rec.mk sha256_hash value
    (Props.mk length sha256_hash is_palindrome character_frequency_map
       unique_characters word_count)
    now.

End Analyzer.

(** The case mapping restricted to Basic Latin, for evaluating the
    definitions on concrete Basic Latin input. *)
#[export] Instance basic_latin : CaseMapping.
Proof.
  refine {| toLowerCase := map lower_unit |}.
  - reflexivity.
  - induction s as [|c s IH]; simpl; [reflexivity|].
    rewrite IH, andb_true_r. unfold lower_unit.
    destruct (is_upper_AZ c) eqn:E; [|now rewrite E].
    unfold is_upper_AZ, in_range in *. lia.
Defined.

(** ** JavaScript values that reach the filter engine

    A filter value is a boolean, a number or a string: the interpreter
    produces the first two and one-character strings, the query string of
    [GET /strings] produces strings.  A number is an IEEE 754 double; the
    numbers of this program are integers, the infinities and NaN.  [VNum n]
    is the double of value [n]. *)

Inductive jsval :=
| VBool (b : bool)
| VNum (n : Z)
| VInfinity (negative : bool)
| VNaN
| VStr (s : jsstring).

(** The double nearest to the integer [n >= 0]: a significand of 53 bits,
    a tie going to the even one. *)
Definition round_to_double (n : Z) : Z :=
  let e := Z.log2 n - 52 in
  if e <=? 0 then n
  else
    let q := n / 2 ^ e in
    let r := n mod 2 ^ e in
    let half := 2 ^ (e - 1) in
    let q' := if r <? half then q
              else if half <? r then q + 1
              else if Z.even q then q else q + 1 in
    q' * 2 ^ e.

(** The Number value of a mathematical integer: the nearest double, an
    infinity when that is 2^1024 or more. *)
Definition Number_of (z : Z) : jsval :=
  let m := round_to_double (Z.abs z) in
  if 2 ^ 1024 <=? m then VInfinity (z <? 0) else VNum (Z.sgn z * m).

Fixpoint uint_units (u : Decimal.uint) : jsstring :=
  match u with
  | Decimal.Nil => []
  | Decimal.D0 u' => 48 :: uint_units u'
  | Decimal.D1 u' => 49 :: uint_units u'
  | Decimal.D2 u' => 50 :: uint_units u'
  | Decimal.D3 u' => 51 :: uint_units u'
  | Decimal.D4 u' => 52 :: uint_units u'
  | Decimal.D5 u' => 53 :: uint_units u'
  | Decimal.D6 u' => 54 :: uint_units u'
  | Decimal.D7 u' => 55 :: uint_units u'
  | Decimal.D8 u' => 56 :: uint_units u'
  | Decimal.D9 u' => 57 :: uint_units u'
  end.

(** The decimal numeral of an integer. *)
Definition decimal (n : Z) : jsstring :=
  match Z.to_int n with
  | Decimal.Pos u => uint_units u
  | Decimal.Neg u => 45 :: uint_units u
  end.

(** The numeral [v] reads back as the number [x]. *)
Definition reads_back (x v : Z) : bool :=
  (0 <? v) && match Number_of v with VNum m => m =? x | _ => false end.

(** The digits [String] prints for the number [x > 0]: of the numerals
    [s * 10^j] that read back as [x], one with the fewest digits [s], and of
    those the nearest to [x] (the even [s] when two are as near).  Such a
    numeral is one of the two multiples of [10^j] around [x]; the search
    goes from the largest [j] down to 0, so the first numeral found has the
    fewest digits, and ends with [x] itself. *)
Fixpoint shortest_from (j : nat) (x : Z) : Z :=
  let p := 10 ^ Z.of_nat j in
  let lo := x / p * p in
  let hi := lo + p in
  let next := match j with O => x | S j' => shortest_from j' x end in
  let lo_first :=
    (x - lo <? hi - x) || ((x - lo =? hi - x) && Z.even (x / p)) in
  if lo_first
  then if reads_back x lo then lo else if reads_back x hi then hi else next
  else if reads_back x hi then hi else if reads_back x lo then lo else next.

Definition shortest (x : Z) : Z := shortest_from (length (decimal x)) x.

Fixpoint drop_zeros (l : jsstring) : jsstring :=
  match l with
  | 48 :: t => drop_zeros t
  | _ => l
  end.

(** The numeral [ds] in exponent notation: its first digit, the others up
    to the last that is not 0 after a point, [e+] and the exponent. *)
Definition exponent_notation (ds : jsstring) : jsstring :=
  let e := decimal (Z.of_nat (length ds) - 1) in
  match rev (drop_zeros (rev ds)) with
  | [] => []
  | [d] => d :: js "e+" ++ e
  | d :: rest => d :: 46 :: rest ++ js "e+" ++ e
  end.

(** [String(n)] on an integer number: the shortest digits that read back as
    the number, in full when there are at most 21 of them and in exponent
    notation from 10^21 on. *)
Definition Number_toString (n : Z) : jsstring :=
  let v := shortest (Z.abs n) in
  let body := if v <? 10 ^ 21 then decimal v else exponent_notation (decimal v) in
  if n <? 0 then 45 :: body else body.

(** [String(v)] *)
Definition ToString (v : jsval) : jsstring :=
  match v with
  | VBool true => js "true"
  | VBool false => js "false"
  | VNum n => Number_toString n
  | VInfinity false => js "Infinity"
  | VInfinity true => js "-Infinity"
  | VNaN => js "NaN"
  | VStr s => s
  end.

(** A value used as a condition. *)
Definition truthy (v : jsval) : bool :=
  match v with
  | VBool b => b
  | VNum n => negb (n =? 0)
  | VInfinity _ => true
  | VNaN => false
  | VStr s => match s with [] => false | _ :: _ => true end
  end.

Fixpoint digits_value (acc : Z) (s : jsstring) : Z :=
  match s with
  | c :: t => if is_digit c then digits_value (acc * 10 + (c - 48)) t else acc
  | [] => acc
  end.

(** [parseInt(s, 10)] on a string: leading white space is skipped, a sign is
    read, then the longest run of decimal digits; [None] is NaN.  The result
    is the integer the digits spell; the Number [parseInt] returns is
    [Number_of] it.  The filter engine only compares that number with
    lengths and word counts, which are below 2^53, and there the integer and
    its double compare alike (lemma [compare_as_double]). *)
Definition parseInt_string (s : jsstring) : option Z :=
  let s1 := trimStart s in
  let '(sign, s2) :=
    match s1 with
    | 45 :: t => (-1, t)
    | 43 :: t => (1, t)
    | _ => (1, s1)
    end in
  match s2 with
  | c :: _ => if is_digit c then Some (sign * digits_value 0 s2) else None
  | [] => None
  end.

(** [parseInt(v, 10)]: the argument is converted to a string first. *)
Definition parseInt (v : jsval) : option Z := parseInt_string (ToString v).

(** The Number a [parseInt] result is: the double nearest to the integer
    read. *)
Definition parseInt_number (o : option Z) : jsval :=
  match o with
  | Some n => Number_of n
  | None => VNaN
  end.

(** [parseInt(...) + k]: the double of the sum of the number and [k]; an
    infinity and NaN stay what they are. *)
Definition num_plus (o : option Z) (k : Z) : jsval :=
  match parseInt_number o with
  | VNum m => Number_of (m + k)
  | number => number
  end.

(** [a > b] on numbers; a comparison with NaN is false. *)
Definition js_gt (a b : jsval) : bool :=
  match a, b with
  | VNum x, VNum y => y <? x
  | VInfinity false, VNum _ => true
  | VNum _, VInfinity true => true
  | VInfinity false, VInfinity true => true
  | _, _ => false
  end.

(** The filter object: a field is [None] when the property is
    [undefined]. *)
Module Filters.
Record t := mk {
  is_palindrome : option jsval;
  min_length : option jsval;
  max_length : option jsval;
  word_count : option jsval;
  contains_character : option jsval
}.
Definition empty : t := mk None None None None None.
Definition set_is_palindrome (v : jsval) (f : t) : t :=
  mk (Some v) (min_length f) (max_length f) (word_count f) (contains_character f).
Definition set_min_length (v : jsval) (f : t) : t :=
  mk (is_palindrome f) (Some v) (max_length f) (word_count f) (contains_character f).
Definition set_max_length (v : jsval) (f : t) : t :=
  mk (is_palindrome f) (min_length f) (Some v) (word_count f) (contains_character f).
Definition set_word_count (v : jsval) (f : t) : t :=
  mk (is_palindrome f) (min_length f) (max_length f) (Some v) (contains_character f).
Definition set_contains_character (v : jsval) (f : t) : t :=
  mk (is_palindrome f) (min_length f) (max_length f) (word_count f) (Some v).
(** [filters.min_length !== undefined && filters.max_length !== undefined
     && filters.min_length > filters.max_length] *)
Definition conflicting (f : t) : bool :=
  match min_length f, max_length f with
  | Some a, Some b => js_gt a b
  | _, _ => false
  end.
End Filters.

(** What [parseNaturalLanguage] returns: a filter object, or the object
    [{ error: ... }]. *)
Inductive parsed :=
| Parsed (filters : Filters.t)
| ParseConflict.

Declare Scope regex_scope.
Delimit Scope regex_scope with re.
Infix "+>" := Regex.Seq (at level 55, right associativity) : regex_scope.
Infix "<|>" := Regex.Alt (at level 60, right associativity) : regex_scope.

Import Regex.

(** ** The filter engine (the same in both variants) *)

Section FilterEngine.
Context `{CaseMapping}.

Definition applyFilters (data : list Rec.t) (filters : Filters.t) : list Rec.t :=
  let results := data in
  let results :=
    match Filters.is_palindrome filters with
    | Some v =>
        let isPalindrome := jsstring_eqb (toLowerCase (ToString v)) (js "true") in
        List.filter
          (fun item => Bool.eqb (Props.is_palindrome (Rec.properties item)) isPalindrome)
          results
    | None => results
    end in
  let results :=
    match Filters.min_length filters with
    | Some v =>
        match parseInt v with
        | Some minLength =>
            List.filter
              (fun item => minLength <=? Props.length (Rec.properties item)) results
        | None => results
        end
    | None => results
    end in
  let results :=
    match Filters.max_length filters with
    | Some v =>
        match parseInt v with
        | Some maxLength =>
            List.filter
              (fun item => Props.length (Rec.properties item) <=? maxLength) results
        | None => results
        end
    | None => results
    end in
  let results :=
    match Filters.word_count filters with
    | Some v =>
        match parseInt v with
        | Some wordCount =>
            List.filter
              (fun item => Props.word_count (Rec.properties item) =? wordCount) results
        | None => results
        end
    | None => results
    end in
  let results :=
    match Filters.contains_character filters with
    | Some v =>
        if truthy v then
          let char := ToString v in
          List.filter
            (fun item => includes (toLowerCase (Rec.value item)) (toLowerCase char))
            results
        else results
    | None => results
    end in
  results.

End FilterEngine.

(** ** The record store

    [stringStore] is a plain object.  Its own properties are the records;
    a read [stringStore[key]] also finds what the object inherits from
    [Object.prototype], and each of those values is truthy. *)

Definition objectPrototype : list jsstring :=
  map js
    ["constructor"; "__defineGetter__"; "__defineSetter__"; "hasOwnProperty";
     "__lookupGetter__"; "__lookupSetter__"; "isPrototypeOf";
     "propertyIsEnumerable"; "toString"; "valueOf"; "__proto__";
     "toLocaleString"]%string.

Definition inherited (key : jsstring) : bool :=
  existsb (jsstring_eqb key) objectPrototype.

(** [stringStore[key]] used as a condition. *)
Definition store_has (stringStore : gmap (list Z) Rec.t) (key : jsstring) : bool :=
  match stringStore !! key with
  | Some _ => true
  | None => inherited key
  end.

(** The answers of [POST /strings] and [DELETE /strings/:key]. *)
Inductive post_response :=
| Created (record : Rec.t)
| MissingField
| WrongType
| EmptyValue
| Duplicate.

Inductive delete_response :=
| NoContent
| NotFound.

(** A request that writes to the store: the [value] field of the body of a
    POST ([None] when the field is missing), or the key of a DELETE.  [now]
    is the clock reading when the request is served. *)
Inductive request :=
| Post (now : jsstring) (value : option jsval)
| Delete (key : jsstring).

(** ** The first variant: interpreter and routes *)

Module V1.

(** [/contains the letter (\w)|contains character (\w)|has the letter (\w)|with character (\w)/] *)
Definition re_contains : regex :=
  ((Lit (js "contains the letter ") +> Group 1 (Class is_word))
   <|> (Lit (js "contains character ") +> Group 2 (Class is_word))
   <|> (Lit (js "has the letter ") +> Group 3 (Class is_word))
   <|> (Lit (js "with character ") +> Group 4 (Class is_word)))%re.

(** [/(longer|shorter|greater|less) than (\d+)/] *)
Definition re_length : regex :=
  (Group 1 (Lit (js "longer") <|> Lit (js "shorter") <|> Lit (js "greater")
            <|> Lit (js "less"))
   +> Lit (js " than ") +> Group 2 (Plus is_digit))%re.

Section Variant.
Context `{CaseMapping}.

(** The body of [parseNaturalLanguage] up to its conflict check: the filter
    object the rules build. *)
Definition extract (query : jsstring) : Filters.t :=
  let filters := Filters.empty in
  let q := toLowerCase query in
  let filters :=
    if includes q (js "palindrome") || includes q (js "palindromic")
    then Filters.set_is_palindrome (VBool true) filters else filters in
  let filters :=
    if includes q (js "single word")
    then Filters.set_word_count (VNum 1) filters else filters in
  let containsMatch := exec re_contains q in
  let filters :=
    match containsMatch with
    | Some m =>
        match group 1 m with
        | Some c => if truthy (VStr c)
                    then Filters.set_contains_character (VStr c) filters
                    else filters
        | None => filters
        end
    | None => filters
    end in
  let lengthMatch := exec re_length q in
  let filters :=
    match lengthMatch with
    | Some m =>
        let type := default [] (group 1 m) in
        let number := parseInt_string (default [] (group 2 m)) in
        if jsstring_eqb type (js "longer") || jsstring_eqb type (js "greater")
        then Filters.set_min_length (num_plus number 1) filters
        else if jsstring_eqb type (js "shorter") || jsstring_eqb type (js "less")
        then Filters.set_max_length (num_plus number (-1)) filters
        else filters
    | None => filters
    end in
  filters.

(** [parseNaturalLanguage] of the first variant. *)
Definition parseNaturalLanguage (query : jsstring) : parsed :=
  let filters := extract query in
  if Filters.conflicting filters then ParseConflict else Parsed filters.

(** [app.post('/strings', ...)], store keyed by [analysisResult.id]. *)
Definition post_strings (now : jsstring) (value : option jsval)
  (stringStore : gmap (list Z) Rec.t) : post_response * gmap (list Z) Rec.t :=
  match value with
  | None => (MissingField, stringStore)
  | Some (VStr value) =>
      let trimmedValue := trim value in
      if (Z.of_nat (length trimmedValue) =? 0) then (EmptyValue, stringStore)
      else
        let analysisResult := analyzeString now trimmedValue in
        if store_has stringStore (Rec.id analysisResult)
        then (Duplicate, stringStore)
        else (Created analysisResult,
              <[Rec.id analysisResult := analysisResult]> stringStore)
  | Some _ => (WrongType, stringStore)
  end.

(** [app.delete('/strings/:hash', ...)] *)
Definition delete_string (hash : jsstring) (stringStore : gmap (list Z) Rec.t)
  : delete_response * gmap (list Z) Rec.t :=
  if negb (store_has stringStore hash) then (NotFound, stringStore)
  else (NoContent, delete hash stringStore).

(** What a request leaves in the store. *)
Definition serve (r : request) (stringStore : gmap (list Z) Rec.t)
  : gmap (list Z) Rec.t :=
  match r with
  | Post now value => snd (post_strings now value stringStore)
  | Delete key => snd (delete_string key stringStore)
  end.

(** The store after a sequence of requests, starting from [{}]. *)
Definition run_requests (rs : list request) : gmap (list Z) Rec.t :=
  fold_left (fun st r => serve r st) rs ∅.

End Variant.
End V1.

(** ** The second variant: interpreter and routes *)

Module V2.

(** [/\bpalindrome|palindromic\b/] *)
Definition re_palindrome : regex :=
  ((WordB +> Lit (js "palindrome")) <|> (Lit (js "palindromic") +> WordB))%re.

(** [/\b(single|one)\s+word\b/] *)
Definition re_single_word : regex :=
  (WordB +> Group 1 (Lit (js "single") <|> Lit (js "one")) +> Plus is_space
   +> Lit (js "word") +> WordB)%re.

(** [/(?:contains|containing|has|with)\s+(?:the\s+)?(?:letter|character)\s*([a-z0-9])/] *)
Definition re_contains : regex :=
  ((Lit (js "contains") <|> Lit (js "containing") <|> Lit (js "has")
    <|> Lit (js "with"))
   +> Plus is_space
   +> Opt (Lit (js "the") +> Plus is_space)
   +> (Lit (js "letter") <|> Lit (js "character"))
   +> Star is_space
   +> Group 1 (Class is_lower_alnum))%re.

(** [/\bfirst\s+vowel\b/] *)
Definition re_first_vowel : regex :=
  (WordB +> Lit (js "first") +> Plus is_space +> Lit (js "vowel") +> WordB)%re.

(** [/\b(longer|greater)\s+than\s+(\d+)\b/] *)
Definition re_longer : regex :=
  (WordB +> Group 1 (Lit (js "longer") <|> Lit (js "greater")) +> Plus is_space
   +> Lit (js "than") +> Plus is_space +> Group 2 (Plus is_digit) +> WordB)%re.

(** [/\b(shorter|less)\s+than\s+(\d+)\b/] *)
Definition re_shorter : regex :=
  (WordB +> Group 1 (Lit (js "shorter") <|> Lit (js "less")) +> Plus is_space
   +> Lit (js "than") +> Plus is_space +> Group 2 (Plus is_digit) +> WordB)%re.

(** [/\b(?:exactly|of)\s+(\d+)\s+characters?\b/] *)
Definition re_exactly : regex :=
  (WordB +> (Lit (js "exactly") <|> Lit (js "of")) +> Plus is_space
   +> Group 1 (Plus is_digit) +> Plus is_space +> Lit (js "character")
   +> Opt (Lit (js "s")) +> WordB)%re.

Section Variant.
Context `{CaseMapping}.

(** The text the rules read: [String(queryRaw || "").toLowerCase().trim()]. *)
Definition normalize (queryRaw : jsstring) : jsstring :=
  trim (toLowerCase queryRaw).

(** The rules, applied to the normalized text [q] in the order of the
    source. *)
Definition rules (q : jsstring) : Filters.t :=
  let filters := Filters.empty in
  let filters :=
    if test re_palindrome q
    then Filters.set_is_palindrome (VBool true) filters else filters in
  let filters :=
    if test re_single_word q
    then Filters.set_word_count (VNum 1) filters else filters in
  let containsChar := exec re_contains q in
  let filters :=
    match containsChar with
    | Some m => Filters.set_contains_character (VStr (default [] (group 1 m))) filters
    | None => filters
    end in
  let filters :=
    if test re_first_vowel q
    then Filters.set_contains_character (VStr (js "a")) filters else filters in
  let longer := exec re_longer q in
  let filters :=
    match longer with
    | Some m =>
        Filters.set_min_length
          (num_plus (parseInt_string (default [] (group 2 m))) 1) filters
    | None => filters
    end in
  let shorter := exec re_shorter q in
  let filters :=
    match shorter with
    | Some m =>
        Filters.set_max_length
          (num_plus (parseInt_string (default [] (group 2 m))) (-1)) filters
    | None => filters
    end in
  let exactly := exec re_exactly q in
  let filters :=
    match exactly with
    | Some m =>
        let n := parseInt_number (parseInt_string (default [] (group 1 m))) in
        Filters.set_max_length n (Filters.set_min_length n filters)
    | None => filters
    end in
  filters.

(** [parseNaturalLanguage] of the second variant. *)
Definition parseNaturalLanguage (queryRaw : jsstring) : parsed :=
  let q := normalize queryRaw in
  match q with
  | [] => Parsed Filters.empty
  | _ :: _ =>
      let filters := rules q in
      if Filters.conflicting filters then ParseConflict else Parsed filters
  end.

(** [app.post("/strings", ...)], store keyed by [trimmedValue]. *)
Definition post_strings (now : jsstring) (value : option jsval)
  (stringStore : gmap (list Z) Rec.t) : post_response * gmap (list Z) Rec.t :=
  match value with
  | None => (MissingField, stringStore)
  | Some (VStr value) =>
      let trimmedValue := trim value in
      if (Z.of_nat (length trimmedValue) =? 0) then (EmptyValue, stringStore)
      else
        let analysisResult := analyzeString now trimmedValue in
        if store_has stringStore trimmedValue
        then (Duplicate, stringStore)
        else (Created analysisResult,
              <[trimmedValue := analysisResult]> stringStore)
  | Some _ => (WrongType, stringStore)
  end.

(** [app.delete("/strings/:value", ...)] *)
Definition delete_string (value : jsstring) (stringStore : gmap (list Z) Rec.t)
  : delete_response * gmap (list Z) Rec.t :=
  if negb (store_has stringStore value) then (NotFound, stringStore)
  else (NoContent, delete value stringStore).

(** What a request leaves in the store. *)
Definition serve (r : request) (stringStore : gmap (list Z) Rec.t)
  : gmap (list Z) Rec.t :=
  match r with
  | Post now value => snd (post_strings now value stringStore)
  | Delete key => snd (delete_string key stringStore)
  end.

(** The store after a sequence of requests, starting from [{}]. *)
Definition run_requests (rs : list request) : gmap (list Z) Rec.t :=
  fold_left (fun st r => serve r st) rs ∅.

End Variant.
End V2.

(** ** The read routes

    The handlers of [GET /strings/:key], [GET /strings] and
    [GET /strings/filter-by-natural-language].  The first two read the same
    in both variants.  [Object.values(stringStore)] lists the records in the
    property order of the object; the handlers are given the list it yields
    as [availableData].

    Each definition is the body of a handler, a function of the request it
    is called with.  Which handler a request reaches is decided by the
    router, in the order of registration, and is not part of the model: the
    second variant registers [/strings/filter-by-natural-language] before
    [/strings/:value], so a request for that very path is answered by the
    natural-language handler and not by [get_string]; the first variant
    registers [/strings/:hash] first. *)

(** What the read [stringStore[key]] evaluates to, when it is not
    [undefined]: a record of the store, or the value of the property the
    object inherits under that name. *)
Inductive stored :=
| OwnRecord (record : Rec.t)
| InheritedValue (name : jsstring).

Definition store_get (stringStore : gmap (list Z) Rec.t) (key : jsstring)
  : option stored :=
  match stringStore !! key with
  | Some record => Some (OwnRecord record)
  | None => if inherited key then Some (InheritedValue key) else None
  end.

Inductive get_response :=
| Found (stringData : stored)
| GetNotFound.

(** The handler of [app.get('/strings/:hash', ...)] and of
    [app.get("/strings/:value", ...)]; [key] is the route parameter it is
    called with. *)
Definition get_string (key : jsstring) (stringStore : gmap (list Z) Rec.t)
  : get_response :=
  match store_get stringStore key with
  | Some stringData => Found stringData
  | None => GetNotFound
  end.

(** [isInvalidInt]: the parameter is present and [parseInt] reads NaN. *)
Definition isInvalidInt (val : option jsval) : bool :=
  match val with
  | Some v => match parseInt v with Some _ => false | None => true end
  | None => false
  end.

Inductive list_response :=
| ListOk (data : list Rec.t) (count : Z) (filters_applied : Filters.t)
| BadPalindromeFlag
| BadInteger.

(** [Object.keys(parsedFilters).length === 0] *)
Definition no_keys (f : Filters.t) : bool :=
  match Filters.is_palindrome f, Filters.min_length f, Filters.max_length f,
        Filters.word_count f, Filters.contains_character f with
  | None, None, None, None, None => true
  | _, _, _, _, _ => false
  end.

Inductive nl_response :=
| NLOk (data : list Rec.t) (count : Z) (original : jsstring)
       (parsed_filters : Filters.t)
| MissingQuery
| ConflictingFilters
| UnparsableQuery.

Section ReadRoutes.
Context `{CaseMapping}.

(** [app.get('/strings', ...)]; [query] is [req.query]. *)
Definition get_strings (availableData : list Rec.t) (query : Filters.t)
  : list_response :=
  if match Filters.is_palindrome query with
     | Some v =>
         negb (existsb (jsstring_eqb (toLowerCase (ToString v)))
                 [js "true"; js "false"])
     | None => false
     end
  then BadPalindromeFlag
  else if isInvalidInt (Filters.min_length query)
          || isInvalidInt (Filters.max_length query)
          || isInvalidInt (Filters.word_count query)
  then BadInteger
  else
    let filteredData := applyFilters availableData query in
    ListOk filteredData (Z.of_nat (length filteredData)) query.

(** The handler of [app.get('/strings/filter-by-natural-language', ...)] of
    the first variant; [query] is [req.query.query], [None] when it is
    missing.  The first variant registers [/strings/:hash] before this path,
    so what follows is about the handler, called with the request. *)
Definition V1_filter_by_natural_language (availableData : list Rec.t)
  (query : option jsstring) : nl_response :=
  match query with
  | None | Some [] => MissingQuery
  | Some query =>
      match V1.parseNaturalLanguage query with
      | ParseConflict => ConflictingFilters
      | Parsed parsedFilters =>
          if no_keys parsedFilters then UnparsableQuery
          else
            let filteredData := applyFilters availableData parsedFilters in
            NLOk filteredData (Z.of_nat (length filteredData)) query parsedFilters
      end
  end.

(** [app.get("/strings/filter-by-natural-language", ...)] of the second
    variant. *)
Definition V2_filter_by_natural_language (availableData : list Rec.t)
  (q : option jsstring) : nl_response :=
  match q with
  | None => MissingQuery
  | Some q =>
      match trim q with
      | [] => MissingQuery
      | _ :: _ =>
          match V2.parseNaturalLanguage q with
          | ParseConflict => ConflictingFilters
          | Parsed parsedFilters =>
              if no_keys parsedFilters then UnparsableQuery
              else
                let filteredData := applyFilters availableData parsedFilters in
                NLOk filteredData (Z.of_nat (length filteredData)) q parsedFilters
          end
      end
  end.

End ReadRoutes.

(** ** Vocabulary of the properties *)

(** A string that does not start with white space. *)
Definition head_nonspace (s : jsstring) : Prop :=
  match s with
  | c :: _ => is_space c = false
  | [] => True
  end.

(** The surrogate pairs the string iterator reads as one code point. *)
Fixpoint surrogate_pairs (s : jsstring) : nat :=
  match s with
  | [] => O
  | c :: t =>
      match t with
      | d :: t' =>
          if is_high_surrogate c && is_low_surrogate d
          then S (surrogate_pairs t')
          else surrogate_pairs t
      | [] => O
      end
  end.

(** The sum of the counts of a frequency map. *)
Definition sum_counts (m : gmap (list Z) Z) : Z :=
  map_fold (fun _ n acc => n + acc) 0 m.

(** The spec's words: an ASCII letter or digit. *)
Definition is_ascii_letter_or_digit (c : Z) : bool :=
  is_lower_az c || is_upper_AZ c || is_digit c.

(** The spec's words: lower-case the value, delete every character that is
    not an ASCII letter or digit. *)
Definition spec_stripped `{CaseMapping} (value : jsstring) : jsstring :=
  List.filter is_ascii_letter_or_digit (toLowerCase value).

(** What C10 says of a stored record. *)
Definition record_ok (r : Rec.t) : Prop :=
  Rec.value r = trim (Rec.value r) /\
  Rec.value r <> [] /\
  1 <= Props.length (Rec.properties r) /\
  1 <= Props.word_count (Rec.properties r).

(** A single character: one UTF-16 code unit, or a surrogate pair. *)
Inductive character :=
| Unit (c : Z)
| Pair (hi lo : Z).

Definition character_string (ch : character) : jsstring :=
  match ch with
  | Unit c => [c]
  | Pair hi lo => [hi; lo]
  end.

(** The spec's words: the typed filter set. *)
Module FilterSet.
Record t := mk {
  is_palindrome : option bool;
  min_length : option Z;
  max_length : option Z;
  word_count : option Z;
  contains_character : option character
}.
End FilterSet.

(** The integers a JavaScript number holds exactly. *)
Definition safe_integer (n : Z) : Prop :=
  - 9007199254740991 <= n <= 9007199254740991.

Definition safe_filter_set (fs : FilterSet.t) : Prop :=
  (forall n, FilterSet.min_length fs = Some n -> safe_integer n) /\
  (forall n, FilterSet.max_length fs = Some n -> safe_integer n) /\
  (forall n, FilterSet.word_count fs = Some n -> safe_integer n).

(** The filter object that holds a typed filter set. *)
Definition filters_of (fs : FilterSet.t) : Filters.t :=
  Filters.mk
    (VBool <$> FilterSet.is_palindrome fs)
    (VNum <$> FilterSet.min_length fs)
    (VNum <$> FilterSet.max_length fs)
    (VNum <$> FilterSet.word_count fs)
    ((fun ch => VStr (character_string ch)) <$> FilterSet.contains_character fs).

(** The spec's words: what it is for a record to satisfy each filter that
    is present. *)
Definition satisfies `{CaseMapping} (fs : FilterSet.t) (item : Rec.t) : bool :=
  match FilterSet.is_palindrome fs with
  | Some v => Bool.eqb (Props.is_palindrome (Rec.properties item)) v
  | None => true
  end
  && match FilterSet.min_length fs with
     | Some n => n <=? Props.length (Rec.properties item)
     | None => true
     end
  && match FilterSet.max_length fs with
     | Some n => Props.length (Rec.properties item) <=? n
     | None => true
     end
  && match FilterSet.word_count fs with
     | Some n => Props.word_count (Rec.properties item) =? n
     | None => true
     end
  && match FilterSet.contains_character fs with
     | Some ch =>
         includes (toLowerCase (Rec.value item))
                  (toLowerCase (character_string ch))
     | None => true
     end.

(** The unit before the position reached after reading [pre], when [prev]
    is the unit before [pre]. *)
Definition before_after (prev : option Z) (pre : jsstring) : option Z :=
  match rev pre with
  | c :: _ => Some c
  | [] => prev
  end.

(** A string that does not start with a unit of the class [p]. *)
Definition head_outside (p : Z -> bool) (r : jsstring) : Prop :=
  match r with
  | c :: _ => p c = false
  | [] => True
  end.

(** No attempt succeeds at a position before the [n]-th of [s]. *)
Definition no_match_before (re : regex) (prev : option Z) (s : jsstring)
  (n : nat) : Prop :=
  forall pre r, s = pre ++ r -> (length pre < n)%nat ->
    attempt re (before_after prev pre) r = None.

(** The shape of a phrase the contains-character rule of the second
    variant reads: a verb, white space, an optional [the] with white space,
    a noun and optional white space. *)
Definition contains_phrase (kw ws1 the noun ws3 : jsstring) : Prop :=
  (kw = js "contains" \/ kw = js "containing" \/ kw = js "has" \/ kw = js "with") /\
  ws1 <> [] /\ forallb is_space ws1 = true /\
  (the = [] \/ exists ws2, the = js "the" ++ ws2 /\ ws2 <> []
                           /\ forallb is_space ws2 = true) /\
  (noun = js "letter" \/ noun = js "character") /\
  forallb is_space ws3 = true.

(** The length of the longest prefix of [r] in the class [p]. *)
Fixpoint run_length (p : Z -> bool) (r : jsstring) : nat :=
  match r with
  | c :: t => if p c then S (run_length p t) else O
  | [] => O
  end.

(** The number of places of [s] where a run of units that are not white
    space starts; [at_start] tells whether the unit before [s] is white
    space (or [s] starts the string). *)
Fixpoint word_starts (at_start : bool) (s : jsstring) : nat :=
  match s with
  | [] => O
  | c :: t =>
      if is_space c then word_starts true t
      else ((if at_start then 1 else 0) + word_starts false t)%nat
  end.

(** The number of times [ch] occurs in [l]. *)
Definition occurrences (ch : jsstring) (l : list jsstring) : Z :=
  Z.of_nat (length (List.filter (jsstring_eqb ch) l)).

(** [[0-9a-f]] *)
Definition is_hex_digit (c : Z) : bool := is_digit c || in_range 97 102 c.

(** A record that is the analysis of its own value, made at its own
    creation time. *)
Definition analysed `{CaseMapping} (r : Rec.t) : Prop :=
  r = analyzeString (Rec.created_at r) (Rec.value r).

(** What the first variant keeps of every entry of the store: the key is
    the identifier of the record, the fingerprint of its value. *)
Definition V1_entry_ok `{CaseMapping} (key : jsstring) (r : Rec.t) : Prop :=
  key = Rec.id r /\ key = sha256_hex (Rec.value r) /\ analysed r.

(** What the second variant keeps of every entry of the store: the key is
    the value of the record and is not the name of an inherited property. *)
Definition V2_entry_ok `{CaseMapping} (key : jsstring) (r : Rec.t) : Prop :=
  key = Rec.value r /\ inherited key = false /\ analysed r.

(** What [applyFilters] asks of one record: the conjunction of the tests of
    its five steps, a step that is skipped asking nothing. *)
Definition passes `{CaseMapping} (filters : Filters.t) (item : Rec.t) : bool :=
  match Filters.is_palindrome filters with
  | Some v =>
      Bool.eqb (Props.is_palindrome (Rec.properties item))
               (jsstring_eqb (toLowerCase (ToString v)) (js "true"))
  | None => true
  end
  && match Filters.min_length filters with
     | Some v =>
         match parseInt v with
         | Some minLength => minLength <=? Props.length (Rec.properties item)
         | None => true
         end
     | None => true
     end
  && match Filters.max_length filters with
     | Some v =>
         match parseInt v with
         | Some maxLength => Props.length (Rec.properties item) <=? maxLength
         | None => true
         end
     | None => true
     end
  && match Filters.word_count filters with
     | Some v =>
         match parseInt v with
         | Some wordCount => Props.word_count (Rec.properties item) =? wordCount
         | None => true
         end
     | None => true
     end
  && match Filters.contains_character filters with
     | Some v =>
         if truthy v
         then includes (toLowerCase (Rec.value item)) (toLowerCase (ToString v))
         else true
     | None => true
     end.

(** [f'] holds every filter [f] holds, with the same value. *)
Definition extends (f f' : Filters.t) : Prop :=
  (forall v, Filters.is_palindrome f = Some v -> Filters.is_palindrome f' = Some v) /\
  (forall v, Filters.min_length f = Some v -> Filters.min_length f' = Some v) /\
  (forall v, Filters.max_length f = Some v -> Filters.max_length f' = Some v) /\
  (forall v, Filters.word_count f = Some v -> Filters.word_count f' = Some v) /\
  (forall v, Filters.contains_character f = Some v ->
             Filters.contains_character f' = Some v).

(** A length an interpreter stores: positive infinity, or an integer of at
    least [lo]. *)
Definition stored_length (lo : Z) (v : jsval) : Prop :=
  v = VInfinity false \/ exists n, v = VNum n /\ lo <= n.

(** The shape of the filter objects the interpreters build: the flag is
    absent or [true], the word count absent or 1, the character absent or
    one unit of the class [p], the lengths absent or stored lengths of at
    least [lo] and [hi]. *)
Definition interpreted (p : Z -> bool) (lo hi : Z) (f : Filters.t) : Prop :=
  (Filters.is_palindrome f = None \/ Filters.is_palindrome f = Some (VBool true)) /\
  (Filters.word_count f = None \/ Filters.word_count f = Some (VNum 1)) /\
  (forall v, Filters.contains_character f = Some v ->
     exists c, v = VStr [c] /\ p c = true) /\
  (forall v, Filters.min_length f = Some v -> stored_length lo v) /\
  (forall v, Filters.max_length f = Some v -> stored_length hi v).

(** A run of decimal digits that is not empty. *)
Definition digit_string (ds : jsstring) : Prop :=
  ds <> [] /\ forallb is_digit ds = true.

(** A run of white space that is not empty. *)
Definition space_run (ws : jsstring) : Prop :=
  ws <> [] /\ forallb is_space ws = true.

(** The regular expression has no capture group [i]. *)
Fixpoint no_group (i : nat) (re : regex) : bool :=
  match re with
  | Seq a b | Alt a b => no_group i a && no_group i b
  | Group j a => negb (Nat.eqb i j) && no_group i a
  | _ => true
  end.

(** Settles [no_match_before] on a concrete text: the prefix is taken
    apart unit by unit and the matcher is run at each start. *)
Ltac no_match_enum :=
  let pre := fresh "pre" in
  let r := fresh "r" in
  let E := fresh "E" in
  let Hlen := fresh "Hlen" in
  intros pre r E Hlen;
  repeat (destruct pre as [|? pre];
          [cbn [app] in E; subst r; vm_compute; reflexivity
          |cbn [app] in E; injection E as ? E; subst]);
  simpl in Hlen; lia.

(** * Properties *)

(** ** The fingerprint on known digests *)

Example sha_abc : sha256_hex (js "abc") = js "ba7816bf8f01cfea414140de5dae2223b00361a396177a9cb410ff61f20015ad".
Proof. vm_compute. reflexivity. Qed.
Example sha_racecar : sha256_hex (js "racecar") = js "e00f9ef51a95f6e854862eed28dc0f1a68f154d9f75ddd841ab00de6ede9209b".
Proof. vm_compute. reflexivity. Qed.
Example sha_grin : sha256_hex [55357; 56832] = js "f0443a342c5ef54783a111b51ba56c938e474c32324d90c3a60c9c8e3a37e2d9".
Proof. vm_compute. reflexivity. Qed.
Example sha_70 : sha256_hex (repeat 97 70) = js "6bd5e5034855a11241f0dee8fc72850ffd9955b28347a86428b5fa19119f6ad0".
Proof. vm_compute. reflexivity. Qed.

(** ** Trimming *)

Lemma trimStart_head s : head_nonspace (trimStart s).
Proof.
  induction s as [|c s IH]; simpl; [exact I|].
  destruct (is_space c) eqn:E; [exact IH | exact E].
Qed.

Lemma trimStart_fixed s : head_nonspace s -> trimStart s = s.
Proof. destruct s as [|c s]; simpl; [reflexivity|]. now intros ->. Qed.

Lemma trimStart_split s : exists p, s = p ++ trimStart s.
Proof.
  induction s as [|c s [p Hp]]; simpl.
  - now exists [].
  - destruct (is_space c).
    + exists (c :: p). simpl. now f_equal.
    + now exists [].
Qed.

Lemma trimEnd_head s : head_nonspace s -> head_nonspace (trimEnd s).
Proof.
  intros Hs. unfold trimEnd.
  destruct (trimStart_split (rev s)) as [p Hp].
  apply (f_equal (@rev Z)) in Hp. rewrite rev_involutive, rev_app_distr in Hp.
  destruct (rev (trimStart (rev s))) as [|c w]; [exact I|].
  subst s. exact Hs.
Qed.

Lemma trim_head s : head_nonspace (trim s).
Proof. apply trimEnd_head, trimStart_head. Qed.

Lemma trim_idempotent s : trim (trim s) = trim s.
Proof.
  unfold trim at 1. rewrite (trimStart_fixed (trim s)) by apply trim_head.
  unfold trim, trimEnd. rewrite rev_involutive.
  now rewrite (trimStart_fixed (trimStart _)) by apply trimStart_head.
Qed.

(** ** Code units, code points and surrogate pairs *)

Lemma codePoints_length_aux s :
  (length (codePoints s) + surrogate_pairs s = length s)%nat /\
  forall c, (length (codePoints (c :: s)) + surrogate_pairs (c :: s)
             = S (length s))%nat.
Proof.
  induction s as [|d s [IH1 IH2]].
  - split; [reflexivity|]. intros c. reflexivity.
  - split; [apply IH2|]. intros c.
    change (codePoints (c :: d :: s)) with
      (if is_high_surrogate c && is_low_surrogate d
       then [c; d] :: codePoints s else [c] :: codePoints (d :: s)).
    change (surrogate_pairs (c :: d :: s)) with
      (if is_high_surrogate c && is_low_surrogate d
       then S (surrogate_pairs s) else surrogate_pairs (d :: s)).
    destruct (is_high_surrogate c && is_low_surrogate d).
    + cbn [length]. lia.
    + cbn [length]. specialize (IH2 d). cbn [length] in IH2. lia.
Qed.

Lemma codePoints_length s :
  (length (codePoints s) + surrogate_pairs s = length s)%nat.
Proof. apply codePoints_length_aux. Qed.

(** ** The frequency map *)

Lemma sum_counts_count_char m ch :
  sum_counts (count_char m ch) = sum_counts m + 1.
Proof.
  unfold count_char, sum_counts.
  destruct (m !! ch) as [n|] eqn:E; simpl.
  - rewrite <- insert_delete_eq.
    rewrite map_fold_insert_L by (intros; lia || apply lookup_delete_eq).
    rewrite (map_fold_delete_L _ _ ch n m) by (intros; lia || exact E). lia.
  - rewrite map_fold_insert_L by (intros; lia || exact E). lia.
Qed.

Lemma sum_counts_fold l m :
  sum_counts (fold_left count_char l m) = sum_counts m + Z.of_nat (length l).
Proof.
  revert m. induction l as [|ch l IH]; intros m; simpl fold_left.
  - simpl. lia.
  - rewrite IH, sum_counts_count_char. cbn [length]. lia.
Qed.

Lemma dom_count_fold l m :
  dom (fold_left count_char l m) = list_to_set l ∪ dom m.
Proof.
  revert m. induction l as [|ch l IH]; intros m; simpl fold_left.
  - simpl. now rewrite (left_id_L ∅ (∪)).
  - rewrite IH. unfold count_char. rewrite dom_insert_L. simpl.
    now rewrite (assoc_L (∪)), (comm_L (∪) (list_to_set l)).
Qed.

(** ** C1: the length property *)

(** C1, as the source has it.  The create handler analyses the trimmed
    value, and the length property of the record is the number of UTF-16
    code units of that trimmed value: the number of its code points plus
    the number of surrogate pairs in it.  It is the code-point count exactly
    when the trimmed value holds no surrogate pair. *)
Theorem length_is_code_unit_count `{CaseMapping} (now s : jsstring) :
  let p := Rec.properties (analyzeString now (trim s)) in
  Props.length p = Z.of_nat (length (trim s)) /\
  Props.length p
  = Z.of_nat (length (codePoints (trim s))) + Z.of_nat (surrogate_pairs (trim s)) /\
  (Props.length p = Z.of_nat (length (codePoints (trim s)))
   <-> surrogate_pairs (trim s) = O).
Proof.
  cbn zeta. unfold analyzeString. cbn [Rec.properties Props.length].
  pose proof (codePoints_length (trim s)). repeat split; lia.
Qed.

(** C1 as stated fails on U+1F600, a string of one code point and two code
    units. *)
Lemma length_of_astral_string :
  let s := [55357; 56832] in
  s <> [] /\
  Props.length (Rec.properties (analyzeString (js "2025-01-01T00:00:00.000Z") (trim s))) = 2 /\
  Z.of_nat (length (codePoints (trim s))) = 1.
Proof. cbn zeta. split; [discriminate|]. split; reflexivity. Qed.

(** ** C4: the palindrome property *)

Lemma filter_lower_alnum_no_upper l :
  forallb (fun c => negb (is_upper_AZ c)) l = true ->
  List.filter is_lower_alnum l = List.filter is_ascii_letter_or_digit l.
Proof.
  induction l as [|c l IH]; [reflexivity|].
  cbn [forallb List.filter]. intros Hc. apply andb_prop in Hc as [Hc Hl].
  rewrite (IH Hl). unfold is_lower_alnum, is_ascii_letter_or_digit.
  destruct (is_upper_AZ c); [discriminate|].
  now rewrite orb_false_r.
Qed.

Lemma sanitize_spec `{CaseMapping} value :
  sanitize (toLowerCase value) = spec_stripped value.
Proof. apply filter_lower_alnum_no_upper, toLowerCase_no_upper. Qed.

(** C4.  The record is a palindrome exactly when the lower-cased value with
    every character that is not an ASCII letter or digit removed is not
    empty and reads the same backwards. *)
Theorem is_palindrome_iff `{CaseMapping} (now value : jsstring) :
  Props.is_palindrome (Rec.properties (analyzeString now value)) = true <->
  spec_stripped value <> [] /\ spec_stripped value = rev (spec_stripped value).
Proof.
  unfold analyzeString. cbn [Rec.properties Props.is_palindrome].
  rewrite sanitize_spec. unfold jsstring_eqb.
  rewrite andb_true_iff, bool_decide_eq_true, Z.ltb_lt.
  destruct (spec_stripped value) as [|c l] eqn:E.
  - simpl. split; [lia | intros [? _]; congruence].
  - cbn [length]. split; intros [? ?]; split; try done; lia.
Qed.

(** ** C5: the frequency map *)

(** C5, as the source has it.  The counts of the frequency map add up to
    the number of code points of the value, which is the length property
    less the number of surrogate pairs; the number of unique characters is
    the number of keys of the map, and the keys are the code points of the
    value. *)
Theorem frequency_consistency `{CaseMapping} (now value : jsstring) :
  let p := Rec.properties (analyzeString now value) in
  sum_counts (Props.character_frequency_map p)
  = Z.of_nat (length (codePoints value)) /\
  sum_counts (Props.character_frequency_map p)
  = Props.length p - Z.of_nat (surrogate_pairs value) /\
  Props.unique_characters p
  = Z.of_nat (size (dom (Props.character_frequency_map p))) /\
  dom (Props.character_frequency_map p) = list_to_set (codePoints value).
Proof.
  cbn zeta. unfold analyzeString.
  cbn [Rec.properties Props.length Props.character_frequency_map
       Props.unique_characters].
  unfold frequency_map.
  pose proof (codePoints_length value).
  rewrite size_dom, sum_counts_fold, dom_count_fold.
  unfold sum_counts. rewrite map_fold_empty, dom_empty_L.
  repeat split; try lia. apply (right_id_L ∅ (∪)).
Qed.

(** C5 as stated fails on U+1F600: the map counts one character, the length
    is two. *)
Lemma frequency_sum_of_astral_string :
  let p := Rec.properties (analyzeString (js "2025-01-01T00:00:00.000Z") [55357; 56832]) in
  sum_counts (Props.character_frequency_map p) = 1 /\ Props.length p = 2.
Proof. cbn zeta. split; vm_compute; reflexivity. Qed.

(** ** The word count of a trimmed value *)

Lemma star_total p prev r cs : is_Some (star p Some prev r cs).
Proof.
  revert prev. induction r as [|c r IH]; intros prev; simpl; [eauto|].
  destruct (p c); [|eauto].
  destruct (IH (Some c)) as [res ->]. eauto.
Qed.

Lemma attempt_words_head prev c t :
  is_space c = false -> is_Some (attempt re_words prev (c :: t)).
Proof.
  intros Hc. unfold attempt, re_words, Plus. simpl.
  unfold is_nonspace at 1. rewrite Hc. simpl. apply star_total.
Qed.

Lemma match_all_words_nonempty s :
  s <> [] -> head_nonspace s -> (1 <= length (match_all re_words s))%nat.
Proof.
  destruct s as [|c t]; [congruence|]. intros _ Hc. simpl in Hc.
  unfold match_all. cbn [match_all_from].
  destruct (attempt_words_head None c t Hc) as [res ->].
  cbn [length]. lia.
Qed.

(** ** C10: the records of the store *)

Lemma analyzeString_trimmed_ok `{CaseMapping} now value :
  trim value <> [] -> record_ok (analyzeString now (trim value)).
Proof.
  intros Hne. unfold record_ok, analyzeString.
  cbn [Rec.value Rec.properties Props.length Props.word_count].
  split; [now rewrite trim_idempotent|]. split; [exact Hne|].
  pose proof (match_all_words_nonempty (trim value) Hne (trim_head value)).
  destruct (trim value); [congruence|]. cbn [length] in *. lia.
Qed.

Lemma length_zero_eqb (s : jsstring) :
  (Z.of_nat (length s) =? 0) = match s with [] => true | _ :: _ => false end.
Proof. destruct s; reflexivity. Qed.

Section StoreInvariant.
Context `{CaseMapping}.

Lemma V1_serve_ok (r : request) (st : gmap (list Z) Rec.t) :
  map_Forall (fun _ => record_ok) st ->
  map_Forall (fun _ => record_ok) (V1.serve r st).
Proof.
  intros Hst. destruct r as [now [[b|n|i| |v]|]|key]; simpl; try exact Hst.
  - rewrite length_zero_eqb. destruct (trim v) eqn:Ev; [exact Hst|].
    rewrite <- Ev.
    destruct (store_has st _); [exact Hst|]. simpl.
    apply map_Forall_insert_2; [|exact Hst].
    apply analyzeString_trimmed_ok. rewrite Ev. discriminate.
  - unfold V1.delete_string. destruct (store_has st key); simpl; [|exact Hst].
    now apply map_Forall_delete.
Qed.

Lemma V2_serve_ok (r : request) (st : gmap (list Z) Rec.t) :
  map_Forall (fun _ => record_ok) st ->
  map_Forall (fun _ => record_ok) (V2.serve r st).
Proof.
  intros Hst. destruct r as [now [[b|n|i| |v]|]|key]; simpl; try exact Hst.
  - rewrite length_zero_eqb. destruct (trim v) eqn:Ev; [exact Hst|].
    rewrite <- Ev.
    destruct (store_has st _); [exact Hst|]. simpl.
    apply map_Forall_insert_2; [|exact Hst].
    apply analyzeString_trimmed_ok. rewrite Ev. discriminate.
  - unfold V2.delete_string. destruct (store_has st key); simpl; [|exact Hst].
    now apply map_Forall_delete.
Qed.

Lemma fold_serve_ok (serve : request -> gmap (list Z) Rec.t -> gmap (list Z) Rec.t) :
  (forall r st, map_Forall (fun _ => record_ok) st ->
                map_Forall (fun _ => record_ok) (serve r st)) ->
  forall rs st, map_Forall (fun _ => record_ok) st ->
    map_Forall (fun _ => record_ok) (fold_left (fun st r => serve r st) rs st).
Proof.
  intros Hstep rs. induction rs as [|r rs IH]; intros st Hst; simpl; [exact Hst|].
  apply IH, Hstep, Hst.
Qed.

(** C10.  After any sequence of create and delete requests, in either
    variant, every record of the store has a value that is its own trim and
    is not empty, a length of at least one and a word count of at least
    one. *)
Theorem store_records_ok (rs : list request) :
  map_Forall (fun _ => record_ok) (V1.run_requests rs) /\
  map_Forall (fun _ => record_ok) (V2.run_requests rs).
Proof.
  split.
  - apply (fold_serve_ok V1.serve V1_serve_ok), map_Forall_empty.
  - apply (fold_serve_ok V2.serve V2_serve_ok), map_Forall_empty.
Qed.

End StoreInvariant.

(** ** C3: creating a value twice *)

Lemma sha256_hex_length value : length (sha256_hex value) = 64%nat.
Proof. reflexivity. Qed.

Lemma inherited_length key : inherited key = true -> (length key <= 20)%nat.
Proof.
  unfold inherited, objectPrototype. rewrite existsb_exists.
  intros [name [Hin Heq]]. apply bool_decide_eq_true in Heq. subst key.
  simpl in Hin. repeat (destruct Hin as [<-|Hin]; [vm_compute; lia|]).
  destruct Hin.
Qed.

Lemma sha256_hex_not_inherited value : inherited (sha256_hex value) = false.
Proof.
  destruct (inherited (sha256_hex value)) eqn:E; [|reflexivity].
  apply inherited_length in E. rewrite sha256_hex_length in E. lia.
Qed.

Section CreateTwice.
Context `{CaseMapping}.

(** In the second variant a first create succeeds when the trimmed value is
    not empty, is not stored yet and is not the name of a property the store
    object inherits; any later create of a value with the same trim is then
    a duplicate and leaves the store as it was. *)
Lemma V2_create_twice (now now' v v' : jsstring) (st : gmap (list Z) Rec.t) :
  trim v <> [] -> inherited (trim v) = false -> st !! trim v = None ->
  trim v' = trim v ->
  let r := analyzeString now (trim v) in
  let st' := <[trim v := r]> st in
  V2.post_strings now (Some (VStr v)) st = (Created r, st') /\
  V2.post_strings now' (Some (VStr v')) st' = (Duplicate, st').
Proof.
  intros Hne Hinh Hst Hv' r st'. unfold V2.post_strings.
  rewrite Hv', length_zero_eqb. destruct (trim v) as [|c t] eqn:Ev; [congruence|].
  unfold store_has. rewrite Hst, Hinh. split; [reflexivity|].
  subst st'. now rewrite lookup_insert_eq.
Qed.

(** In the first variant the key is the fingerprint, which is never the
    name of an inherited property. *)
Lemma V1_create_twice (now now' v v' : jsstring) (st : gmap (list Z) Rec.t) :
  trim v <> [] -> st !! sha256_hex (trim v) = None ->
  trim v' = trim v ->
  let r := analyzeString now (trim v) in
  let st' := <[sha256_hex (trim v) := r]> st in
  V1.post_strings now (Some (VStr v)) st = (Created r, st') /\
  V1.post_strings now' (Some (VStr v')) st' = (Duplicate, st').
Proof.
  intros Hne Hst Hv' r st'. unfold V1.post_strings.
  rewrite Hv', length_zero_eqb. destruct (trim v) as [|c t] eqn:Ev; [congruence|].
  unfold analyzeString at 1 3. cbn [Rec.id].
  unfold store_has. rewrite Hst, sha256_hex_not_inherited. split; [reflexivity|].
  subst st'. now rewrite lookup_insert_eq.
Qed.

(** A create that does not answer [Created] leaves the store as it was. *)
Lemma create_failure_unchanged (now : jsstring) (value : option jsval)
  (st : gmap (list Z) Rec.t) :
  (forall resp st', V1.post_strings now value st = (resp, st') ->
     (forall r, resp <> Created r) -> st' = st) /\
  (forall resp st', V2.post_strings now value st = (resp, st') ->
     (forall r, resp <> Created r) -> st' = st).
Proof.
  split; intros resp st'.
  - unfold V1.post_strings.
    destruct value as [[b|n|i| |v]|]; try (intros [= <- <-]; reflexivity).
    destruct (_ =? 0); [intros [= <- <-]; reflexivity|].
    destruct (store_has st _); intros [= <- <-] Hr; [reflexivity|].
    now destruct (Hr (analyzeString now (trim v))).
  - unfold V2.post_strings.
    destruct value as [[b|n|i| |v]|]; try (intros [= <- <-]; reflexivity).
    destruct (_ =? 0); [intros [= <- <-]; reflexivity|].
    destruct (store_has st _); intros [= <- <-] Hr; [reflexivity|].
    now destruct (Hr (analyzeString now (trim v))).
Qed.

(** C3 at the value ["constructor"], second variant.  The store is empty,
    and the first create is answered [Duplicate]: the read
    [stringStore[trimmedValue]] finds the [constructor] the object inherits.
    The first variant, keyed by the fingerprint, creates the record. *)
Theorem create_constructor (now : jsstring) :
  V2.post_strings now (Some (VStr (js "constructor"))) ∅ = (Duplicate, ∅) /\
  exists r,
    V1.post_strings now (Some (VStr (js "constructor"))) ∅
    = (Created r, {[Rec.id r := r]}).
Proof.
  split; [reflexivity|].
  eexists. unfold V1.post_strings.
  change (trim (js "constructor")) with (js "constructor").
  rewrite length_zero_eqb. cbn [js]. simpl list_ascii_of_string. cbn [map].
  unfold store_has. rewrite lookup_empty.
  unfold analyzeString at 1. cbn [Rec.id].
  rewrite sha256_hex_not_inherited. reflexivity.
Qed.

End CreateTwice.

(** ** Numbers as filter values *)

Lemma digits_value_acc u acc :
  digits_value (Z.pos acc) (uint_units u) = Z.pos (Pos.of_uint_acc u acc).
Proof.
  revert acc. induction u; intros acc; simpl; try reflexivity;
    rewrite <- IHu; f_equal; lia.
Qed.

Lemma digits_value_uint u :
  digits_value 0 (uint_units u) = Z.of_N (Pos.of_uint u).
Proof.
  induction u; simpl; try reflexivity; try exact IHu;
    rewrite <- digits_value_acc; reflexivity.
Qed.

Lemma parseInt_uint u :
  u <> Decimal.Nil ->
  parseInt_string (uint_units u) = Some (Z.of_N (Pos.of_uint u)) /\
  parseInt_string (45 :: uint_units u) = Some (- Z.of_N (Pos.of_uint u)).
Proof.
  intros Hu. pose proof (digits_value_uint u) as Hd.
  destruct u; [congruence|..]; unfold parseInt_string;
    cbn [uint_units] in *;
    (split; cbn -[digits_value Z.mul Z.of_N Pos.of_uint]; rewrite Hd; f_equal; lia).
Qed.

Lemma round_to_double_small (n : Z) :
  0 <= n <= 2 ^ 53 -> round_to_double n = n.
Proof.
  intros Hn. unfold round_to_double.
  destruct (Z.eq_dec n (2 ^ 53)) as [->|Hne].
  - vm_compute. reflexivity.
  - assert (Hl : Z.log2 n < 53).
    { destruct (Z.eq_dec n 0) as [->|H0]; [simpl; lia|].
      apply Z.log2_lt_pow2; lia. }
    destruct (Z.leb_spec (Z.log2 n - 52) 0); [reflexivity|lia].
Qed.

Lemma round_to_double_nonneg (n : Z) : 0 <= n -> 0 <= round_to_double n.
Proof.
  intros Hn. unfold round_to_double.
  destruct (Z.leb_spec (Z.log2 n - 52) 0) as [|He]; [exact Hn|].
  set (e := Z.log2 n - 52) in *.
  assert (Hp : 0 < 2 ^ e) by (apply Z.pow_pos_nonneg; lia).
  assert (Hq : 0 <= n / 2 ^ e) by (apply Z.div_pos; lia).
  repeat match goal with |- context [if ?b then _ else _] => destruct b end; nia.
Qed.

Lemma round_to_double_large (n : Z) :
  2 ^ 53 <= n -> 2 ^ 53 <= round_to_double n.
Proof.
  intros Hn. unfold round_to_double.
  assert (H0 : 0 < n) by lia.
  pose proof (Z.log2_spec n H0) as [Hlo Hhi].
  assert (Hl : 53 <= Z.log2 n).
  { apply Z.log2_le_pow2; lia. }
  destruct (Z.leb_spec (Z.log2 n - 52) 0) as [|He]; [lia|].
  set (e := Z.log2 n - 52) in *.
  assert (Hp : 0 < 2 ^ e) by (apply Z.pow_pos_nonneg; lia).
  assert (Hsplit : 2 ^ Z.log2 n = 2 ^ 52 * 2 ^ e).
  { rewrite <- Z.pow_add_r by lia. f_equal. unfold e. lia. }
  assert (Hq : 2 ^ 52 <= n / 2 ^ e).
  { apply Z.div_le_lower_bound; [lia|]. rewrite Z.mul_comm. lia. }
  assert (H2 : 2 <= 2 ^ e).
  { change 2 with (2 ^ 1) at 1. apply Z.pow_le_mono_r; lia. }
  assert (Hgoal : forall q', n / 2 ^ e <= q' -> 2 ^ 53 <= q' * 2 ^ e).
  { intros q' Hq'. change (2 ^ 53) with (2 ^ 52 * 2).
    apply Z.mul_le_mono_nonneg; lia. }
  repeat match goal with |- context [if ?b then _ else _] => destruct b end;
    apply Hgoal; lia.
Qed.

(** Every integer up to 2^53 in magnitude is a number of its own. *)
Lemma Number_of_exact (z : Z) :
  - 2 ^ 53 <= z <= 2 ^ 53 -> Number_of z = VNum z.
Proof.
  intros Hz. unfold Number_of.
  rewrite round_to_double_small by lia.
  destruct (Z.leb_spec (2 ^ 1024) (Z.abs z)) as [Hbig|_].
  - exfalso. assert (2 ^ 53 < 2 ^ 1024) by (apply Z.pow_lt_mono_r; lia). lia.
  - f_equal. destruct z; simpl; reflexivity.
Qed.

Lemma Number_of_safe (z : Z) : safe_integer z -> Number_of z = VNum z.
Proof.
  intros Hz. apply Number_of_exact. unfold safe_integer in Hz.
  change (2 ^ 53) with 9007199254740992. lia.
Qed.

Lemma Number_of_large (v m : Z) :
  2 ^ 53 <= v -> Number_of v = VNum m -> 2 ^ 53 <= m.
Proof.
  intros Hv. unfold Number_of.
  destruct (2 ^ 1024 <=? _); [discriminate|]. intros [= <-].
  rewrite Z.abs_eq by lia.
  pose proof (round_to_double_large v Hv).
  rewrite Z.sgn_pos by lia. lia.
Qed.

Lemma Number_of_large_negative (v m : Z) :
  v <= - 2 ^ 53 -> Number_of v = VNum m -> m <= - 2 ^ 53.
Proof.
  intros Hv. unfold Number_of.
  destruct (2 ^ 1024 <=? _); [discriminate|]. intros [= <-].
  pose proof (round_to_double_large (Z.abs v) ltac:(lia)).
  rewrite Z.sgn_neg by lia. lia.
Qed.

Lemma Number_of_nonneg (v m : Z) :
  0 <= v -> Number_of v = VNum m -> 0 <= m.
Proof.
  intros Hv. unfold Number_of.
  destruct (2 ^ 1024 <=? _); [discriminate|]. intros [= <-].
  rewrite Z.abs_eq by lia.
  pose proof (round_to_double_nonneg v Hv).
  destruct (Z.eq_dec v 0) as [->|]; [simpl; lia|].
  rewrite Z.sgn_pos by lia. lia.
Qed.

Lemma Number_of_sign (v : Z) (negative : bool) :
  Number_of v = VInfinity negative -> negative = (v <? 0).
Proof.
  unfold Number_of. destruct (2 ^ 1024 <=? _); [|discriminate].
  now intros [= <-].
Qed.

Lemma Number_of_number (v : Z) :
  (exists m, Number_of v = VNum m) \/ Number_of v = VInfinity (v <? 0).
Proof.
  unfold Number_of. destruct (2 ^ 1024 <=? _); [now right|left; eauto].
Qed.

(** What the engine compares with a length or a word count is the integer
    [parseInt] read; the source compares with its double.  For a length the
    two comparisons agree. *)
Lemma compare_as_double (n len : Z) :
  safe_integer len ->
  match Number_of n with
  | VNum m =>
      (n <=? len) = (m <=? len) /\ (len <=? n) = (len <=? m)
      /\ (len =? n) = (len =? m)
  | VInfinity negative =>
      (n <=? len) = negative /\ (len <=? n) = negb negative
      /\ (len =? n) = false
  | _ => False
  end.
Proof.
  intros Hlen. unfold safe_integer in Hlen.
  assert (E53 : 2 ^ 53 = 9007199254740992) by reflexivity.
  destruct (Z.le_gt_cases (2 ^ 53) n) as [Hbig|Hn].
  - destruct (Number_of_number n) as [[m E]| E]; rewrite E.
    + pose proof (Number_of_large n m Hbig E). lia.
    + replace (n <? 0) with false by lia. simpl. lia.
  - destruct (Z.le_gt_cases n (- 2 ^ 53)) as [Hneg|Hn'].
    + destruct (Number_of_number n) as [[m E]| E]; rewrite E.
      * pose proof (Number_of_large_negative n m Hneg E). lia.
      * replace (n <? 0) with true by lia. simpl. lia.
    + rewrite Number_of_exact by lia. lia.
Qed.

(** Below 2^53 the only numeral that reads back as [x] is [x]. *)
Lemma reads_back_small (x v : Z) :
  0 <= x < 2 ^ 53 -> reads_back x v = true -> v = x.
Proof.
  intros Hx. unfold reads_back. intros Hr.
  apply andb_true_iff in Hr as [Hv Hr]. apply Z.ltb_lt in Hv.
  destruct (Number_of v) as [|m| | |] eqn:E; try discriminate.
  apply Z.eqb_eq in Hr. subst m.
  destruct (Z.le_gt_cases (2 ^ 53) v) as [Hbig|Hsmall].
  - pose proof (Number_of_large v x Hbig E). lia.
  - rewrite Number_of_exact in E by lia. congruence.
Qed.

Lemma shortest_from_small (j : nat) (x : Z) :
  0 <= x < 2 ^ 53 -> shortest_from j x = x.
Proof.
  intros Hx. induction j as [|j IH]; cbn [shortest_from]; cbv zeta;
    repeat match goal with
      | |- context [if reads_back x ?v then _ else _] =>
          destruct (reads_back x v) eqn:?
      | |- context [if ?b then _ else _] => destruct b
      end;
    try reflexivity; try exact IH;
    match goal with
    | Hr : reads_back x ?v = true |- _ => exact (reads_back_small x v Hx Hr)
    end.
Qed.

(** An integer a number holds exactly prints as its decimal numeral. *)
Lemma Number_toString_safe (n : Z) :
  safe_integer n -> Number_toString n = decimal n.
Proof.
  intros Hn. unfold safe_integer in Hn. unfold Number_toString, shortest.
  assert (E53 : 2 ^ 53 = 9007199254740992) by reflexivity.
  rewrite shortest_from_small by lia.
  replace (Z.abs n <? 10 ^ 21) with true
    by (symmetry; apply Z.ltb_lt; change (10 ^ 21) with 1000000000000000000000; lia).
  destruct n as [|p|p]; reflexivity.
Qed.

Lemma parseInt_decimal (n : Z) : parseInt_string (decimal n) = Some n.
Proof.
  unfold decimal. destruct n as [|p|p]; simpl Z.to_int.
  - reflexivity.
  - destruct (parseInt_uint (Pos.to_uint p)) as [-> _].
    + apply DecimalPos.Unsigned.to_uint_nonnil.
    + now rewrite DecimalPos.Unsigned.of_to.
  - destruct (parseInt_uint (Pos.to_uint p)) as [_ ->].
    + apply DecimalPos.Unsigned.to_uint_nonnil.
    + now rewrite DecimalPos.Unsigned.of_to.
Qed.

Lemma parseInt_VNum (n : Z) : safe_integer n -> parseInt (VNum n) = Some n.
Proof.
  intros Hn. unfold parseInt, ToString.
  rewrite Number_toString_safe by exact Hn. apply parseInt_decimal.
Qed.

(** ** C8 and C9: the filter engine *)

Section FilterSpec.
Context `{CaseMapping}.

Lemma filter_filter {A} (f g : A -> bool) (l : list A) :
  List.filter g (List.filter f l) = List.filter (fun x => f x && g x) l.
Proof.
  induction l as [|x l IH]; simpl; [reflexivity|].
  destruct (f x); simpl; [destruct (g x)|]; now rewrite IH.
Qed.

Lemma filter_true {A} (l : list A) : List.filter (fun _ => true) l = l.
Proof. induction l as [|x l IH]; simpl; now rewrite ?IH. Qed.

Lemma is_true_text (b : bool) :
  jsstring_eqb (toLowerCase (ToString (VBool b))) (js "true") = b.
Proof.
  destruct b; simpl ToString; rewrite toLowerCase_ascii by reflexivity;
    reflexivity.
Qed.

Lemma applyFilters_filter (data : list Rec.t) (fs : FilterSet.t) :
  safe_filter_set fs ->
  applyFilters data (filters_of fs) = List.filter (satisfies fs) data.
Proof.
  destruct fs as [ip mn mx wc cc]. intros (Hmn & Hmx & Hwc).
  unfold applyFilters, filters_of, satisfies.
  cbn [Filters.is_palindrome Filters.min_length Filters.max_length
       Filters.word_count Filters.contains_character
       FilterSet.is_palindrome FilterSet.min_length FilterSet.max_length
       FilterSet.word_count FilterSet.contains_character] in *.
  rewrite <- !filter_filter.
  destruct ip as [b|]; cbn [fmap option_fmap option_map];
    [rewrite is_true_text | rewrite filter_true];
  (destruct mn as [n1|]; cbn [fmap option_fmap option_map];
    [rewrite (parseInt_VNum n1) by (now apply Hmn) | rewrite filter_true]);
  (destruct mx as [n2|]; cbn [fmap option_fmap option_map];
    [rewrite (parseInt_VNum n2) by (now apply Hmx) | rewrite filter_true]);
  (destruct wc as [n3|]; cbn [fmap option_fmap option_map];
    [rewrite (parseInt_VNum n3) by (now apply Hwc) | rewrite filter_true]);
  (destruct cc as [[c|hi lo]|]; cbn [fmap option_fmap option_map];
    [| | rewrite filter_true]); reflexivity.
Qed.

(** The contract of the filter engine, on the typed filter sets (a boolean,
    integers, one character) whose integers a number holds exactly: the
    engine returns the records that satisfy every filter present, in the
    order of the input: the result is the input filtered by the
    conjunction, it is a subsequence of the input, and a record is in it
    exactly when it is in the input and satisfies the set.  A filter that
    is absent does not occur in the conjunction. *)
Theorem applyFilters_spec (data : list Rec.t) (fs : FilterSet.t) :
  safe_filter_set fs ->
  applyFilters data (filters_of fs) = List.filter (satisfies fs) data /\
  sublist (applyFilters data (filters_of fs)) data /\
  (forall item, In item (applyFilters data (filters_of fs))
                <-> In item data /\ satisfies fs item = true).
Proof.
  intros Hfs. rewrite applyFilters_filter by exact Hfs.
  split; [reflexivity|]. split.
  - induction data as [|x l IH]; simpl; [constructor|].
    destruct (satisfies fs x); now constructor.
  - intros item. apply filter_In.
Qed.

(** C9.  A numeric filter that is present with a value [parseInt] reads as
    NaN is skipped: the result is the one the engine gives when that filter
    is absent. *)
Theorem applyFilters_skips_unparsable (data : list Rec.t) (f : Filters.t) (v : jsval) :
  parseInt v = None ->
  (Filters.min_length f = Some v ->
   applyFilters data f
   = applyFilters data
       (Filters.mk (Filters.is_palindrome f) None (Filters.max_length f)
          (Filters.word_count f) (Filters.contains_character f))) /\
  (Filters.max_length f = Some v ->
   applyFilters data f
   = applyFilters data
       (Filters.mk (Filters.is_palindrome f) (Filters.min_length f) None
          (Filters.word_count f) (Filters.contains_character f))) /\
  (Filters.word_count f = Some v ->
   applyFilters data f
   = applyFilters data
       (Filters.mk (Filters.is_palindrome f) (Filters.min_length f)
          (Filters.max_length f) None (Filters.contains_character f))).
Proof.
  intros Hv. destruct f as [ip mn mx wc cc]. unfold applyFilters.
  cbn [Filters.is_palindrome Filters.min_length Filters.max_length
       Filters.word_count Filters.contains_character].
  repeat split; intros ->; rewrite Hv; reflexivity.
Qed.

End FilterSpec.

Lemma applyFilters_skips_unparsable_witness :
  let f := Filters.mk None (Some (VStr (js "abc"))) None None None in
  let data := [analyzeString (js "2025-01-01T00:00:00.000Z") (js "racecar")] in
  parseInt (VStr (js "abc")) = None /\
  applyFilters data f = applyFilters data Filters.empty.
Proof.
  cbn zeta. split; [reflexivity|].
  exact (proj1 (applyFilters_skips_unparsable
                  [analyzeString (js "2025-01-01T00:00:00.000Z") (js "racecar")]
                  (Filters.mk None (Some (VStr (js "abc"))) None None None)
                  (VStr (js "abc")) eq_refl) eq_refl).
Defined.

Lemma applyFilters_spec_witness :
  let hello := analyzeString (js "2025-01-01T00:00:00.000Z") (js "hello") in
  let two := analyzeString (js "2025-01-01T00:00:00.000Z") (js "hello there") in
  let fs := FilterSet.mk None (Some 3) None (Some 1) None in
  safe_filter_set fs /\
  applyFilters [two; hello] (filters_of fs) = List.filter (satisfies fs) [two; hello] /\
  sublist (applyFilters [two; hello] (filters_of fs)) [two; hello] /\
  (forall item, In item (applyFilters [two; hello] (filters_of fs))
                <-> In item [two; hello] /\ satisfies fs item = true).
Proof.
  cbn zeta.
  assert (Hs : safe_filter_set (FilterSet.mk None (Some 3) None (Some 1) None)).
  { repeat split; simpl in *; try congruence;
      match goal with H : Some _ = Some _ |- _ => injection H as <- end; lia. }
  split; [exact Hs|].
  exact (applyFilters_spec _ (FilterSet.mk None (Some 3) None (Some 1) None) Hs).
Defined.

(** C8.  The filter engine on a length from 10^21 on.  The number 10^21
    prints as [1e+21], so the engine, which reads a filter value through
    [parseInt], takes the filter [min_length = 10^21] for 1 and keeps every
    record of length at least 1, where the filter set asks for the records
    of length at least 10^21: none.  Both interpreters build this filter
    object for [strings longer than 999999999999999999999], and the
    natural-language route of the second variant then answers with every
    record.  The list route, which hands the engine the same integer as a
    string of digits, answers with none. *)
Theorem applyFilters_exponent_notation :
  let now := js "2025-01-01T00:00:00.000Z" in
  let data := [analyzeString now (js "level"); analyzeString now (js "hi")] in
  let fs := FilterSet.mk None (Some (10 ^ 21)) None None None in
  let query := js "strings longer than 999999999999999999999" in
  V2.parseNaturalLanguage query = Parsed (filters_of fs) /\
  V1.parseNaturalLanguage query = Parsed (filters_of fs) /\
  ToString (VNum (10 ^ 21)) = js "1e+21" /\
  parseInt (VNum (10 ^ 21)) = Some 1 /\
  applyFilters data (filters_of fs) = data /\
  List.filter (satisfies fs) data = [] /\
  V2_filter_by_natural_language data (Some query)
  = NLOk data 2 query (filters_of fs) /\
  get_strings data
    (Filters.mk None (Some (VStr (js "1000000000000000000000"))) None None None)
  = ListOk [] 0
      (Filters.mk None (Some (VStr (js "1000000000000000000000"))) None None None).
Proof.
  cbn zeta. split; [vm_compute; reflexivity|]. split; [vm_compute; reflexivity|].
  split; [vm_compute; reflexivity|]. split; [vm_compute; reflexivity|].
  split; [vm_compute; reflexivity|]. split; [vm_compute; reflexivity|].
  split; vm_compute; reflexivity.
Qed.

(** A run of digits too large for a number is [Infinity], which the engine
    reads as NaN: the filter is skipped. *)
Example infinite_length_example :
  let now := js "2025-01-01T00:00:00.000Z" in
  let data := [analyzeString now (js "level"); analyzeString now (js "hi")] in
  let query := js "longer than 1" ++ repeat 48 309 in
  let filters := Filters.mk None (Some (VInfinity false)) None None None in
  V2.parseNaturalLanguage query = Parsed filters /\
  parseInt (VInfinity false) = None /\
  applyFilters data filters = data.
Proof. cbn zeta. repeat split; vm_compute; reflexivity. Qed.

(** The numbers of the engine and of the interpreters on known values. *)
Example number_examples :
  ToString (VNum 18446744073709551616) = js "18446744073709552000" /\
  ToString (VNum (- 42)) = js "-42" /\
  Number_of 9007199254740993 = VNum 9007199254740992 /\
  Number_of (10 ^ 23) = VNum 99999999999999991611392 /\
  ToString (Number_of (10 ^ 23)) = js "1e+23" /\
  ToString (Number_of 123456789012345678901234567890)
  = js "1.2345678901234568e+29" /\
  num_plus (Some 18014398509481984) 1 = VNum 18014398509481984 /\
  num_plus (Some 18014398509481984) (-1) = VNum 18014398509481984.
Proof. repeat split; vm_compute; reflexivity. Qed.

(** ** The matcher *)

Lemma before_after_cons prev c pre :
  before_after prev (c :: pre) = before_after (Some c) pre.
Proof.
  unfold before_after. simpl. destruct (rev pre) as [|d w] eqn:E; reflexivity.
Qed.

Lemma before_after_app prev pre c :
  before_after prev (pre ++ [c]) = Some c.
Proof. unfold before_after. now rewrite rev_app_distr. Qed.

Lemma eat_app l prev r :
  eat l prev (l ++ r) = Some (before_after prev l, r).
Proof.
  revert prev. induction l as [|c l IH]; intros prev; [reflexivity|].
  simpl. rewrite Z.eqb_refl, IH. now rewrite before_after_cons.
Qed.

(** A greedy star reads the whole run; when the continuation accepts what
    follows, that is the result. *)
Lemma star_greedy p k prev ws r cs res :
  forallb p ws = true ->
  k (MState (before_after prev ws) r cs) = Some res ->
  head_outside p r ->
  star p k prev (ws ++ r) cs = Some res.
Proof.
  revert prev. induction ws as [|c ws IH]; intros prev Hws Hk Hr.
  - simpl in *. destruct r as [|d r]; simpl; [exact Hk|].
    simpl in Hr. now rewrite Hr.
  - simpl in Hws. apply andb_prop in Hws as [Hc Hws]. simpl. rewrite Hc.
    rewrite before_after_cons in Hk. now rewrite (IH (Some c) Hws Hk Hr).
Qed.

(** A search finds a match when an attempt succeeds somewhere. *)
Lemma search_from_finds re prev pre r :
  is_Some (attempt re (before_after prev pre) r) ->
  is_Some (search_from re prev (pre ++ r)).
Proof.
  revert prev. induction pre as [|c pre IH]; intros prev Hm.
  - simpl app. change (before_after prev []) with prev in Hm.
    destruct Hm as [res Hm]. destruct r; cbn [search_from]; rewrite Hm; eauto.
  - rewrite before_after_cons in Hm. cbn [app search_from].
    destruct (attempt re prev (c :: pre ++ r)); [eauto|]. now apply IH.
Qed.

(** A search returns the attempt at the leftmost position where one
    succeeds. *)
Lemma search_from_leftmost re prev pre r res :
  no_match_before re prev (pre ++ r) (length pre) ->
  attempt re (before_after prev pre) r = Some res ->
  search_from re prev (pre ++ r) = Some res.
Proof.
  revert prev. induction pre as [|c pre IH]; intros prev Hno Hm.
  - simpl app. change (before_after prev []) with prev in Hm.
    destruct r; cbn [search_from]; now rewrite Hm.
  - rewrite before_after_cons in Hm.
    assert (H0 : attempt re prev (c :: pre ++ r) = None)
      by (apply (Hno [] (c :: pre ++ r) eq_refl); simpl; lia).
    cbn [app search_from]. rewrite H0.
    apply IH; [|exact Hm].
    intros pre' r' E Hlen. rewrite <- (before_after_cons prev).
    apply Hno; [simpl; now f_equal | simpl; lia].
Qed.

(** Whatever a search returns is what an attempt at some position
    returns. *)
Lemma search_from_attempt re prev s res :
  search_from re prev s = Some res ->
  exists pre r, s = pre ++ r /\ attempt re (before_after prev pre) r = Some res.
Proof.
  revert prev. induction s as [|c s IH]; intros prev; cbn [search_from].
  - destruct (attempt re prev []) eqn:E; [|discriminate].
    intros [= <-]. now exists [], [].
  - destruct (attempt re prev (c :: s)) eqn:E.
    + intros [= <-]. now exists [], (c :: s).
    + intros Hs. destruct (IH _ Hs) as (pre & r & -> & Hm).
      exists (c :: pre), r. split; [reflexivity|]. now rewrite before_after_cons.
Qed.

(** A successful run ends in a call of its continuation. *)
Lemma star_continues p k prev r cs res :
  star p k prev r cs = Some res -> exists s', k s' = Some res.
Proof.
  revert prev. induction r as [|c r IH]; intros prev; simpl; [eauto|].
  destruct (p c); [|eauto].
  destruct (star p k (Some c) r cs) eqn:E; [|eauto].
  intros [= <-]. eapply IH, E.
Qed.

Lemma run_continues re : forall k s res,
  run re k s = Some res -> exists s', k s' = Some res.
Proof.
  induction re as [|l|p|a IHa b IHb|a IHa b IHb|p|i a IHa|]; intros k s res; simpl.
  - eauto.
  - destruct (eat l (before s) (rest s)) as [[p r]|]; [eauto|discriminate].
  - destruct (rest s) as [|c r]; [discriminate|]. destruct (p c); [eauto|discriminate].
  - intros Ha. destruct (IHa _ _ _ Ha) as [s1 H1]. eapply IHb, H1.
  - destruct (run a k s) eqn:E; [intros [= <-]; eapply IHa, E | apply IHb].
  - apply star_continues.
  - intros Ha. destruct (IHa _ _ _ Ha) as [s1 H1]. eauto.
  - destruct (xorb _ _); [eauto|discriminate].
Qed.

Lemma run_seq_continues a b k s res :
  run (a +> b)%re k s = Some res -> exists s', run b k s' = Some res.
Proof. apply (run_continues a). Qed.

Lemma run_Lit_app l k prev r cs res :
  k (MState (before_after prev l) r cs) = Some res ->
  run (Lit l) k (MState prev (l ++ r) cs) = Some res.
Proof. intros Hk. cbn [run before rest caps]. now rewrite eat_app. Qed.

Lemma run_Star_app p k prev ws r cs res :
  forallb p ws = true -> head_outside p r ->
  k (MState (before_after prev ws) r cs) = Some res ->
  run (Star p) k (MState prev (ws ++ r) cs) = Some res.
Proof. intros Hws Hr Hk. cbn [run before rest caps]. now apply star_greedy. Qed.

Lemma run_Plus_app p k prev ws r cs res :
  ws <> [] -> forallb p ws = true -> head_outside p r ->
  k (MState (before_after prev ws) r cs) = Some res ->
  run (Plus p) k (MState prev (ws ++ r) cs) = Some res.
Proof.
  intros Hne Hws Hr Hk. destruct ws as [|c ws]; [congruence|].
  simpl in Hws. apply andb_prop in Hws as [Hc Hws].
  unfold Plus. cbn [run before rest caps app]. rewrite Hc.
  rewrite before_after_cons in Hk. now apply star_greedy.
Qed.

Lemma run_WordB_ok k s res :
  xorb (is_word_at (before s)) (is_word_at (head (rest s))) = true ->
  k s = Some res -> run WordB k s = Some res.
Proof. intros Hb Hk. cbn [run]. now rewrite Hb. Qed.

Lemma run_Alt_l a b k s res :
  run a k s = Some res -> run (a <|> b)%re k s = Some res.
Proof. intros Ha. cbn [run]. now rewrite Ha. Qed.

Lemma run_Alt_r a b k s res :
  run a k s = None -> run b k s = Some res -> run (a <|> b)%re k s = Some res.
Proof. intros Ha Hb. cbn [run]. now rewrite Ha. Qed.

Lemma run_Seq_eq a b k s : run (a +> b)%re k s = run a (run b k) s.
Proof. reflexivity. Qed.

Lemma run_Group_eq i a k s :
  run (Group i a) k s
  = run a (fun s' =>
      k (MState (before s') (rest s')
           ((i, firstn (length (rest s) - length (rest s')) (rest s)) :: caps s')))
      s.
Proof. reflexivity. Qed.

Lemma lower_alnum_not_space c : is_lower_alnum c = true -> is_space c = false.
Proof.
  unfold is_lower_alnum, is_lower_az, is_digit, is_space, in_range. lia.
Qed.

Lemma lower_alnum_word c : is_lower_alnum c = true -> is_word c = true.
Proof.
  unfold is_lower_alnum, is_word. destruct (is_lower_az c), (is_digit c);
    simpl; try reflexivity; try discriminate. now rewrite orb_true_r.
Qed.

(** *** The single-word rule of the second variant *)

Lemma attempt_single_word prev kw ws post :
  kw = js "single" \/ kw = js "one" ->
  ws <> [] -> forallb is_space ws = true ->
  is_word_at prev = false -> is_word_at (head post) = false ->
  is_Some (attempt V2.re_single_word prev (kw ++ ws ++ js "word" ++ post)).
Proof.
  intros Hkw Hne Hws Hprev Hpost.
  assert (Htail : forall p cs,
    run (Plus is_space +> Lit (js "word") +> WordB)%re Some
        (MState p (ws ++ js "word" ++ post) cs)
    = Some (MState (Some 100) post cs)).
  { intros p cs. rewrite run_Seq_eq. apply run_Plus_app; [exact Hne|exact Hws|reflexivity|].
    rewrite run_Seq_eq. apply run_Lit_app. apply run_WordB_ok; [|reflexivity].
    cbn [before rest]. rewrite Hpost. reflexivity. }
  unfold attempt, V2.re_single_word.
  destruct Hkw as [-> | ->]; eexists; rewrite run_Seq_eq;
    (apply run_WordB_ok; [cbn [before rest]; rewrite Hprev; reflexivity|]);
    rewrite run_Seq_eq, run_Group_eq.
  - apply run_Alt_l. apply run_Lit_app. cbn [before rest caps]. apply Htail.
  - apply run_Alt_r; [reflexivity|]. apply run_Lit_app. cbn [before rest caps]. apply Htail.
Qed.

Lemma startsWith_app s t : startsWith (s ++ t) s = true.
Proof.
  induction s as [|c s IH]; [now destruct t|].
  simpl. now rewrite Z.eqb_refl, IH.
Qed.

Lemma includes_app pre sub post : includes (pre ++ sub ++ post) sub = true.
Proof.
  induction pre as [|c pre IH].
  - simpl app. pose proof (startsWith_app sub post) as Hs.
    destruct (sub ++ post); cbn [includes]; now rewrite Hs.
  - cbn [app includes]. rewrite IH. apply orb_true_r.
Qed.

Lemma rules_word_count q :
  Filters.word_count (V2.rules q)
  = if test V2.re_single_word q then Some (VNum 1) else None.
Proof.
  unfold V2.rules.
  destruct (test V2.re_palindrome q), (test V2.re_single_word q),
    (exec V2.re_contains q), (test V2.re_first_vowel q), (exec V2.re_longer q),
    (exec V2.re_shorter q), (exec V2.re_exactly q); reflexivity.
Qed.

Lemma rules_contains_character q :
  Filters.contains_character (V2.rules q)
  = if test V2.re_first_vowel q then Some (VStr (js "a"))
    else match exec V2.re_contains q with
         | Some m => Some (VStr (default [] (group 1 m)))
         | None => None
         end.
Proof.
  unfold V2.rules.
  destruct (test V2.re_palindrome q), (test V2.re_single_word q),
    (exec V2.re_contains q), (test V2.re_first_vowel q), (exec V2.re_longer q),
    (exec V2.re_shorter q), (exec V2.re_exactly q); reflexivity.
Qed.

Lemma V2_parsed_rules `{CaseMapping} queryRaw f :
  V2.parseNaturalLanguage queryRaw = Parsed f ->
  V2.normalize queryRaw <> [] ->
  f = V2.rules (V2.normalize queryRaw).
Proof.
  unfold V2.parseNaturalLanguage. destruct (V2.normalize queryRaw); [congruence|].
  destruct (Filters.conflicting _); [discriminate|]. now intros [= <-].
Qed.

Lemma app_nonempty_l (a b : jsstring) : a <> [] -> a ++ b <> [].
Proof. destruct a; [congruence|discriminate]. Qed.

Section WordRule.
Context `{CaseMapping}.

(** The second variant: a query whose normalized text holds [single] or
    [one], white space and [word], as whole words, gets [word_count = 1] in
    the filter set the interpreter returns. *)
Lemma V2_single_word_rule (queryRaw pre kw ws post : jsstring) (f : Filters.t) :
  V2.normalize queryRaw = pre ++ kw ++ ws ++ js "word" ++ post ->
  kw = js "single" \/ kw = js "one" ->
  ws <> [] -> forallb is_space ws = true ->
  is_word_at (before_after None pre) = false ->
  is_word_at (head post) = false ->
  V2.parseNaturalLanguage queryRaw = Parsed f ->
  Filters.word_count f = Some (VNum 1).
Proof.
  intros Hq Hkw Hne Hws Hpre Hpost Hf.
  apply V2_parsed_rules in Hf.
  2:{ rewrite Hq. intros E. apply app_eq_nil in E as [_ E].
      apply app_eq_nil in E as [E _]. destruct Hkw; subst kw; discriminate. }
  subst f. rewrite rules_word_count, Hq. unfold test, exec.
  destruct (search_from_finds V2.re_single_word None pre
              (kw ++ ws ++ js "word" ++ post)) as [m ->]; [|reflexivity].
  now apply attempt_single_word.
Qed.

(** The first variant: a query whose lower-cased text holds
    [single word] gets [word_count = 1]. *)
Lemma V1_single_word_rule (query : jsstring) :
  includes (toLowerCase query) (js "single word") = true ->
  Filters.word_count (V1.extract query) = Some (VNum 1).
Proof.
  intros Hq. unfold V1.extract. rewrite Hq.
  destruct (includes _ (js "palindrome") || includes _ (js "palindromic")),
    (exec V1.re_contains _) as [m|], (exec V1.re_length _) as [m'|];
    repeat match goal with
    | |- context [match ?x with _ => _ end] => destruct x
    end; reflexivity.
Qed.

(** The conflict check of the first variant is never taken: its one length
    rule sets [min_length] or [max_length], never both. *)
Lemma V1_never_conflict (query : jsstring) :
  V1.parseNaturalLanguage query = Parsed (V1.extract query).
Proof.
  unfold V1.parseNaturalLanguage.
  assert (Filters.conflicting (V1.extract query) = false) as ->; [|reflexivity].
  unfold V1.extract.
  destruct (includes _ (js "palindrome") || includes _ (js "palindromic")),
    (includes _ (js "single word")),
    (exec V1.re_contains _) as [m|], (exec V1.re_length _) as [m'|];
    repeat match goal with
    | |- context [match ?x with _ => _ end] => destruct x
    end; reflexivity.
Qed.

(** C7 at the query [one word strings].  The first variant only looks for
    [single word] and returns the empty filter set; the second variant
    gives [word_count = 1]. *)
Theorem one_word_query :
  V1.parseNaturalLanguage (js "one word strings") = Parsed Filters.empty /\
  V2.parseNaturalLanguage (js "one word strings")
  = Parsed (Filters.mk None None None (Some (VNum 1)) None).
Proof.
  unfold V1.parseNaturalLanguage, V1.extract, V2.parseNaturalLanguage, V2.normalize.
  rewrite toLowerCase_ascii by reflexivity. split; vm_compute; reflexivity.
Qed.

(** C2 at the query of the claim.  The first variant takes the first match
    of its one length rule and returns [min_length = 21] alone; the second
    variant matches both rules and returns the conflict. *)
Theorem conflict_query :
  V1.parseNaturalLanguage (js "strings longer than 20 but shorter than 5")
  = Parsed (Filters.mk None (Some (VNum 21)) None None None) /\
  V2.parseNaturalLanguage (js "strings longer than 20 but shorter than 5")
  = ParseConflict.
Proof.
  unfold V1.parseNaturalLanguage, V1.extract, V2.parseNaturalLanguage, V2.normalize.
  rewrite toLowerCase_ascii by reflexivity. split; vm_compute; reflexivity.
Qed.

(** The second variant answers with the conflict whenever its rules leave a
    [min_length] above the [max_length]. *)
Lemma V2_conflict_rule (queryRaw : jsstring) (a b : Z) :
  V2.normalize queryRaw <> [] ->
  Filters.min_length (V2.rules (V2.normalize queryRaw)) = Some (VNum a) ->
  Filters.max_length (V2.rules (V2.normalize queryRaw)) = Some (VNum b) ->
  b < a ->
  V2.parseNaturalLanguage queryRaw = ParseConflict.
Proof.
  intros Hq Ha Hb Hab. unfold V2.parseNaturalLanguage.
  destruct (V2.normalize queryRaw) as [|c q] eqn:E; [congruence|].
  unfold Filters.conflicting. rewrite Ha, Hb. simpl.
  destruct (b <? a) eqn:Hlt; [reflexivity|lia].
Qed.

(** The second variant never returns a filter set whose [min_length] is
    above its [max_length]. *)
Lemma V2_no_conflicting_set (queryRaw : jsstring) (f : Filters.t) (a b : Z) :
  V2.parseNaturalLanguage queryRaw = Parsed f ->
  Filters.min_length f = Some (VNum a) ->
  Filters.max_length f = Some (VNum b) ->
  a <= b.
Proof.
  unfold V2.parseNaturalLanguage. destruct (V2.normalize queryRaw).
  - intros [= <-]. discriminate.
  - destruct (Filters.conflicting _) eqn:E; [discriminate|]. intros [= <-].
    unfold Filters.conflicting in E. intros Ha Hb. rewrite Ha, Hb in E.
    simpl in E. lia.
Qed.

End WordRule.

(** *** The contains-character rule of the second variant *)

Lemma firstn_cons_diff (c : Z) (r : jsstring) :
  firstn (length (c :: r) - length r) (c :: r) = [c].
Proof.
  cbn [length]. replace (S (length r) - length r)%nat with 1%nat by lia.
  reflexivity.
Qed.

Lemma attempt_contains prev kw ws1 the noun ws3 x post :
  contains_phrase kw ws1 the noun ws3 ->
  is_lower_alnum x = true ->
  attempt V2.re_contains prev (kw ++ ws1 ++ the ++ noun ++ ws3 ++ x :: post)
  = Some (MState (Some x) post [(1%nat, [x])]).
Proof.
  intros (Hkw & Hne1 & Hws1 & Hthe & Hnoun & Hws3) Hx.
  assert (Hcap : forall p cs,
    run (Star is_space +> Group 1 (Class is_lower_alnum))%re Some
        (MState p (ws3 ++ x :: post) cs)
    = Some (MState (Some x) post ((1%nat, [x]) :: cs))).
  { intros p cs. rewrite run_Seq_eq.
    apply run_Star_app; [exact Hws3 | now apply lower_alnum_not_space |].
    rewrite run_Group_eq. cbn [run rest before caps]. rewrite Hx.
    now rewrite firstn_cons_diff. }
  assert (Hnoun' : forall p cs,
    run ((Lit (js "letter") <|> Lit (js "character"))
         +> Star is_space +> Group 1 (Class is_lower_alnum))%re Some
        (MState p (noun ++ ws3 ++ x :: post) cs)
    = Some (MState (Some x) post ((1%nat, [x]) :: cs))).
  { intros p cs. rewrite run_Seq_eq. destruct Hnoun as [-> | ->].
    - apply run_Alt_l, run_Lit_app, Hcap.
    - apply run_Alt_r; [reflexivity|]. apply run_Lit_app, Hcap. }
  assert (Hthe' : forall p cs,
    run (Opt (Lit (js "the") +> Plus is_space)
         +> (Lit (js "letter") <|> Lit (js "character"))
         +> Star is_space +> Group 1 (Class is_lower_alnum))%re Some
        (MState p (the ++ noun ++ ws3 ++ x :: post) cs)
    = Some (MState (Some x) post ((1%nat, [x]) :: cs))).
  { intros p cs. rewrite run_Seq_eq. unfold Opt.
    destruct Hthe as [-> | (ws2 & -> & Hne2 & Hws2)].
    - apply run_Alt_r; [|apply Hnoun'].
      destruct Hnoun as [-> | ->]; reflexivity.
    - apply run_Alt_l. rewrite run_Seq_eq, <- app_assoc. apply run_Lit_app.
      apply run_Plus_app; [exact Hne2 | exact Hws2 | | apply Hnoun'].
      destruct Hnoun as [-> | ->]; reflexivity. }
  assert (Hws : forall p cs,
    run (Plus is_space
         +> Opt (Lit (js "the") +> Plus is_space)
         +> (Lit (js "letter") <|> Lit (js "character"))
         +> Star is_space +> Group 1 (Class is_lower_alnum))%re Some
        (MState p (ws1 ++ the ++ noun ++ ws3 ++ x :: post) cs)
    = Some (MState (Some x) post ((1%nat, [x]) :: cs))).
  { intros p cs. rewrite run_Seq_eq.
    apply run_Plus_app; [exact Hne1 | exact Hws1 | | apply Hthe'].
    destruct Hthe as [-> | (ws2 & -> & _)]; [|reflexivity].
    destruct Hnoun as [-> | ->]; reflexivity. }
  unfold attempt, V2.re_contains. rewrite run_Seq_eq.
  destruct Hkw as [-> | [-> | [-> | ->]]].
  - apply run_Alt_l, run_Lit_app, Hws.
  - apply run_Alt_r; [reflexivity|]. apply run_Alt_l, run_Lit_app, Hws.
  - apply run_Alt_r; [reflexivity|]. apply run_Alt_r; [reflexivity|].
    apply run_Alt_l, run_Lit_app, Hws.
  - apply run_Alt_r; [reflexivity|]. apply run_Alt_r; [reflexivity|].
    apply run_Alt_r; [reflexivity|]. apply run_Lit_app, Hws.
Qed.

(** Whatever the rule matches, it captures one unit of [[a-z0-9]]. *)
Lemma attempt_contains_capture prev r m :
  attempt V2.re_contains prev r = Some m ->
  exists c, group 1 m = Some [c] /\ is_lower_alnum c = true.
Proof.
  unfold attempt, V2.re_contains. intros Hm.
  do 5 (apply run_seq_continues in Hm as [? Hm]).
  rewrite run_Group_eq in Hm. cbn [run] in Hm.
  match type of Hm with context [rest ?s] => destruct (rest s) as [|c t] eqn:Er end;
    [discriminate|].
  destruct (is_lower_alnum c) eqn:Hc; [|discriminate].
  cbn [before rest caps] in Hm. injection Hm as <-.
  exists c. split; [|exact Hc].
  unfold group. cbn [caps lookup_cap Nat.eqb]. f_equal. apply firstn_cons_diff.
Qed.

Section ContainsRule.
Context `{CaseMapping}.

(** C6, as the second variant has it.  When the normalized text of a query
    holds a phrase of the rule followed by a unit [x] of [[a-z0-9]], a
    filter set the interpreter returns has [contains_character] set to one
    unit of [[a-z0-9]]: to [a] when the text also matches the first-vowel
    rule, which is applied later and overrides; otherwise to the unit the
    leftmost match of the rule captures, which is [x] when no match starts
    before the phrase. *)
Theorem contains_character_rule
    (queryRaw pre kw ws1 the noun ws3 post : jsstring) (x : Z) (f : Filters.t) :
  V2.normalize queryRaw = pre ++ kw ++ ws1 ++ the ++ noun ++ ws3 ++ x :: post ->
  contains_phrase kw ws1 the noun ws3 ->
  is_lower_alnum x = true ->
  V2.parseNaturalLanguage queryRaw = Parsed f ->
  exists c,
    Filters.contains_character f = Some (VStr [c]) /\
    is_lower_alnum c = true /\
    (test V2.re_first_vowel (V2.normalize queryRaw) = true -> c = 97) /\
    (test V2.re_first_vowel (V2.normalize queryRaw) = false ->
     no_match_before V2.re_contains None (V2.normalize queryRaw) (length pre) ->
     c = x).
Proof.
  intros Hq Hph Hx Hf.
  apply V2_parsed_rules in Hf.
  2:{ rewrite Hq. intros E. apply app_eq_nil in E as [_ E].
      apply app_eq_nil in E as [E _].
      destruct Hph as ([-> | [-> | [-> | ->]]] & _); discriminate. }
  subst f. rewrite rules_contains_character.
  destruct (test V2.re_first_vowel (V2.normalize queryRaw)) eqn:Hv.
  - exists 97. repeat split; try reflexivity. discriminate.
  - pose proof (attempt_contains (before_after None pre) kw ws1 the noun ws3 x post
                  Hph Hx) as Hat.
    destruct (search_from_finds V2.re_contains None pre
                (kw ++ ws1 ++ the ++ noun ++ ws3 ++ x :: post)) as [m Hm];
      [rewrite Hat; eauto|].
    unfold exec. rewrite Hq, Hm.
    destruct (search_from_attempt _ _ _ _ Hm) as (pre' & r' & _ & Hm').
    destruct (attempt_contains_capture _ _ _ Hm') as (c & Hc & Hcl).
    exists c. rewrite Hc. repeat split; try reflexivity; try exact Hcl.
    + discriminate.
    + intros _ Hno. rewrite (search_from_leftmost _ _ _ _ _ Hno Hat) in Hm.
      injection Hm as <-. unfold group in Hc. cbn in Hc. congruence.
Qed.

End ContainsRule.

Lemma contains_character_rule_witness :
  let q := js "strings containing the letter z" in
  let f := Filters.mk None None None None (Some (VStr (js "z"))) in
  V2.parseNaturalLanguage q = Parsed f /\
  exists c,
    Filters.contains_character f = Some (VStr [c]) /\
    is_lower_alnum c = true /\
    (test V2.re_first_vowel (V2.normalize q) = true -> c = 97) /\
    (test V2.re_first_vowel (V2.normalize q) = false ->
     no_match_before V2.re_contains None (V2.normalize q) (length (js "strings ")) ->
     c = 122).
Proof.
  cbn zeta. split; [vm_compute; reflexivity|].
  apply (contains_character_rule (js "strings containing the letter z")
           (js "strings ") (js "containing") (js " ") (js "the ") (js "letter")
           (js " ") [] 122).
  - vm_compute. reflexivity.
  - repeat split; auto.
    right. exists (js " "). repeat split; [discriminate].
  - reflexivity.
  - vm_compute. reflexivity.
Defined.

(** C6 as stated fails on a query that also holds [first vowel]: the phrase
    asks for [z], the filter set holds [a]. *)
Lemma first_vowel_overrides :
  let q := js "strings that contains the letter z and the first vowel" in
  includes (V2.normalize q) (js "contains the letter z") = true /\
  V2.parseNaturalLanguage q
  = Parsed (Filters.mk None None None None (Some (VStr (js "a")))).
Proof. cbn zeta. split; vm_compute; reflexivity. Qed.

(** ** The examples of the specification, on Basic Latin input *)

Example palindrome_examples :
  let now := js "2025-01-01T00:00:00.000Z" in
  Props.is_palindrome (Rec.properties (analyzeString now (js "A man a plan a canal Panama"))) = true /\
  Props.is_palindrome (Rec.properties (analyzeString now (js "hello"))) = false /\
  Props.is_palindrome (Rec.properties (analyzeString now (js "!!!"))) = false.
Proof. cbn zeta. repeat split; vm_compute; reflexivity. Qed.

Example word_count_example :
  Props.word_count
    (Rec.properties (analyzeString (js "2025-01-01T00:00:00.000Z")
                       (trim (js "  hello   world  ")))) = 2.
Proof. vm_compute. reflexivity. Qed.

Example filter_composition_example :
  let hello := analyzeString (js "2025-01-01T00:00:00.000Z") (js "hello") in
  applyFilters [hello] (Filters.mk None (Some (VNum 3)) None (Some (VNum 1)) None)
  = [hello] /\
  applyFilters [hello] (Filters.mk None (Some (VNum 6)) None None None) = [].
Proof. cbn zeta. split; vm_compute; reflexivity. Qed.

Example no_match_example :
  V1.parseNaturalLanguage (js "show me everything") = Parsed Filters.empty /\
  V2.parseNaturalLanguage (js "show me everything") = Parsed Filters.empty.
Proof. split; vm_compute; reflexivity. Qed.

Example racecar_example :
  let now := js "2025-01-01T00:00:00.000Z" in
  let r := analyzeString now (js "racecar") in
  V2.post_strings now (Some (VStr (js "racecar"))) ∅
  = (Created r, {[js "racecar" := r]}) /\
  Props.is_palindrome (Rec.properties r) = true /\
  Props.length (Rec.properties r) = 7 /\
  Props.word_count (Rec.properties r) = 1 /\
  applyFilters [r] (Filters.mk (Some (VStr (js "true"))) None None None None) = [r] /\
  V2.delete_string (js "racecar") {[js "racecar" := r]} = (NoContent, ∅) /\
  store_has (∅ : gmap (list Z) Rec.t) (js "racecar") = false.
Proof.
  cbn zeta. repeat split; vm_compute; reflexivity.
Qed.

(** The first variant reads group 1 of its contains pattern only: of its
    four phrasings, three match and set nothing. *)
Example V1_contains_group_example :
  V1.parseNaturalLanguage (js "strings that contains the letter z")
  = Parsed (Filters.mk None None None None (Some (VStr (js "z")))) /\
  V1.parseNaturalLanguage (js "strings that contains character z")
  = Parsed Filters.empty.
Proof. split; vm_compute; reflexivity. Qed.

(** * Further properties of the code *)

(** ** The analyzer *)

Lemma run_length_app_outside p ws r :
  forallb p ws = true -> head_outside p r -> run_length p (ws ++ r) = length ws.
Proof.
  induction ws as [|c ws IH]; simpl.
  - intros _. destruct r as [|d r]; simpl; [easy|]. now intros ->.
  - intros Hc Hr. apply andb_prop in Hc as [-> Hws]. now rewrite IH.
Qed.

(** A star followed by nothing reads the longest run and stops. *)
Lemma star_Some_rest p prev r cs :
  exists res, star p Some prev r cs = Some res /\
    (length (rest res) + run_length p r = length r)%nat.
Proof.
  revert prev. induction r as [|c r IH]; intros prev; simpl.
  - eexists. split; [reflexivity|]. simpl. lia.
  - destruct (p c).
    + destruct (IH (Some c)) as (res & -> & Hl). exists res. split; [reflexivity|]. lia.
    + eexists. split; [reflexivity|]. simpl. lia.
Qed.

Lemma attempt_words_space prev c t :
  is_space c = true -> attempt re_words prev (c :: t) = None.
Proof.
  intros Hc. unfold attempt, re_words, Plus. simpl.
  unfold is_nonspace. now rewrite Hc.
Qed.

Lemma attempt_words_nonspace prev c t :
  is_space c = false ->
  exists res, attempt re_words prev (c :: t) = Some res /\
    (length (rest res) + run_length is_nonspace t = length t)%nat.
Proof.
  intros Hc. unfold attempt, re_words, Plus. simpl.
  unfold is_nonspace at 1. rewrite Hc. simpl. apply star_Some_rest.
Qed.

Lemma word_starts_flag s :
  run_length is_nonspace s = O -> word_starts false s = word_starts true s.
Proof.
  destruct s as [|c t]; simpl; [reflexivity|].
  unfold is_nonspace. destruct (is_space c); simpl; [reflexivity|discriminate].
Qed.

Lemma match_all_words_count s :
  (forall prev, length (match_all_from re_words O prev s) = word_starts true s) /\
  (forall prev, length (match_all_from re_words (run_length is_nonspace s) prev s)
                = word_starts false s).
Proof.
  induction s as [|c t [IH1 IH2]].
  - split; intros prev; reflexivity.
  - assert (H1 : forall prev,
      length (match_all_from re_words O prev (c :: t)) = word_starts true (c :: t)).
    { intros prev. cbn [match_all_from word_starts].
      destruct (is_space c) eqn:Hc.
      - rewrite (attempt_words_space prev c t Hc). apply IH1.
      - destruct (attempt_words_nonspace prev c t Hc) as (res & -> & Hl).
        cbn [length].
        replace (Nat.pred (S (length t) - length (rest res)))
          with (run_length is_nonspace t) by lia.
        now rewrite IH2. }
    split; [exact H1|]. intros prev.
    destruct (is_space c) eqn:Hc.
    + assert (Hr : run_length is_nonspace (c :: t) = O)
        by (simpl; unfold is_nonspace; now rewrite Hc).
      rewrite Hr, (word_starts_flag _ Hr). apply H1.
    + cbn [run_length word_starts]. unfold is_nonspace at 1. rewrite Hc. simpl negb.
      cbn iota. cbn [match_all_from]. apply IH2.
Qed.

Lemma word_starts_zero s : word_starts true s = O <-> forallb is_space s = true.
Proof.
  induction s as [|c t IH]; simpl; [easy|].
  destruct (is_space c); simpl; [exact IH|]. split; [lia|discriminate].
Qed.

(** X1.  The word count of a record is the number of maximal runs of units
    that are not white space in its value: the number of places where such
    a run starts.  It is zero exactly when every unit of the value is white
    space. *)
Theorem word_count_counts_runs `{CaseMapping} (now value : jsstring) :
  Props.word_count (Rec.properties (analyzeString now value))
  = Z.of_nat (word_starts true value) /\
  (Props.word_count (Rec.properties (analyzeString now value)) = 0
   <-> forallb is_space value = true).
Proof.
  unfold analyzeString. cbn [Rec.properties Props.word_count].
  unfold match_all. rewrite (proj1 (match_all_words_count value) None).
  split; [reflexivity|]. rewrite <- word_starts_zero. lia.
Qed.

Lemma hex_digit_is_hex x : is_hex_digit (SHA256.hex_digit (Z.land x 15)) = true.
Proof.
  change 15 with (Z.ones 4). rewrite Z.land_ones by lia.
  pose proof (Z.mod_pos_bound x (2 ^ 4) ltac:(lia)) as Hb.
  unfold SHA256.hex_digit, is_hex_digit, is_digit, in_range.
  destruct (x mod 2 ^ 4 <? 10) eqn:E; lia.
Qed.

(** X2.  The identifier of a record is its [sha256_hash] property, the
    fingerprint of its value, and is always 64 digits of [[0-9a-f]]. *)
Theorem id_is_hex_fingerprint `{CaseMapping} (now value : jsstring) :
  let r := analyzeString now value in
  Rec.id r = Props.sha256_hash (Rec.properties r) /\
  Rec.id r = sha256_hex value /\
  length (Rec.id r) = 64%nat /\
  forallb is_hex_digit (Rec.id r) = true.
Proof.
  cbn zeta. unfold analyzeString. cbn [Rec.id Rec.properties Props.sha256_hash].
  repeat split. unfold sha256_hex, SHA256.hex, SHA256.hex8.
  cbn [map concat app forallb]. rewrite !hex_digit_is_hex. reflexivity.
Qed.

Lemma occurrences_cons (ch ch' : jsstring) (l : list jsstring) :
  occurrences ch (ch' :: l)
  = (if jsstring_eqb ch ch' then 1 else 0) + occurrences ch l.
Proof.
  unfold occurrences. cbn [List.filter].
  destruct (jsstring_eqb ch ch'); cbn [length]; lia.
Qed.

Lemma frequency_fold_lookup (l : list jsstring) (m : gmap (list Z) Z) (ch : jsstring) :
  default 0 (fold_left count_char l m !! ch) = default 0 (m !! ch) + occurrences ch l.
Proof.
  revert m. induction l as [|ch' l IH]; intros m; cbn [fold_left].
  - unfold occurrences. simpl. lia.
  - rewrite IH, occurrences_cons. unfold count_char, jsstring_eqb.
    destruct (decide (ch = ch')) as [->|Hne].
    + rewrite lookup_insert_eq, bool_decide_eq_true_2 by reflexivity. simpl. lia.
    + rewrite lookup_insert_ne by congruence.
      rewrite bool_decide_eq_false_2 by exact Hne. lia.
Qed.

Lemma frequency_fold_positive (l : list jsstring) (m : gmap (list Z) Z) :
  map_Forall (fun _ n => 1 <= n) m ->
  map_Forall (fun _ n => 1 <= n) (fold_left count_char l m).
Proof.
  revert m. induction l as [|ch l IH]; intros m Hm; cbn [fold_left]; [exact Hm|].
  apply IH. unfold count_char. apply map_Forall_insert_2; [|exact Hm].
  destruct (m !! ch) as [n|] eqn:E; simpl; [|lia].
  specialize (Hm ch n E). simpl in Hm. lia.
Qed.

(** X3.  The frequency map gives each character the number of times it
    occurs among the code points of the value: a character that occurs has
    its number of occurrences, at least one, and a character that does not
    occur has no entry. *)
Theorem frequency_map_counts `{CaseMapping} (now value ch : jsstring) :
  let m := Props.character_frequency_map (Rec.properties (analyzeString now value)) in
  (0 < occurrences ch (codePoints value) ->
   m !! ch = Some (occurrences ch (codePoints value))) /\
  (occurrences ch (codePoints value) = 0 -> m !! ch = None).
Proof.
  cbn zeta. unfold analyzeString.
  cbn [Rec.properties Props.character_frequency_map]. unfold frequency_map.
  pose proof (frequency_fold_lookup (codePoints value) ∅ ch) as Hl.
  pose proof (frequency_fold_positive (codePoints value) ∅ (map_Forall_empty _)) as Hp.
  rewrite lookup_empty in Hl. simpl in Hl.
  destruct (fold_left count_char (codePoints value) ∅ !! ch) as [n|] eqn:E.
  - specialize (Hp ch n E). simpl in Hp, Hl. split; intros Ho; [f_equal|]; lia.
  - simpl in Hl. split; intros Ho; [lia|reflexivity].
Qed.

(** ** The store and the routes that write to it *)

Section StoreRoutes.
Context `{CaseMapping}.

Lemma analyzeString_analysed (now value : jsstring) :
  analysed (analyzeString now value).
Proof. reflexivity. Qed.

Lemma store_has_false (st : gmap (list Z) Rec.t) (key : jsstring) :
  store_has st key = false -> st !! key = None /\ inherited key = false.
Proof. unfold store_has. destruct (st !! key); [discriminate|]. now intros ->. Qed.

Lemma V1_serve_entries (r : request) (st : gmap (list Z) Rec.t) :
  map_Forall V1_entry_ok st -> map_Forall V1_entry_ok (V1.serve r st).
Proof.
  intros Hst. destruct r as [now [[b|n|i| |v]|]|key]; simpl; try exact Hst.
  - destruct (_ =? 0); [exact Hst|].
    destruct (store_has st _); [exact Hst|]. simpl.
    apply map_Forall_insert_2; [|exact Hst]. repeat split.
  - unfold V1.delete_string. destruct (store_has st key); simpl; [|exact Hst].
    now apply map_Forall_delete.
Qed.

Lemma V2_serve_entries (r : request) (st : gmap (list Z) Rec.t) :
  map_Forall V2_entry_ok st -> map_Forall V2_entry_ok (V2.serve r st).
Proof.
  intros Hst. destruct r as [now [[b|n|i| |v]|]|key]; simpl; try exact Hst.
  - destruct (_ =? 0); [exact Hst|].
    destruct (store_has st _) eqn:Hh; [exact Hst|]. simpl.
    apply store_has_false in Hh as [_ Hi].
    apply map_Forall_insert_2; [|exact Hst]. repeat split. exact Hi.
  - unfold V2.delete_string. destruct (store_has st key); simpl; [|exact Hst].
    now apply map_Forall_delete.
Qed.

Lemma fold_serve_inv (P : jsstring -> Rec.t -> Prop)
    (serve : request -> gmap (list Z) Rec.t -> gmap (list Z) Rec.t) :
  (forall r st, map_Forall P st -> map_Forall P (serve r st)) ->
  forall rs st, map_Forall P st ->
    map_Forall P (fold_left (fun st r => serve r st) rs st).
Proof.
  intros Hstep rs. induction rs as [|r rs IH]; intros st Hst; simpl; [exact Hst|].
  apply IH, Hstep, Hst.
Qed.

(** X4.  After any sequence of create and delete requests, every entry of
    the store holds the record under its own key: in the first variant the
    key is the identifier of the record, the fingerprint of its value; in
    the second it is the value of the record and never the name of an
    inherited property.  In both, the record is the analysis of its value,
    unchanged since it was created. *)
Theorem store_key_discipline (rs : list request) :
  map_Forall V1_entry_ok (V1.run_requests rs) /\
  map_Forall V2_entry_ok (V2.run_requests rs).
Proof.
  split.
  - apply (fold_serve_inv V1_entry_ok V1.serve V1_serve_entries), map_Forall_empty.
  - apply (fold_serve_inv V2_entry_ok V2.serve V2_serve_entries), map_Forall_empty.
Qed.

Lemma V1_entries (rs : list request) : map_Forall V1_entry_ok (V1.run_requests rs).
Proof.
  apply (fold_serve_inv V1_entry_ok V1.serve V1_serve_entries), map_Forall_empty.
Qed.

Lemma V2_entries (rs : list request) : map_Forall V2_entry_ok (V2.run_requests rs).
Proof.
  apply (fold_serve_inv V2_entry_ok V2.serve V2_serve_entries), map_Forall_empty.
Qed.

(** X5.  The store never holds two records of the same value: in either
    variant, two entries whose records have the same value are one entry. *)
Theorem one_record_per_value (rs : list request) (k1 k2 : jsstring) (r1 r2 : Rec.t) :
  Rec.value r1 = Rec.value r2 ->
  (V1.run_requests rs !! k1 = Some r1 -> V1.run_requests rs !! k2 = Some r2 ->
   k1 = k2) /\
  (V2.run_requests rs !! k1 = Some r1 -> V2.run_requests rs !! k2 = Some r2 ->
   k1 = k2).
Proof.
  intros Hv. split; intros H1 H2.
  - destruct (V1_entries rs k1 r1 H1) as (_ & E1 & _).
    destruct (V1_entries rs k2 r2 H2) as (_ & E2 & _). congruence.
  - destruct (V2_entries rs k1 r1 H1) as (E1 & _).
    destruct (V2_entries rs k2 r2 H2) as (E2 & _). congruence.
Qed.

(** X6.  A create that answers [Created] stores what the read handler
    finds: called with the key of the record (the identifier in the first
    variant, the trimmed value in the second), the handler of
    [GET /strings/:key] returns that record; called with any other key it
    answers as before the create; and the store has one record more. *)
Theorem create_then_get (now v : jsstring) (st st' : gmap (list Z) Rec.t) (r : Rec.t) :
  (V1.post_strings now (Some (VStr v)) st = (Created r, st') ->
   get_string (Rec.id r) st' = Found (OwnRecord r) /\
   Rec.id r = sha256_hex (trim v) /\
   (forall k, k <> Rec.id r -> get_string k st' = get_string k st) /\
   size st' = S (size st)) /\
  (V2.post_strings now (Some (VStr v)) st = (Created r, st') ->
   get_string (trim v) st' = Found (OwnRecord r) /\
   Rec.value r = trim v /\
   (forall k, k <> trim v -> get_string k st' = get_string k st) /\
   size st' = S (size st)).
Proof.
  split.
  - unfold V1.post_strings. destruct (_ =? 0); [discriminate|].
    destruct (store_has st _) eqn:Hh; [discriminate|]. intros [= <- <-].
    apply store_has_false in Hh as [Hn _].
    unfold get_string, store_get. rewrite lookup_insert_eq.
    repeat split.
    + intros k Hk. rewrite lookup_insert_ne; [reflexivity|].
      intros E. apply Hk. now rewrite <- E.
    + now apply map_size_insert_None.
  - unfold V2.post_strings. destruct (_ =? 0); [discriminate|].
    destruct (store_has st _) eqn:Hh; [discriminate|]. intros [= <- <-].
    apply store_has_false in Hh as [Hn _].
    unfold get_string, store_get. rewrite lookup_insert_eq.
    repeat split.
    + intros k Hk. now rewrite lookup_insert_ne by congruence.
    + now apply map_size_insert_None.
Qed.

(** X7.  The delete handler and the read handler agree on what is stored:
    called with a key, the delete answers [NotFound] exactly when the
    handler of [GET /strings/:key], called with the same key, finds nothing,
    and then leaves the store as it was.  When the delete answers
    [NoContent] for a key that is not the name of an inherited property, the
    read handler finds nothing under the key afterwards and answers as
    before for every other key, and the store has one record less.  Both
    variants. *)
Theorem delete_then_get (key : jsstring) (st : gmap (list Z) Rec.t) :
  V1.delete_string key st = V2.delete_string key st /\
  (get_string key st = GetNotFound <-> V2.delete_string key st = (NotFound, st)) /\
  (get_string key st <> GetNotFound -> inherited key = false ->
   exists st', V2.delete_string key st = (NoContent, st') /\
     get_string key st' = GetNotFound /\
     (forall k, k <> key -> get_string k st' = get_string k st) /\
     S (size st') = size st).
Proof.
  split; [reflexivity|]. unfold V2.delete_string, get_string, store_get, store_has.
  split.
  - destruct (st !! key); [split; discriminate|].
    destruct (inherited key); simpl; split; try discriminate; reflexivity.
  - intros Hf Hi. rewrite Hi in *. destruct (st !! key) as [r|] eqn:E; [|congruence].
    simpl. eexists. split; [reflexivity|]. rewrite lookup_delete_eq. repeat split.
    + intros k Hk. now rewrite lookup_delete_ne by congruence.
    + rewrite map_size_delete_Some by eauto.
      assert (size st <> O) by (intros Hz; apply map_size_empty_iff in Hz; subst st;
                                 now rewrite lookup_empty in E).
      lia.
Qed.

(** X8.  The name of a property the store object inherits is never a key of
    the store; in every reachable store it reads as found, its delete
    answers [NoContent] and removes nothing, and in the second variant a
    create of a value with that trim answers [Duplicate]. *)
Theorem inherited_names_shadow (rs : list request) (key : jsstring) :
  inherited key = true ->
  (V1.run_requests rs !! key = None /\
   get_string key (V1.run_requests rs) = Found (InheritedValue key) /\
   V1.delete_string key (V1.run_requests rs) = (NoContent, V1.run_requests rs)) /\
  (V2.run_requests rs !! key = None /\
   get_string key (V2.run_requests rs) = Found (InheritedValue key) /\
   V2.delete_string key (V2.run_requests rs) = (NoContent, V2.run_requests rs) /\
   forall now v, trim v = key ->
     V2.post_strings now (Some (VStr v)) (V2.run_requests rs)
     = (Duplicate, V2.run_requests rs)).
Proof.
  intros Hi.
  assert (H1 : V1.run_requests rs !! key = None).
  { destruct (V1.run_requests rs !! key) as [r|] eqn:E; [|reflexivity].
    destruct (V1_entries rs key r E) as (_ & Ek & _).
    rewrite Ek, sha256_hex_not_inherited in Hi. discriminate. }
  assert (H2 : V2.run_requests rs !! key = None).
  { destruct (V2.run_requests rs !! key) as [r|] eqn:E; [|reflexivity].
    destruct (V2_entries rs key r E) as (_ & Ek & _). congruence. }
  split.
  - split; [exact H1|]. unfold get_string, store_get, V1.delete_string, store_has.
    rewrite H1, Hi. simpl. split; [reflexivity|]. now rewrite delete_id.
  - split; [exact H2|]. unfold get_string, store_get, V2.delete_string, store_has.
    rewrite H2, Hi. simpl. split; [reflexivity|]. split; [now rewrite delete_id|].
    intros now v Hv. unfold V2.post_strings. rewrite Hv, length_zero_eqb.
    destruct key as [|c key]; [discriminate Hi|].
    unfold store_has. now rewrite H2, Hi.
Qed.

(** X9.  Deleting what a create made gives the store back: after a create
    that answers [Created], the delete of the record's key answers
    [NoContent] and leaves the store the create started from. *)
Theorem create_then_delete (now v : jsstring) (st st' : gmap (list Z) Rec.t) (r : Rec.t) :
  (V1.post_strings now (Some (VStr v)) st = (Created r, st') ->
   V1.delete_string (Rec.id r) st' = (NoContent, st)) /\
  (V2.post_strings now (Some (VStr v)) st = (Created r, st') ->
   V2.delete_string (Rec.value r) st' = (NoContent, st)).
Proof.
  split.
  - unfold V1.post_strings. destruct (_ =? 0); [discriminate|].
    destruct (store_has st _) eqn:Hh; [discriminate|]. intros [= <- <-].
    apply store_has_false in Hh as [Hn _].
    unfold V1.delete_string, store_has. rewrite lookup_insert_eq. simpl.
    now rewrite delete_insert_id.
  - unfold V2.post_strings. destruct (_ =? 0); [discriminate|].
    destruct (store_has st _) eqn:Hh; [discriminate|]. intros [= <- <-].
    apply store_has_false in Hh as [Hn _].
    unfold analyzeString at 1. cbn [Rec.value].
    unfold V2.delete_string, store_has. rewrite lookup_insert_eq. simpl.
    now rewrite delete_insert_id.
Qed.

(** X10.  A create reads its value through [trim] only: a value and its
    trim get the same answer and leave the same store, in both variants. *)
Theorem create_reads_trim (now v : jsstring) (st : gmap (list Z) Rec.t) :
  V1.post_strings now (Some (VStr v)) st
  = V1.post_strings now (Some (VStr (trim v))) st /\
  V2.post_strings now (Some (VStr v)) st
  = V2.post_strings now (Some (VStr (trim v))) st.
Proof.
  unfold V1.post_strings, V2.post_strings. now rewrite trim_idempotent.
Qed.

End StoreRoutes.

(** ** The filter engine on any filter object, and the list route *)

Section FilterRoutes.
Context `{CaseMapping}.

Lemma applyFilters_passes (data : list Rec.t) (f : Filters.t) :
  applyFilters data f = List.filter (passes f) data.
Proof.
  destruct f as [ip mn mx wc cc]. unfold applyFilters, passes.
  cbn [Filters.is_palindrome Filters.min_length Filters.max_length
       Filters.word_count Filters.contains_character].
  rewrite <- !filter_filter.
  destruct ip as [v0|]; [|rewrite filter_true];
  (destruct mn as [v1|]; [destruct (parseInt v1)|]; rewrite ?filter_true);
  (destruct mx as [v2|]; [destruct (parseInt v2)|]; rewrite ?filter_true);
  (destruct wc as [v3|]; [destruct (parseInt v3)|]; rewrite ?filter_true);
  (destruct cc as [v4|]; [destruct (truthy v4)|]; rewrite ?filter_true);
  reflexivity.
Qed.

Lemma filter_idempotent {A} (p : A -> bool) (l : list A) :
  List.filter p (List.filter p l) = List.filter p l.
Proof.
  induction l as [|x l IH]; simpl; [reflexivity|].
  destruct (p x) eqn:E; simpl; rewrite ?E, IH; reflexivity.
Qed.

Lemma filter_sublist {A} (p : A -> bool) (l : list A) :
  sublist (List.filter p l) l.
Proof.
  induction l as [|x l IH]; simpl; [constructor|].
  destruct (p x); now constructor.
Qed.

(** X11.  Whatever the filter object holds, well formed or not, the filter
    engine tests each record on its own: filtering a concatenation is
    concatenating the filtered parts, filtering a result again with the same
    filters changes nothing, and the result is a subsequence of the input. *)
Theorem applyFilters_recordwise (data1 data2 : list Rec.t) (f : Filters.t) :
  applyFilters (data1 ++ data2) f = applyFilters data1 f ++ applyFilters data2 f /\
  applyFilters (applyFilters data1 f) f = applyFilters data1 f /\
  sublist (applyFilters data1 f) data1.
Proof.
  rewrite !applyFilters_passes. split; [apply List.filter_app|].
  split; [apply filter_idempotent | apply filter_sublist].
Qed.

Lemma passes_extends (f f' : Filters.t) (item : Rec.t) :
  extends f f' -> passes f' item = true -> passes f item = true.
Proof.
  intros (Hip & Hmn & Hmx & Hwc & Hcc). unfold passes.
  rewrite !andb_true_iff. intros ((((P1 & P2) & P3) & P4) & P5).
  repeat split.
  - destruct (Filters.is_palindrome f) as [v|]; [|reflexivity].
    now rewrite (Hip v eq_refl) in P1.
  - destruct (Filters.min_length f) as [v|]; [|reflexivity].
    now rewrite (Hmn v eq_refl) in P2.
  - destruct (Filters.max_length f) as [v|]; [|reflexivity].
    now rewrite (Hmx v eq_refl) in P3.
  - destruct (Filters.word_count f) as [v|]; [|reflexivity].
    now rewrite (Hwc v eq_refl) in P4.
  - destruct (Filters.contains_character f) as [v|]; [|reflexivity].
    now rewrite (Hcc v eq_refl) in P5.
Qed.

(** X12.  Filters only ever remove records: when a filter object holds
    every filter of another, with the same values, each record it lets
    through is let through by the other, and filtering by the larger object
    is filtering the result of the smaller one once more. *)
Theorem applyFilters_more_filters (data : list Rec.t) (f f' : Filters.t) :
  extends f f' ->
  (forall item, In item (applyFilters data f') -> In item (applyFilters data f)) /\
  applyFilters data f' = applyFilters (applyFilters data f) f'.
Proof.
  intros He. rewrite !applyFilters_passes. split.
  - intros item. rewrite !filter_In. intros [Hin Hp]. split; [exact Hin|].
    now apply (passes_extends f f').
  - rewrite filter_filter. apply List.filter_ext_in. intros item _.
    destruct (passes f' item) eqn:E; [|now rewrite andb_false_r].
    now rewrite (passes_extends f f' item He E).
Qed.

Lemma isInvalidInt_false (val : option jsval) :
  isInvalidInt val = false ->
  forall v, val = Some v -> exists n, parseInt v = Some n.
Proof.
  unfold isInvalidInt. intros Hv v ->. destruct (parseInt v); [eauto|discriminate].
Qed.

Lemma filter_Forall {A} (p : A -> bool) (l : list A) :
  Forall (fun x => p x = true) (List.filter p l).
Proof. apply List.Forall_forall. intros x Hx. now apply List.filter_In in Hx. Qed.

Lemma passes_Forall (P : Rec.t -> Prop) (f : Filters.t) (data : list Rec.t) :
  (forall item, passes f item = true -> P item) ->
  Forall P (applyFilters data f).
Proof.
  intros HP. rewrite applyFilters_passes.
  eapply List.Forall_impl; [|apply filter_Forall]. exact HP.
Qed.

(** X13.  When the list route answers with data, the query passed its two
    guards, so the palindrome flag and the numeric parameters that are
    present are all applied: the flag reads [true] or [false] in any letter
    case and every record returned has that palindrome property; a numeric
    parameter reads as an integer and every record returned is within it.
    The guards do not look at [contains_character]: a value that is not
    empty is applied (every record returned holds it, letter case apart),
    and an empty one is skipped by the engine, though the answer echoes it.
    The data is the filtered list, in the order of the store listing, and
    the count is its length. *)
Theorem get_strings_ok (availableData data : list Rec.t) (query fa : Filters.t)
    (count : Z) :
  get_strings availableData query = ListOk data count fa ->
  data = applyFilters availableData query /\
  sublist data availableData /\
  count = Z.of_nat (length data) /\
  fa = query /\
  (forall v, Filters.is_palindrome query = Some v ->
     exists b : bool,
       toLowerCase (ToString v) = (if b then js "true" else js "false") /\
       Forall (fun r => Props.is_palindrome (Rec.properties r) = b) data) /\
  (forall v, Filters.min_length query = Some v ->
     exists n, parseInt v = Some n /\
       Forall (fun r => n <= Props.length (Rec.properties r)) data) /\
  (forall v, Filters.max_length query = Some v ->
     exists n, parseInt v = Some n /\
       Forall (fun r => Props.length (Rec.properties r) <= n) data) /\
  (forall v, Filters.word_count query = Some v ->
     exists n, parseInt v = Some n /\
       Forall (fun r => Props.word_count (Rec.properties r) = n) data) /\
  (forall v, Filters.contains_character query = Some v -> truthy v = true ->
     Forall (fun r => includes (toLowerCase (Rec.value r))
                               (toLowerCase (ToString v)) = true) data) /\
  (forall v, Filters.contains_character query = Some v -> truthy v = false ->
     data = applyFilters availableData
              (Filters.mk (Filters.is_palindrome query) (Filters.min_length query)
                 (Filters.max_length query) (Filters.word_count query) None)).
Proof.
  unfold get_strings.
  destruct (match Filters.is_palindrome query with Some _ => _ | None => _ end) eqn:Hp;
    [discriminate|].
  destruct (isInvalidInt (Filters.min_length query)) eqn:H1; [discriminate|].
  destruct (isInvalidInt (Filters.max_length query)) eqn:H2; [discriminate|].
  destruct (isInvalidInt (Filters.word_count query)) eqn:H3; [discriminate|].
  simpl. intros [= <- <- <-].
  split; [reflexivity|]. split; [rewrite applyFilters_passes; apply filter_sublist|].
  split; [reflexivity|]. split; [reflexivity|]. repeat split.
  - intros v Hv. rewrite Hv in Hp. apply negb_false_iff in Hp. simpl in Hp.
    rewrite orb_false_r in Hp. apply orb_true_iff in Hp.
    unfold jsstring_eqb in Hp. rewrite !bool_decide_eq_true in Hp.
    destruct Hp as [Ht|Hf]; [exists true | exists false]; (split; [assumption|]);
      apply passes_Forall; intros item; unfold passes; rewrite Hv, !andb_true_iff;
      intros ((((P1 & _) & _) & _) & _); apply eqb_prop in P1; rewrite P1;
      unfold jsstring_eqb; [rewrite Ht | rewrite Hf]; reflexivity.
  - intros v Hv. destruct (isInvalidInt_false _ H1 v Hv) as [n Hn]. exists n.
    split; [exact Hn|]. apply passes_Forall. intros item. unfold passes.
    rewrite Hv, Hn, !andb_true_iff. intros ((((_ & P) & _) & _) & _). lia.
  - intros v Hv. destruct (isInvalidInt_false _ H2 v Hv) as [n Hn]. exists n.
    split; [exact Hn|]. apply passes_Forall. intros item. unfold passes.
    rewrite Hv, Hn, !andb_true_iff. intros ((((_ & _) & P) & _) & _). lia.
  - intros v Hv. destruct (isInvalidInt_false _ H3 v Hv) as [n Hn]. exists n.
    split; [exact Hn|]. apply passes_Forall. intros item. unfold passes.
    rewrite Hv, Hn, !andb_true_iff. intros ((((_ & _) & _) & P) & _). lia.
  - intros v Hv Ht. apply passes_Forall. intros item. unfold passes.
    rewrite Hv, Ht, !andb_true_iff. now intros (_ & P).
  - intros v Hv Ht. destruct query as [ip mn mx wc cc]. unfold applyFilters.
    cbn [Filters.is_palindrome Filters.min_length Filters.max_length
         Filters.word_count Filters.contains_character] in *.
    subst cc. rewrite Ht. reflexivity.
Qed.

End FilterRoutes.

(** ** More of the matcher: what a match has read *)

Lemma star_inv p k prev r cs res :
  star p k prev r cs = Some res ->
  exists ws r', r = ws ++ r' /\ forallb p ws = true /\
    k (MState (before_after prev ws) r' cs) = Some res.
Proof.
  revert prev. induction r as [|c r IH]; intros prev; simpl.
  - intros Hk. now exists [], [].
  - destruct (p c) eqn:Hc.
    + destruct (star p k (Some c) r cs) eqn:E.
      * intros [= <-]. destruct (IH _ E) as (ws & r' & -> & Hws & Hk).
        exists (c :: ws), r'. rewrite before_after_cons. simpl. now rewrite Hc.
      * intros Hk. now exists [], (c :: r).
    + intros Hk. now exists [], (c :: r).
Qed.

Lemma run_Plus_inv p k s res :
  run (Plus p) k s = Some res ->
  exists ws r', rest s = ws ++ r' /\ ws <> [] /\ forallb p ws = true /\
    k (MState (before_after (before s) ws) r' (caps s)) = Some res.
Proof.
  unfold Plus. cbn [run]. destruct (rest s) as [|c r]; [discriminate|].
  destruct (p c) eqn:Hc; [|discriminate]. cbn [before rest caps].
  intros Hs. destruct (star_inv _ _ _ _ _ _ Hs) as (ws & r' & -> & Hws & Hk).
  exists (c :: ws), r'. rewrite before_after_cons. simpl. rewrite Hc.
  repeat split; try assumption. discriminate.
Qed.

Lemma firstn_app_diff (ws r : jsstring) :
  firstn (length (ws ++ r) - length r) (ws ++ r) = ws.
Proof.
  replace (length (ws ++ r) - length r)%nat with (length ws)
    by (rewrite length_app; lia).
  apply take_app_length.
Qed.

(** A part of a regular expression that has no group [i] leaves the
    capture of group [i] as it found it. *)
Lemma star_keeps_group i p k prev r cs res :
  (forall s' res', k s' = Some res' -> group i res' = lookup_cap i (caps s')) ->
  star p k prev r cs = Some res -> group i res = lookup_cap i cs.
Proof.
  intros Hk Hs. destruct (star_inv _ _ _ _ _ _ Hs) as (ws & r' & _ & _ & Hr).
  apply (Hk _ _ Hr).
Qed.

Lemma run_keeps_group i re : forall k s res,
  no_group i re = true ->
  (forall s' res', k s' = Some res' -> group i res' = lookup_cap i (caps s')) ->
  run re k s = Some res -> group i res = lookup_cap i (caps s).
Proof.
  induction re as [|l|p|a IHa b IHb|a IHa b IHb|p|j a IHa|];
    intros k s res Hng Hk; cbn [run].
  - apply Hk.
  - destruct (eat l (before s) (rest s)) as [[p r]|]; [|discriminate].
    intros Hr. apply (Hk _ _ Hr).
  - destruct (rest s) as [|c r]; [discriminate|].
    destruct (p c); [|discriminate]. intros Hr. apply (Hk _ _ Hr).
  - simpl in Hng. apply andb_prop in Hng as [Ha Hb].
    apply IHa; [exact Ha|]. intros s' res'. now apply IHb.
  - simpl in Hng. apply andb_prop in Hng as [Ha Hb].
    destruct (run a k s) eqn:E.
    + intros [= <-]. eapply IHa; eauto.
    + now apply IHb.
  - now apply star_keeps_group.
  - simpl in Hng. apply andb_prop in Hng as [Hj Ha].
    apply negb_true_iff in Hj. apply IHa; [exact Ha|].
    intros s' res' Hr. rewrite (Hk _ _ Hr). cbn [caps lookup_cap]. now rewrite Hj.
  - destruct (xorb _ _); [|discriminate]. apply Hk.
Qed.

Lemma Some_keeps_group i (s' res' : mstate) :
  Some s' = Some res' -> group i res' = lookup_cap i (caps s').
Proof. now intros [= <-]. Qed.

(** What a group around [p+] captures, when nothing after it captures the
    same group. *)
Lemma run_Group_Plus_capture i p tail s res :
  no_group i tail = true ->
  run (Group i (Plus p) +> tail)%re Some s = Some res ->
  exists ds, group i res = Some ds /\ ds <> [] /\ forallb p ds = true.
Proof.
  intros Hng. rewrite run_Seq_eq, run_Group_eq. intros Hr.
  apply run_Plus_inv in Hr as (ds & r' & Er & Hne & Hds & Hk).
  exists ds. repeat split; try assumption.
  rewrite (run_keeps_group i tail _ _ _ Hng (Some_keeps_group i) Hk).
  cbn [caps rest lookup_cap]. rewrite Nat.eqb_refl, Er. f_equal.
  apply firstn_app_diff.
Qed.

Lemma parseInt_digit_string ds :
  digit_string ds ->
  parseInt_string ds = Some (digits_value 0 ds) /\ 0 <= digits_value 0 ds.
Proof.
  intros [Hne Hds]. split.
  - destruct ds as [|c t]; [congruence|]. simpl in Hds.
    apply andb_prop in Hds as [Hc _].
    assert (Hs : is_space c = false)
      by (unfold is_digit, is_space, in_range in *; lia).
    unfold parseInt_string. cbn [trimStart]. rewrite Hs.
    assert (c <> 45 /\ c <> 43) as [H45 H43]
      by (unfold is_digit, in_range in Hc; lia).
    replace (match c :: t with
             | 43 :: t0 => (1, t0) | 45 :: t0 => (-1, t0) | _ => (1, c :: t) end)
      with (1, c :: t).
    + rewrite Hc. f_equal. lia.
    + destruct c as [|q|q]; try reflexivity.
      do 6 (destruct q as [q|q|]; try reflexivity; try congruence).
  - assert (Hacc : forall l acc, 0 <= acc -> forallb is_digit l = true ->
                                 0 <= digits_value acc l).
    { induction l as [|c t IH]; intros acc Ha Hl; simpl; [exact Ha|].
      simpl in Hl. apply andb_prop in Hl as [Hc Ht]. rewrite Hc.
      apply IH; [|exact Ht]. unfold is_digit, in_range in Hc. lia. }
    now apply Hacc.
Qed.

(** ** The interpreter of the second variant, rule by rule *)

Lemma attempt_longer_capture prev r m :
  attempt V2.re_longer prev r = Some m ->
  exists ds, group 2 m = Some ds /\ digit_string ds.
Proof.
  unfold attempt, V2.re_longer. intros Hm.
  do 5 (apply run_seq_continues in Hm as [? Hm]).
  now apply run_Group_Plus_capture in Hm.
Qed.

Lemma attempt_shorter_capture prev r m :
  attempt V2.re_shorter prev r = Some m ->
  exists ds, group 2 m = Some ds /\ digit_string ds.
Proof.
  unfold attempt, V2.re_shorter. intros Hm.
  do 5 (apply run_seq_continues in Hm as [? Hm]).
  now apply run_Group_Plus_capture in Hm.
Qed.

Lemma attempt_exactly_capture prev r m :
  attempt V2.re_exactly prev r = Some m ->
  exists ds, group 1 m = Some ds /\ digit_string ds.
Proof.
  unfold attempt, V2.re_exactly. intros Hm.
  do 3 (apply run_seq_continues in Hm as [? Hm]).
  now apply run_Group_Plus_capture in Hm.
Qed.

Lemma exec_capture re (i : nat) (P : jsstring -> Prop) (q : jsstring) (m : mstate) :
  (forall prev r m, attempt re prev r = Some m -> exists ds, group i m = Some ds /\ P ds) ->
  exec re q = Some m -> exists ds, group i m = Some ds /\ P ds.
Proof.
  intros Hat Hm. destruct (search_from_attempt _ _ _ _ Hm) as (pre & r & _ & Ha).
  eapply Hat, Ha.
Qed.

Lemma rules_is_palindrome q :
  Filters.is_palindrome (V2.rules q)
  = if test V2.re_palindrome q then Some (VBool true) else None.
Proof.
  unfold V2.rules.
  destruct (test V2.re_palindrome q), (test V2.re_single_word q),
    (exec V2.re_contains q), (test V2.re_first_vowel q), (exec V2.re_longer q),
    (exec V2.re_shorter q), (exec V2.re_exactly q); reflexivity.
Qed.

Lemma rules_min_length q :
  Filters.min_length (V2.rules q)
  = match exec V2.re_exactly q with
    | Some m => Some (parseInt_number (parseInt_string (default [] (group 1 m))))
    | None =>
        match exec V2.re_longer q with
        | Some m => Some (num_plus (parseInt_string (default [] (group 2 m))) 1)
        | None => None
        end
    end.
Proof.
  unfold V2.rules.
  destruct (test V2.re_palindrome q), (test V2.re_single_word q),
    (exec V2.re_contains q), (test V2.re_first_vowel q), (exec V2.re_longer q),
    (exec V2.re_shorter q), (exec V2.re_exactly q); reflexivity.
Qed.

Lemma rules_max_length q :
  Filters.max_length (V2.rules q)
  = match exec V2.re_exactly q with
    | Some m => Some (parseInt_number (parseInt_string (default [] (group 1 m))))
    | None =>
        match exec V2.re_shorter q with
        | Some m => Some (num_plus (parseInt_string (default [] (group 2 m))) (-1))
        | None => None
        end
    end.
Proof.
  unfold V2.rules.
  destruct (test V2.re_palindrome q), (test V2.re_single_word q),
    (exec V2.re_contains q), (test V2.re_first_vowel q), (exec V2.re_longer q),
    (exec V2.re_shorter q), (exec V2.re_exactly q); reflexivity.
Qed.

Lemma Number_of_lower (lo v m : Z) :
  - 2 ^ 53 <= lo <= 2 ^ 53 -> lo <= v -> Number_of v = VNum m -> lo <= m.
Proof.
  intros Hlo Hv E. destruct (Z.le_gt_cases (2 ^ 53) v) as [Hbig|Hsmall].
  - pose proof (Number_of_large v m Hbig E). lia.
  - rewrite Number_of_exact in E by lia. injection E as <-. exact Hv.
Qed.

Lemma Number_of_stored (lo v : Z) :
  - 2 ^ 53 <= lo <= 2 ^ 53 -> lo <= v -> stored_length lo (Number_of v).
Proof.
  intros Hlo Hv. destruct (Number_of_number v) as [[m E]|E]; rewrite E.
  - right. exists m. split; [reflexivity|]. now apply (Number_of_lower lo v m).
  - left. f_equal. apply Z.ltb_ge.
    destruct (Z.le_gt_cases 0 v) as [|Hneg]; [assumption|].
    rewrite Number_of_exact in E by lia. discriminate.
Qed.

Lemma parseInt_number_capture (m : mstate) (i : nat) :
  (exists ds, group i m = Some ds /\ digit_string ds) ->
  stored_length 0 (parseInt_number (parseInt_string (default [] (group i m)))).
Proof.
  intros (ds & -> & Hds). destruct (parseInt_digit_string ds Hds) as [Hp Hn].
  simpl default. rewrite Hp. simpl parseInt_number.
  apply Number_of_stored; [|exact Hn].
  change (2 ^ 53) with 9007199254740992. lia.
Qed.

Lemma num_plus_capture (m : mstate) (i : nat) (k : Z) :
  -1 <= k <= 1 ->
  (exists ds, group i m = Some ds /\ digit_string ds) ->
  stored_length k (num_plus (parseInt_string (default [] (group i m))) k).
Proof.
  intros Hk Hc. unfold num_plus.
  assert (E53 : 2 ^ 53 = 9007199254740992) by reflexivity.
  destruct (parseInt_number_capture m i Hc) as [->|(n & -> & Hn)].
  - now left.
  - apply Number_of_stored; lia.
Qed.

Lemma Filters_eta (f : Filters.t) :
  f = Filters.mk (Filters.is_palindrome f) (Filters.min_length f)
        (Filters.max_length f) (Filters.word_count f)
        (Filters.contains_character f).
Proof. now destruct f. Qed.

(** An interpreted filter object without an infinite length holds a typed
    filter set. *)
Lemma interpreted_filter_set (p : Z -> bool) (lo hi : Z) (f : Filters.t) :
  interpreted p lo hi f ->
  Filters.min_length f = Some (VInfinity false)
  \/ Filters.max_length f = Some (VInfinity false)
  \/ exists fs : FilterSet.t, f = filters_of fs.
Proof.
  intros (Hip & Hwc & Hcc & Hmn & Hmx). destruct f as [ip mn mx wc cc].
  cbn [Filters.is_palindrome Filters.min_length Filters.max_length
       Filters.word_count Filters.contains_character] in *.
  assert (Eip : exists o, ip = VBool <$> o).
  { destruct Hip as [-> | ->]; [now exists None | now exists (Some true)]. }
  assert (Ewc : exists o, wc = VNum <$> o).
  { destruct Hwc as [-> | ->]; [now exists None | now exists (Some 1)]. }
  assert (Ecc : exists o, cc = (fun ch => VStr (character_string ch)) <$> o).
  { destruct cc as [v|]; [|now exists None].
    destruct (Hcc v eq_refl) as (c & -> & _). now exists (Some (Unit c)). }
  assert (Emn : mn = Some (VInfinity false) \/ exists o, mn = VNum <$> o).
  { destruct mn as [v|]; [|right; now exists None].
    destruct (Hmn v eq_refl) as [-> | (n & -> & _)];
      [now left | right; now exists (Some n)]. }
  assert (Emx : mx = Some (VInfinity false) \/ exists o, mx = VNum <$> o).
  { destruct mx as [v|]; [|right; now exists None].
    destruct (Hmx v eq_refl) as [-> | (n & -> & _)];
      [now left | right; now exists (Some n)]. }
  destruct Emn as [-> | [omn ->]]; [now left|].
  destruct Emx as [-> | [omx ->]]; [now right; left|].
  destruct Eip as [oip ->], Ewc as [owc ->], Ecc as [occ ->].
  right; right. now exists (FilterSet.mk oip omn omx owc occ).
Qed.

Lemma V2_rules_interpreted (q : jsstring) :
  interpreted is_lower_alnum 0 (-1) (V2.rules q).
Proof.
  unfold interpreted. split; [|split; [|split; [|split]]].
  - rewrite rules_is_palindrome. destruct (test V2.re_palindrome q); auto.
  - rewrite rules_word_count. destruct (test V2.re_single_word q); auto.
  - rewrite rules_contains_character. intros v.
    destruct (test V2.re_first_vowel q).
    + intros [= <-]. now exists 97.
    + destruct (exec V2.re_contains q) as [m|] eqn:E; [|discriminate].
      destruct (search_from_attempt _ _ _ _ E) as (pre & r & _ & Ha).
      destruct (attempt_contains_capture _ _ _ Ha) as (c & -> & Hc).
      intros [= <-]. now exists c.
  - rewrite rules_min_length. intros v.
    destruct (exec V2.re_exactly q) as [m|] eqn:E.
    + intros [= <-]. apply parseInt_number_capture.
      exact (exec_capture _ 1 _ _ _ attempt_exactly_capture E).
    + destruct (exec V2.re_longer q) as [m|] eqn:E'; [|discriminate].
      intros [= <-].
      destruct (num_plus_capture m 2 1 ltac:(lia)
                  (exec_capture _ 2 _ _ _ attempt_longer_capture E'))
        as [->|(n & -> & Hn)]; [now left|right].
      exists n. split; [reflexivity|lia].
  - rewrite rules_max_length. intros v.
    destruct (exec V2.re_exactly q) as [m|] eqn:E.
    + intros [= <-].
      destruct (parseInt_number_capture m 1
                  (exec_capture _ 1 _ _ _ attempt_exactly_capture E))
        as [->|(n & -> & Hn)]; [now left|right].
      exists n. split; [reflexivity|lia].
    + destruct (exec V2.re_shorter q) as [m|] eqn:E'; [|discriminate].
      intros [= <-]. apply num_plus_capture; [lia|].
      exact (exec_capture _ 2 _ _ _ attempt_shorter_capture E').
Qed.

(** X14.  The filter object the rules of the second variant build is typed:
    the palindrome flag is absent or [true], the word count absent or 1, the
    character absent or one unit of [[a-z0-9]], and each length absent or a
    number that is not NaN: an integer ([min_length] at least 0,
    [max_length] at least -1) or [Infinity], which a run of digits too
    large for a number gives.  Unless a length is [Infinity], the object holds a
    typed filter set. *)
Theorem V2_rules_typed (q : jsstring) :
  (Filters.is_palindrome (V2.rules q) = None
   \/ Filters.is_palindrome (V2.rules q) = Some (VBool true)) /\
  (Filters.word_count (V2.rules q) = None
   \/ Filters.word_count (V2.rules q) = Some (VNum 1)) /\
  (forall v, Filters.contains_character (V2.rules q) = Some v ->
     exists c, v = VStr [c] /\ is_lower_alnum c = true) /\
  (forall v, Filters.min_length (V2.rules q) = Some v ->
     v = VInfinity false \/ exists n, v = VNum n /\ 0 <= n) /\
  (forall v, Filters.max_length (V2.rules q) = Some v ->
     v = VInfinity false \/ exists n, v = VNum n /\ -1 <= n) /\
  (Filters.min_length (V2.rules q) = Some (VInfinity false)
   \/ Filters.max_length (V2.rules q) = Some (VInfinity false)
   \/ exists fs : FilterSet.t, V2.rules q = filters_of fs).
Proof.
  pose proof (V2_rules_interpreted q) as Hi.
  pose proof (interpreted_filter_set _ _ _ _ Hi) as Hfs.
  destruct Hi as (Hip & Hwc & Hcc & Hmn & Hmx).
  split; [exact Hip|]. split; [exact Hwc|]. split; [exact Hcc|].
  split; [exact Hmn|]. split; [exact Hmx|exact Hfs].
Qed.

(** ** The interpreter of the first variant *)

Lemma run_Lit_Group_Class_inv l j p s m :
  run (Lit l +> Group j (Class p))%re Some s = Some m ->
  exists c, caps m = (j, [c]) :: caps s /\ p c = true.
Proof.
  rewrite run_Seq_eq. cbn [run].
  destruct (eat l (before s) (rest s)) as [[b r]|]; [|discriminate].
  cbn [rest before caps]. destruct r as [|c r]; [discriminate|].
  destruct (p c) eqn:Hc; [|discriminate]. cbn [rest before caps].
  intros [= <-]. exists c. cbn [caps]. split; [|exact Hc].
  f_equal. f_equal. apply firstn_cons_diff.
Qed.

Lemma run_Alt_inv a b k s res :
  run (a <|> b)%re k s = Some res -> run a k s = Some res \/ run b k s = Some res.
Proof. cbn [run]. destruct (run a k s); [intros [= <-]; now left | now right]. Qed.

Lemma V1_attempt_contains_capture prev r m :
  attempt V1.re_contains prev r = Some m ->
  group 1 m = None \/ exists c, group 1 m = Some [c] /\ is_word c = true.
Proof.
  unfold attempt, V1.re_contains. intros Hm.
  apply run_Alt_inv in Hm as [Hm|Hm];
    [|apply run_Alt_inv in Hm as [Hm|Hm]; [|apply run_Alt_inv in Hm as [Hm|Hm]]];
    apply run_Lit_Group_Class_inv in Hm as (c & Hc & Hw);
    unfold group; rewrite Hc; cbn; eauto.
Qed.

Lemma V1_attempt_length_capture prev r m :
  attempt V1.re_length prev r = Some m ->
  exists ds, group 2 m = Some ds /\ digit_string ds.
Proof.
  unfold attempt, V1.re_length. intros Hm.
  do 2 (apply run_seq_continues in Hm as [? Hm]).
  change (Group 2 (Plus is_digit)) with (Group 2 (Plus is_digit)) in Hm.
  assert (Hm' : run (Group 2 (Plus is_digit) +> Eps)%re Some x0 = Some m) by exact Hm.
  now apply run_Group_Plus_capture in Hm'.
Qed.

Section FirstInterpreter.
Context `{CaseMapping}.

Lemma V1_extract_interpreted (query : jsstring) :
  interpreted is_word 1 (-1) (V1.extract query) /\
  (Filters.min_length (V1.extract query) = None
   \/ Filters.max_length (V1.extract query) = None).
Proof.
  unfold V1.extract. set (q := toLowerCase query).
  assert (Hcc : forall m c, exec V1.re_contains q = Some m ->
                  group 1 m = Some c -> exists u, c = [u] /\ is_word u = true).
  { intros m c E Hg. destruct (search_from_attempt _ _ _ _ E) as (pre & r & _ & Ha).
    destruct (V1_attempt_contains_capture _ _ _ Ha) as [Hn | (u & Hu & Hw)];
      [congruence|].
    exists u. split; [congruence|exact Hw]. }
  assert (Hlen : forall m k, exec V1.re_length q = Some m -> -1 <= k <= 1 ->
                   stored_length k
                     (num_plus (parseInt_string (default [] (group 2 m))) k)).
  { intros m k E Hk. apply num_plus_capture; [exact Hk|].
    exact (exec_capture _ 2 _ _ _ V1_attempt_length_capture E). }
  cbv zeta.
  destruct (exec V1.re_contains q) as [mc|] eqn:Ec;
    [destruct (group 1 mc) as [c|] eqn:Eg;
       [destruct (Hcc mc c eq_refl Eg) as (u & -> & Hu); cbn [truthy]|]|];
  (destruct (exec V1.re_length q) as [ml|] eqn:El;
    [pose proof (Hlen ml 1 eq_refl ltac:(lia)) as Hmin;
     pose proof (Hlen ml (-1) eq_refl ltac:(lia)) as Hmax;
     destruct (jsstring_eqb (default [] (group 1 ml)) (js "longer")
               || jsstring_eqb (default [] (group 1 ml)) (js "greater"));
       [|destruct (jsstring_eqb (default [] (group 1 ml)) (js "shorter")
                   || jsstring_eqb (default [] (group 1 ml)) (js "less"))]|]);
  destruct (includes q (js "palindrome") || includes q (js "palindromic"));
  destruct (includes q (js "single word"));
  (split; [unfold interpreted|]);
  cbn [Filters.is_palindrome Filters.min_length Filters.max_length
       Filters.word_count Filters.contains_character Filters.empty
       Filters.set_is_palindrome Filters.set_min_length Filters.set_max_length
       Filters.set_word_count Filters.set_contains_character];
  auto;
  (split; [auto|split; [auto|split; [|split]]]);
  intros v Hv; try discriminate; injection Hv as <-; eauto.
Qed.

(** X15.  The first variant's interpreter never returns the conflict: its
    one length rule sets [min_length] or [max_length], never both, so the
    filter object it returns is always the one its rules build.  That
    object is typed: the flag is absent or [true], the word count absent or
    1, the character absent or one unit of [[A-Za-z0-9_]], and a length
    absent or a number that is not NaN: an integer ([min_length] at least
    1, [max_length] at least -1) or [Infinity], which a run of digits too
    large for a number gives.  Unless a length is [Infinity], the object holds
    a typed filter set. *)
Theorem V1_interpreter_typed (query : jsstring) :
  V1.parseNaturalLanguage query = Parsed (V1.extract query) /\
  (Filters.min_length (V1.extract query) = None
   \/ Filters.max_length (V1.extract query) = None) /\
  (Filters.is_palindrome (V1.extract query) = None
   \/ Filters.is_palindrome (V1.extract query) = Some (VBool true)) /\
  (Filters.word_count (V1.extract query) = None
   \/ Filters.word_count (V1.extract query) = Some (VNum 1)) /\
  (forall v, Filters.contains_character (V1.extract query) = Some v ->
     exists c, v = VStr [c] /\ is_word c = true) /\
  (forall v, Filters.min_length (V1.extract query) = Some v ->
     v = VInfinity false \/ exists n, v = VNum n /\ 1 <= n) /\
  (forall v, Filters.max_length (V1.extract query) = Some v ->
     v = VInfinity false \/ exists n, v = VNum n /\ -1 <= n) /\
  (Filters.min_length (V1.extract query) = Some (VInfinity false)
   \/ Filters.max_length (V1.extract query) = Some (VInfinity false)
   \/ exists fs : FilterSet.t, V1.extract query = filters_of fs).
Proof.
  split; [apply V1_never_conflict|].
  destruct (V1_extract_interpreted query) as [Hi Hone].
  pose proof (interpreted_filter_set _ _ _ _ Hi) as Hfs.
  destruct Hi as (Hip & Hwc & Hcc & Hmn & Hmx).
  split; [exact Hone|]. split; [exact Hip|]. split; [exact Hwc|].
  split; [exact Hcc|]. split; [exact Hmn|]. split; [exact Hmx|exact Hfs].
Qed.

End FirstInterpreter.

(** ** The natural-language routes *)

Section NaturalLanguageRoutes.
Context `{CaseMapping}.

Lemma no_keys_empty : no_keys Filters.empty = true.
Proof. reflexivity. Qed.

Lemma interpreted_applied (p : Z -> bool) (lo hi : Z) (f : Filters.t)
    (availableData : list Rec.t) :
  interpreted p lo hi f ->
  Filters.min_length f = Some (VInfinity false)
  \/ Filters.max_length f = Some (VInfinity false)
  \/ exists fs : FilterSet.t,
       f = filters_of fs /\
       (safe_filter_set fs ->
        applyFilters availableData f = List.filter (satisfies fs) availableData).
Proof.
  intros Hi. destruct (interpreted_filter_set _ _ _ _ Hi) as [E|[E|[fs ->]]];
    [now left | now right; left | right; right].
  exists fs. split; [reflexivity|]. apply applyFilters_filter.
Qed.

(** An infinite length is read as NaN by the engine, which skips it. *)
Lemma infinite_length_skipped (availableData : list Rec.t) (f : Filters.t) :
  (Filters.min_length f = Some (VInfinity false) ->
   applyFilters availableData f
   = applyFilters availableData
       (Filters.mk (Filters.is_palindrome f) None (Filters.max_length f)
          (Filters.word_count f) (Filters.contains_character f))) /\
  (Filters.max_length f = Some (VInfinity false) ->
   applyFilters availableData f
   = applyFilters availableData
       (Filters.mk (Filters.is_palindrome f) (Filters.min_length f) None
          (Filters.word_count f) (Filters.contains_character f))).
Proof.
  destruct f as [ip mn mx wc cc]. unfold applyFilters.
  cbn [Filters.is_palindrome Filters.min_length Filters.max_length
       Filters.word_count Filters.contains_character].
  split; intros ->; reflexivity.
Qed.

(** X16.  When the natural-language route of the second variant answers
    with data, the query was a string with a trim that is not empty, the
    interpreter returned a filter object with at least one filter, the data
    is what the engine keeps of the store listing under that object, the
    count is its length, and the answer echoes the query as it was sent.
    A length of the object that is [Infinity] is skipped by the engine.
    Otherwise the object holds a typed filter set, and when its integers
    are ones a number holds exactly the data is the store listing filtered
    by every filter of the set. *)
Theorem V2_natural_language_route (availableData data : list Rec.t)
    (q : option jsstring) (count : Z) (original : jsstring) (pf : Filters.t) :
  V2_filter_by_natural_language availableData q = NLOk data count original pf ->
  q = Some original /\
  trim original <> [] /\
  V2.parseNaturalLanguage original = Parsed pf /\
  no_keys pf = false /\
  count = Z.of_nat (length data) /\
  data = applyFilters availableData pf /\
  sublist data availableData /\
  (Filters.min_length pf = Some (VInfinity false) ->
   data = applyFilters availableData
            (Filters.mk (Filters.is_palindrome pf) None (Filters.max_length pf)
               (Filters.word_count pf) (Filters.contains_character pf))) /\
  (Filters.max_length pf = Some (VInfinity false) ->
   data = applyFilters availableData
            (Filters.mk (Filters.is_palindrome pf) (Filters.min_length pf) None
               (Filters.word_count pf) (Filters.contains_character pf))) /\
  (Filters.min_length pf = Some (VInfinity false)
   \/ Filters.max_length pf = Some (VInfinity false)
   \/ exists fs : FilterSet.t,
        pf = filters_of fs /\
        (safe_filter_set fs -> data = List.filter (satisfies fs) availableData)).
Proof.
  unfold V2_filter_by_natural_language. destruct q as [s|]; [|discriminate].
  destruct (trim s) as [|c t] eqn:Et; [discriminate|].
  destruct (V2.parseNaturalLanguage s) as [f|] eqn:Ep; [|discriminate].
  destruct (no_keys f) eqn:Ek; [discriminate|]. intros [= <- <- <- <-].
  split; [reflexivity|]. split; [rewrite Et; discriminate|].
  split; [exact Ep|]. split; [exact Ek|]. split; [reflexivity|].
  split; [reflexivity|]. split.
  { rewrite applyFilters_passes. apply filter_sublist. }
  split; [apply infinite_length_skipped|].
  split; [apply infinite_length_skipped|].
  assert (Hn : V2.normalize s <> []).
  { intros En. unfold V2.parseNaturalLanguage in Ep. rewrite En in Ep.
    injection Ep as <-. discriminate. }
  rewrite (V2_parsed_rules _ _ Ep Hn).
  exact (interpreted_applied _ _ _ _ availableData
           (V2_rules_interpreted (V2.normalize s))).
Qed.

(** X17.  The natural-language handler of the first variant never answers
    with the conflict.  When it answers with data, the query was a string
    that is not empty, the filter object is the one the rules built and
    holds at least one filter, the data is what the engine keeps of the
    store listing under that object, and the count is its length.  A
    length of the object that is [Infinity] is skipped by the engine.
    Otherwise the object holds a typed filter set, and when its integers
    are ones a number holds exactly the data is the store listing filtered
    by every filter of the set. *)
Theorem V1_natural_language_route (availableData : list Rec.t) (q : option jsstring) :
  V1_filter_by_natural_language availableData q <> ConflictingFilters /\
  forall data count original pf,
    V1_filter_by_natural_language availableData q = NLOk data count original pf ->
    q = Some original /\ original <> [] /\
    pf = V1.extract original /\
    no_keys pf = false /\
    count = Z.of_nat (length data) /\
    data = applyFilters availableData pf /\
    sublist data availableData /\
    (Filters.min_length pf = Some (VInfinity false) ->
     data = applyFilters availableData
              (Filters.mk (Filters.is_palindrome pf) None (Filters.max_length pf)
                 (Filters.word_count pf) (Filters.contains_character pf))) /\
    (Filters.max_length pf = Some (VInfinity false) ->
     data = applyFilters availableData
              (Filters.mk (Filters.is_palindrome pf) (Filters.min_length pf) None
                 (Filters.word_count pf) (Filters.contains_character pf))) /\
    (Filters.min_length pf = Some (VInfinity false)
     \/ Filters.max_length pf = Some (VInfinity false)
     \/ exists fs : FilterSet.t,
          pf = filters_of fs /\
          (safe_filter_set fs -> data = List.filter (satisfies fs) availableData)).
Proof.
  unfold V1_filter_by_natural_language. split.
  - destruct q as [[|c s]|]; try discriminate.
    rewrite V1_never_conflict. destruct (no_keys _); discriminate.
  - intros data count original pf. destruct q as [[|c s]|]; try discriminate.
    rewrite V1_never_conflict.
    destruct (no_keys (V1.extract (c :: s))) eqn:Ek; [discriminate|].
    intros [= <- <- <- <-].
    split; [reflexivity|]. split; [discriminate|]. split; [reflexivity|].
    split; [exact Ek|]. split; [reflexivity|]. split; [reflexivity|]. split.
    { rewrite applyFilters_passes. apply filter_sublist. }
    split; [apply infinite_length_skipped|].
    split; [apply infinite_length_skipped|].
    exact (interpreted_applied _ _ _ _ availableData
             (proj1 (V1_extract_interpreted (c :: s)))).
Qed.

End NaturalLanguageRoutes.

(** ** The rules of the second variant on the phrases they read *)

Lemma before_after_nonempty (p : option Z) (l : jsstring) :
  l <> [] -> before_after p l = before_after None l.
Proof.
  intros Hl. unfold before_after. destruct (rev l) eqn:E; [|reflexivity].
  apply (f_equal (@rev Z)) in E. rewrite rev_involutive in E. now subst l.
Qed.

Lemma before_after_in_class (p : Z -> bool) (prev : option Z) (l : jsstring) :
  l <> [] -> forallb p l = true ->
  exists c, before_after prev l = Some c /\ p c = true.
Proof.
  intros Hl Hp. unfold before_after. destruct (rev l) as [|c w] eqn:E.
  - apply (f_equal (@rev Z)) in E. rewrite rev_involutive in E. now subst l.
  - exists c. split; [reflexivity|].
    apply (proj1 (forallb_forall p l) Hp). apply in_rev. rewrite E. now left.
Qed.

Lemma digit_is_word c : is_digit c = true -> is_word c = true.
Proof. unfold is_word. intros ->. now rewrite orb_true_r. Qed.

Lemma digit_string_before (prev : option Z) (ds : jsstring) :
  digit_string ds -> is_word_at (before_after prev ds) = true.
Proof.
  intros [Hne Hds]. destruct (before_after_in_class _ prev _ Hne Hds) as (c & -> & Hc).
  now apply digit_is_word.
Qed.

Lemma nonword_head_outside_digit (post : jsstring) :
  is_word_at (head post) = false -> head_outside is_digit post.
Proof.
  destruct post as [|c t]; simpl; [easy|]. intros Hw.
  destruct (is_digit c) eqn:E; [|reflexivity]. now rewrite (digit_is_word c E) in Hw.
Qed.

Lemma digit_head_outside_space (ds r : jsstring) :
  digit_string ds -> head_outside is_space (ds ++ r).
Proof.
  intros [Hne Hds]. destruct ds as [|c t]; [congruence|]. simpl in *.
  apply andb_prop in Hds as [Hc _]. unfold is_digit, is_space, in_range in *. lia.
Qed.

Lemma space_head_outside_digit (ws r : jsstring) :
  space_run ws -> head_outside is_digit (ws ++ r).
Proof.
  intros [Hne Hws]. destruct ws as [|c t]; [congruence|]. simpl in *.
  apply andb_prop in Hws as [Hc _]. unfold is_digit, is_space, in_range in *. lia.
Qed.

(** *** Palindromes *)

Lemma attempt_palindrome prev post :
  is_word_at prev = false ->
  is_Some (attempt V2.re_palindrome prev (js "palindrome" ++ post)).
Proof.
  intros Hp. eexists. unfold attempt, V2.re_palindrome.
  apply run_Alt_l. rewrite run_Seq_eq. apply run_WordB_ok.
  - cbn [before rest]. now rewrite Hp.
  - now apply run_Lit_app.
Qed.

Lemma attempt_palindromic prev post :
  is_word_at (head post) = false ->
  is_Some (attempt V2.re_palindrome prev (js "palindromic" ++ post)).
Proof.
  intros Hp. eexists. unfold attempt, V2.re_palindrome.
  apply run_Alt_r.
  - cbn [run before rest caps]. destruct (xorb _ _); reflexivity.
  - rewrite run_Seq_eq. apply run_Lit_app. apply run_WordB_ok; [|reflexivity].
    cbn [before rest]. now rewrite Hp.
Qed.

Section SecondRules.
Context `{CaseMapping}.

(** X18.  The palindrome rule of the second variant: a query whose
    normalized text holds [palindrome] at the start of a word, or
    [palindromic] at the end of a word, gets [is_palindrome = true] in the
    filter set the interpreter returns. *)
Theorem V2_palindrome_rule (queryRaw pre post : jsstring) (f : Filters.t) :
  (V2.normalize queryRaw = pre ++ js "palindrome" ++ post /\
   is_word_at (before_after None pre) = false) \/
  (V2.normalize queryRaw = pre ++ js "palindromic" ++ post /\
   is_word_at (head post) = false) ->
  V2.parseNaturalLanguage queryRaw = Parsed f ->
  Filters.is_palindrome f = Some (VBool true).
Proof.
  intros Hq Hf. apply V2_parsed_rules in Hf.
  2:{ destruct Hq as [[-> _]|[-> _]]; intros E; apply app_eq_nil in E as [_ E];
      discriminate. }
  subst f. rewrite rules_is_palindrome. unfold test, exec.
  destruct Hq as [[-> Hb]|[-> Hb]].
  - destruct (search_from_finds V2.re_palindrome None pre (js "palindrome" ++ post))
      as [m ->]; [|reflexivity]. now apply attempt_palindrome.
  - destruct (search_from_finds V2.re_palindrome None pre (js "palindromic" ++ post))
      as [m ->]; [|reflexivity]. now apply attempt_palindromic.
Qed.

End SecondRules.

(** *** The first vowel *)

Lemma attempt_first_vowel prev ws post :
  space_run ws -> is_word_at prev = false -> is_word_at (head post) = false ->
  is_Some (attempt V2.re_first_vowel prev (js "first" ++ ws ++ js "vowel" ++ post)).
Proof.
  intros [Hne Hws] Hprev Hpost. eexists. unfold attempt, V2.re_first_vowel.
  rewrite run_Seq_eq. apply run_WordB_ok; [cbn [before rest]; now rewrite Hprev|].
  rewrite run_Seq_eq. apply run_Lit_app.
  rewrite run_Seq_eq. apply run_Plus_app; [exact Hne|exact Hws|reflexivity|].
  rewrite run_Seq_eq. apply run_Lit_app. apply run_WordB_ok; [|reflexivity].
  cbn [before rest]. now rewrite Hpost.
Qed.

Section FirstVowel.
Context `{CaseMapping}.

(** X19.  The first-vowel rule of the second variant: a query whose
    normalized text holds [first], white space and [vowel] as whole words
    gets [contains_character = "a"] in the filter set the interpreter
    returns, whatever else the query holds. *)
Theorem V2_first_vowel_rule (queryRaw pre ws post : jsstring) (f : Filters.t) :
  V2.normalize queryRaw = pre ++ js "first" ++ ws ++ js "vowel" ++ post ->
  space_run ws ->
  is_word_at (before_after None pre) = false ->
  is_word_at (head post) = false ->
  V2.parseNaturalLanguage queryRaw = Parsed f ->
  Filters.contains_character f = Some (VStr (js "a")).
Proof.
  intros Hq Hws Hpre Hpost Hf. apply V2_parsed_rules in Hf.
  2:{ rewrite Hq. intros E. apply app_eq_nil in E as [_ E]. discriminate. }
  subst f. rewrite rules_contains_character, Hq. unfold test, exec.
  destruct (search_from_finds V2.re_first_vowel None pre
              (js "first" ++ ws ++ js "vowel" ++ post)) as [m ->]; [|reflexivity].
  now apply attempt_first_vowel.
Qed.

End FirstVowel.

(** *** The length rules *)

Lemma run_digits_boundary (i : nat) (p : option Z) (ds post : jsstring)
    (cs : list (nat * jsstring)) :
  digit_string ds -> is_word_at (head post) = false ->
  run (Group i (Plus is_digit) +> WordB)%re Some (MState p (ds ++ post) cs)
  = Some (MState (before_after None ds) post ((i, ds) :: cs)).
Proof.
  intros Hds Hpost. rewrite run_Seq_eq, run_Group_eq.
  apply run_Plus_app; [apply Hds | apply Hds | now apply nonword_head_outside_digit |].
  cbn [before rest caps]. rewrite firstn_app_diff.
  rewrite (before_after_nonempty p ds) by apply Hds.
  apply run_WordB_ok; [|reflexivity]. cbn [before rest].
  now rewrite (digit_string_before None ds Hds), Hpost.
Qed.

Lemma run_than_tail (p : option Z) (ws1 ws2 ds post : jsstring)
    (cs : list (nat * jsstring)) :
  space_run ws1 -> space_run ws2 -> digit_string ds ->
  is_word_at (head post) = false ->
  run (Plus is_space +> Lit (js "than") +> Plus is_space
       +> Group 2 (Plus is_digit) +> WordB)%re Some
      (MState p (ws1 ++ js "than" ++ ws2 ++ ds ++ post) cs)
  = Some (MState (before_after None ds) post ((2%nat, ds) :: cs)).
Proof.
  intros [Hn1 Hw1] [Hn2 Hw2] Hds Hpost.
  rewrite run_Seq_eq. apply run_Plus_app; [exact Hn1|exact Hw1|reflexivity|].
  rewrite run_Seq_eq. apply run_Lit_app.
  rewrite run_Seq_eq.
  apply run_Plus_app; [exact Hn2|exact Hw2|now apply digit_head_outside_space|].
  now apply run_digits_boundary.
Qed.

Lemma attempt_longer (prev : option Z) (kw ws1 ws2 ds post : jsstring) :
  kw = js "longer" \/ kw = js "greater" ->
  space_run ws1 -> space_run ws2 -> digit_string ds ->
  is_word_at prev = false -> is_word_at (head post) = false ->
  exists m, attempt V2.re_longer prev (kw ++ ws1 ++ js "than" ++ ws2 ++ ds ++ post)
            = Some m /\ group 2 m = Some ds.
Proof.
  intros Hkw H1 H2 Hds Hprev Hpost. unfold attempt, V2.re_longer.
  destruct Hkw as [-> | ->]; eexists; (split; [|shelve]); rewrite run_Seq_eq;
    (apply run_WordB_ok; [cbn [before rest]; rewrite Hprev; reflexivity|]);
    rewrite run_Seq_eq, run_Group_eq.
  - apply run_Alt_l, run_Lit_app. cbn [before rest caps]. now apply run_than_tail.
  - apply run_Alt_r; [reflexivity|]. apply run_Lit_app. cbn [before rest caps].
    now apply run_than_tail.
  Unshelve. all: reflexivity.
Qed.

Lemma attempt_shorter (prev : option Z) (kw ws1 ws2 ds post : jsstring) :
  kw = js "shorter" \/ kw = js "less" ->
  space_run ws1 -> space_run ws2 -> digit_string ds ->
  is_word_at prev = false -> is_word_at (head post) = false ->
  exists m, attempt V2.re_shorter prev (kw ++ ws1 ++ js "than" ++ ws2 ++ ds ++ post)
            = Some m /\ group 2 m = Some ds.
Proof.
  intros Hkw H1 H2 Hds Hprev Hpost. unfold attempt, V2.re_shorter.
  destruct Hkw as [-> | ->]; eexists; (split; [|shelve]); rewrite run_Seq_eq;
    (apply run_WordB_ok; [cbn [before rest]; rewrite Hprev; reflexivity|]);
    rewrite run_Seq_eq, run_Group_eq.
  - apply run_Alt_l, run_Lit_app. cbn [before rest caps]. now apply run_than_tail.
  - apply run_Alt_r; [reflexivity|]. apply run_Lit_app. cbn [before rest caps].
    now apply run_than_tail.
  Unshelve. all: reflexivity.
Qed.

Lemma run_Lit_s_nonword (k : mstate -> option mstate) (p : option Z)
    (post : jsstring) (cs : list (nat * jsstring)) :
  is_word_at (head post) = false ->
  run (Lit (js "s")) k (MState p post cs) = None.
Proof.
  intros Hw. cbn [run before rest caps]. destruct post as [|c t]; [reflexivity|].
  cbn [eat js list_ascii_of_string map]. simpl in Hw.
  destruct (_ =? c) eqn:E; [|reflexivity].
  apply Z.eqb_eq in E. subst c. discriminate Hw.
Qed.

Lemma run_characters_tail (p : option Z) (plural post : jsstring)
    (cs : list (nat * jsstring)) :
  plural = [] \/ plural = js "s" ->
  is_word_at (head post) = false ->
  exists b,
    run (Lit (js "character") +> Opt (Lit (js "s")) +> WordB)%re Some
        (MState p (js "character" ++ plural ++ post) cs)
    = Some (MState b post cs).
Proof.
  intros Hpl Hpost. destruct Hpl as [-> | ->]; eexists; rewrite run_Seq_eq;
    apply run_Lit_app; rewrite run_Seq_eq; unfold Opt.
  - apply run_Alt_r; [now apply run_Lit_s_nonword|]. cbn [run app].
    cbn [before rest]. rewrite Hpost. reflexivity.
  - apply run_Alt_l, run_Lit_app. apply run_WordB_ok; [|reflexivity].
    cbn [before rest]. rewrite Hpost. reflexivity.
Qed.

Lemma attempt_exactly (prev : option Z) (kw ws1 ds ws2 plural post : jsstring) :
  kw = js "exactly" \/ kw = js "of" ->
  space_run ws1 -> space_run ws2 -> digit_string ds ->
  plural = [] \/ plural = js "s" ->
  is_word_at prev = false -> is_word_at (head post) = false ->
  exists m,
    attempt V2.re_exactly prev
      (kw ++ ws1 ++ ds ++ ws2 ++ js "character" ++ plural ++ post) = Some m /\
    group 1 m = Some ds.
Proof.
  intros Hkw [Hn1 Hw1] [Hn2 Hw2] Hds Hpl Hprev Hpost.
  assert (Htail : forall p cs, exists b,
    run (Plus is_space +> Group 1 (Plus is_digit) +> Plus is_space
         +> Lit (js "character") +> Opt (Lit (js "s")) +> WordB)%re Some
        (MState p (ws1 ++ ds ++ ws2 ++ js "character" ++ plural ++ post) cs)
    = Some (MState b post ((1%nat, ds) :: cs))).
  { intros p cs.
    destruct (run_characters_tail (before_after None ws2) plural post
                ((1%nat, ds) :: cs) Hpl Hpost) as [b Hb].
    exists b. rewrite run_Seq_eq.
    apply run_Plus_app; [exact Hn1|exact Hw1|now apply digit_head_outside_space|].
    rewrite run_Seq_eq, run_Group_eq.
    apply run_Plus_app;
      [apply Hds | apply Hds | now apply space_head_outside_digit |].
    cbn [before rest caps]. rewrite firstn_app_diff. rewrite run_Seq_eq.
    apply run_Plus_app; [exact Hn2|exact Hw2|reflexivity|].
    rewrite (before_after_nonempty _ ws2) by exact Hn2. exact Hb. }
  unfold attempt, V2.re_exactly.
  destruct Hkw as [-> | ->].
  - destruct (Htail (before_after prev (js "exactly")) []) as [b Hb].
    eexists. split; [|shelve]. rewrite run_Seq_eq.
    apply run_WordB_ok; [cbn [before rest]; rewrite Hprev; reflexivity|].
    rewrite run_Seq_eq. apply run_Alt_l, run_Lit_app. exact Hb.
    Unshelve. reflexivity.
  - destruct (Htail (before_after prev (js "of")) []) as [b Hb].
    eexists. split; [|shelve]. rewrite run_Seq_eq.
    apply run_WordB_ok; [cbn [before rest]; rewrite Hprev; reflexivity|].
    rewrite run_Seq_eq. apply run_Alt_r; [reflexivity|]. apply run_Lit_app. exact Hb.
    Unshelve. reflexivity.
Qed.

Lemma num_plus_safe (n k : Z) :
  safe_integer n -> safe_integer (n + k) -> num_plus (Some n) k = VNum (n + k).
Proof.
  intros Hn Hk. unfold num_plus, parseInt_number.
  rewrite (Number_of_safe n Hn). now apply Number_of_safe.
Qed.

Section LengthRules.
Context `{CaseMapping}.

(** X20.  The longer-than rule of the second variant: when the leftmost
    phrase [longer than N] or [greater than N] of the normalized text is as
    below (whole words, any white space, [N] a run of digits) and the text
    has no [exactly N characters] phrase, a filter set the interpreter
    returns has [min_length = N + 1]. *)
Theorem V2_longer_rule (queryRaw pre kw ws1 ws2 ds post : jsstring) (f : Filters.t) :
  V2.normalize queryRaw = pre ++ kw ++ ws1 ++ js "than" ++ ws2 ++ ds ++ post ->
  kw = js "longer" \/ kw = js "greater" ->
  space_run ws1 -> space_run ws2 -> digit_string ds ->
  is_word_at (before_after None pre) = false ->
  is_word_at (head post) = false ->
  no_match_before V2.re_longer None (V2.normalize queryRaw) (length pre) ->
  exec V2.re_exactly (V2.normalize queryRaw) = None ->
  safe_integer (digits_value 0 ds + 1) ->
  V2.parseNaturalLanguage queryRaw = Parsed f ->
  Filters.min_length f = Some (VNum (digits_value 0 ds + 1)).
Proof.
  intros Hq Hkw H1 H2 Hds Hpre Hpost Hno Hex Hsafe Hf.
  apply V2_parsed_rules in Hf.
  2:{ rewrite Hq. intros E. apply app_eq_nil in E as [_ E].
      apply app_eq_nil in E as [E _]. destruct Hkw; subst kw; discriminate. }
  subst f. rewrite rules_min_length, Hex.
  destruct (attempt_longer (before_after None pre) kw ws1 ws2 ds post
              Hkw H1 H2 Hds Hpre Hpost) as (m & Hm & Hg).
  rewrite Hq in Hno |- *. unfold exec.
  rewrite (search_from_leftmost _ _ _ _ _ Hno Hm), Hg. simpl default.
  destruct (parseInt_digit_string ds Hds) as [-> Hn].
  rewrite num_plus_safe; [reflexivity| |exact Hsafe].
  unfold safe_integer in *. lia.
Qed.

(** X21.  The shorter-than rule of the second variant: when the leftmost
    phrase [shorter than N] or [less than N] of the normalized text is as
    below and the text has no [exactly N characters] phrase, a filter set
    the interpreter returns has [max_length = N - 1]. *)
Theorem V2_shorter_rule (queryRaw pre kw ws1 ws2 ds post : jsstring) (f : Filters.t) :
  V2.normalize queryRaw = pre ++ kw ++ ws1 ++ js "than" ++ ws2 ++ ds ++ post ->
  kw = js "shorter" \/ kw = js "less" ->
  space_run ws1 -> space_run ws2 -> digit_string ds ->
  is_word_at (before_after None pre) = false ->
  is_word_at (head post) = false ->
  no_match_before V2.re_shorter None (V2.normalize queryRaw) (length pre) ->
  exec V2.re_exactly (V2.normalize queryRaw) = None ->
  safe_integer (digits_value 0 ds) ->
  V2.parseNaturalLanguage queryRaw = Parsed f ->
  Filters.max_length f = Some (VNum (digits_value 0 ds - 1)).
Proof.
  intros Hq Hkw H1 H2 Hds Hpre Hpost Hno Hex Hsafe Hf.
  apply V2_parsed_rules in Hf.
  2:{ rewrite Hq. intros E. apply app_eq_nil in E as [_ E].
      apply app_eq_nil in E as [E _]. destruct Hkw; subst kw; discriminate. }
  subst f. rewrite rules_max_length, Hex.
  destruct (attempt_shorter (before_after None pre) kw ws1 ws2 ds post
              Hkw H1 H2 Hds Hpre Hpost) as (m & Hm & Hg).
  rewrite Hq in Hno |- *. unfold exec.
  rewrite (search_from_leftmost _ _ _ _ _ Hno Hm), Hg. simpl default.
  destruct (parseInt_digit_string ds Hds) as [-> Hn].
  rewrite num_plus_safe; [reflexivity|exact Hsafe|].
  unfold safe_integer in *. lia.
Qed.

(** X22.  The exactly rule of the second variant comes last and overrides
    the other length rules: when the leftmost phrase [exactly N characters]
    or [of N characters] (or with [character]) of the normalized text is as
    below, the interpreter
    returns a filter set, never the conflict, and the set has
    [min_length = max_length = N]. *)
Theorem V2_exactly_rule
    (queryRaw pre kw ws1 ds ws2 plural post : jsstring) :
  V2.normalize queryRaw
  = pre ++ kw ++ ws1 ++ ds ++ ws2 ++ js "character" ++ plural ++ post ->
  kw = js "exactly" \/ kw = js "of" ->
  space_run ws1 -> space_run ws2 -> digit_string ds ->
  plural = [] \/ plural = js "s" ->
  is_word_at (before_after None pre) = false ->
  is_word_at (head post) = false ->
  no_match_before V2.re_exactly None (V2.normalize queryRaw) (length pre) ->
  safe_integer (digits_value 0 ds) ->
  exists f,
    V2.parseNaturalLanguage queryRaw = Parsed f /\
    Filters.min_length f = Some (VNum (digits_value 0 ds)) /\
    Filters.max_length f = Some (VNum (digits_value 0 ds)).
Proof.
  intros Hq Hkw H1 H2 Hds Hpl Hpre Hpost Hno Hsafe.
  destruct (attempt_exactly (before_after None pre) kw ws1 ds ws2 plural post
              Hkw H1 H2 Hds Hpl Hpre Hpost) as (m & Hm & Hg).
  assert (Hex : exec V2.re_exactly (V2.normalize queryRaw) = Some m).
  { rewrite Hq in Hno |- *. apply (search_from_leftmost _ _ _ _ _ Hno Hm). }
  assert (Hmin : Filters.min_length (V2.rules (V2.normalize queryRaw))
                 = Some (VNum (digits_value 0 ds))).
  { rewrite rules_min_length, Hex, Hg. simpl default.
    rewrite (proj1 (parseInt_digit_string ds Hds)). simpl parseInt_number.
    now rewrite Number_of_safe. }
  assert (Hmax : Filters.max_length (V2.rules (V2.normalize queryRaw))
                 = Some (VNum (digits_value 0 ds))).
  { rewrite rules_max_length, Hex, Hg. simpl default.
    rewrite (proj1 (parseInt_digit_string ds Hds)). simpl parseInt_number.
    now rewrite Number_of_safe. }
  exists (V2.rules (V2.normalize queryRaw)). split; [|now split].
  unfold V2.parseNaturalLanguage.
  destruct (V2.normalize queryRaw) as [|c t] eqn:En.
  - symmetry in Hq. apply app_eq_nil in Hq as [_ E].
    apply app_eq_nil in E as [E _]. destruct Hkw; subst kw; discriminate.
  - unfold Filters.conflicting. rewrite Hmin, Hmax. simpl.
    now rewrite Z.ltb_irrefl.
Qed.

End LengthRules.

Section MoreRules.
Context `{CaseMapping}.

(** X23.  The single-word rule of the second variant: a query whose
    normalized text holds [single] or [one], white space and [word] as
    whole words gets [word_count = 1] in the filter set the interpreter
    returns. *)
Theorem V2_single_word_whole_words (queryRaw pre kw ws post : jsstring)
    (f : Filters.t) :
  V2.normalize queryRaw = pre ++ kw ++ ws ++ js "word" ++ post ->
  kw = js "single" \/ kw = js "one" ->
  space_run ws ->
  is_word_at (before_after None pre) = false ->
  is_word_at (head post) = false ->
  V2.parseNaturalLanguage queryRaw = Parsed f ->
  Filters.word_count f = Some (VNum 1).
Proof.
  intros Hq Hkw [Hne Hws] Hpre Hpost Hf.
  now apply (V2_single_word_rule queryRaw pre kw ws post f).
Qed.

(** X24.  The conflict of the second variant, from the phrases of the
    query: when the leftmost phrase [longer than N] (or [greater than N])
    and the leftmost phrase [shorter than M] (or [less than M]) of the
    normalized text are as below, the text has no [exactly N characters]
    phrase, and [M - 1] is below [N + 1], the interpreter returns the
    conflict.  [N + 1] and [M] are integers a number holds exactly. *)
Theorem V2_conflict_phrases
    (queryRaw pre kw ws1 ws2 ds post pre' kw' ws1' ws2' ds' post' : jsstring) :
  V2.normalize queryRaw = pre ++ kw ++ ws1 ++ js "than" ++ ws2 ++ ds ++ post ->
  kw = js "longer" \/ kw = js "greater" ->
  space_run ws1 -> space_run ws2 -> digit_string ds ->
  is_word_at (before_after None pre) = false ->
  is_word_at (head post) = false ->
  no_match_before V2.re_longer None (V2.normalize queryRaw) (length pre) ->
  V2.normalize queryRaw
  = pre' ++ kw' ++ ws1' ++ js "than" ++ ws2' ++ ds' ++ post' ->
  kw' = js "shorter" \/ kw' = js "less" ->
  space_run ws1' -> space_run ws2' -> digit_string ds' ->
  is_word_at (before_after None pre') = false ->
  is_word_at (head post') = false ->
  no_match_before V2.re_shorter None (V2.normalize queryRaw) (length pre') ->
  exec V2.re_exactly (V2.normalize queryRaw) = None ->
  safe_integer (digits_value 0 ds + 1) ->
  safe_integer (digits_value 0 ds') ->
  digits_value 0 ds' - 1 < digits_value 0 ds + 1 ->
  V2.parseNaturalLanguage queryRaw = ParseConflict.
Proof.
  intros Hq Hkw H1 H2 Hds Hpre Hpost Hno Hq' Hkw' H1' H2' Hds' Hpre' Hpost' Hno'
    Hex Hsafe Hsafe' Hlt.
  destruct (parseInt_digit_string ds Hds) as [Hp Hn].
  destruct (parseInt_digit_string ds' Hds') as [Hp' Hn'].
  apply (V2_conflict_rule queryRaw (digits_value 0 ds + 1) (digits_value 0 ds' - 1)).
  - rewrite Hq. intros E. apply app_eq_nil in E as [_ E].
    apply app_eq_nil in E as [E _]. destruct Hkw; subst kw; discriminate.
  - rewrite rules_min_length, Hex.
    destruct (attempt_longer (before_after None pre) kw ws1 ws2 ds post
                Hkw H1 H2 Hds Hpre Hpost) as (m & Hm & Hg).
    rewrite Hq in Hno |- *. unfold exec.
    rewrite (search_from_leftmost _ _ _ _ _ Hno Hm), Hg. simpl default.
    rewrite Hp, num_plus_safe; [reflexivity| |exact Hsafe].
    unfold safe_integer in *. lia.
  - rewrite rules_max_length, Hex.
    destruct (attempt_shorter (before_after None pre') kw' ws1' ws2' ds' post'
                Hkw' H1' H2' Hds' Hpre' Hpost') as (m & Hm & Hg).
    rewrite Hq' in Hno' |- *. unfold exec.
    rewrite (search_from_leftmost _ _ _ _ _ Hno' Hm), Hg. simpl default.
    rewrite Hp', num_plus_safe; [reflexivity|exact Hsafe'|].
    unfold safe_integer in *. lia.
  - exact Hlt.
Qed.

End MoreRules.

Section WriteRoutes.
Context `{CaseMapping}.

(** X25.  Creating a value twice: when the trimmed value is not empty and
    nothing is stored under its key (and, in the second variant, it is not
    the name of an inherited property), the first create answers [Created]
    with the analysis of the trimmed value and stores it under the key, and
    a later create of any value with the same trim answers [Duplicate] and
    leaves the store as it is. *)
Theorem create_twice (now now' v v' : jsstring) (st : gmap (list Z) Rec.t) :
  trim v <> [] -> trim v' = trim v ->
  let r := analyzeString now (trim v) in
  (st !! sha256_hex (trim v) = None ->
   V1.post_strings now (Some (VStr v)) st
   = (Created r, <[sha256_hex (trim v) := r]> st) /\
   V1.post_strings now' (Some (VStr v')) (<[sha256_hex (trim v) := r]> st)
   = (Duplicate, <[sha256_hex (trim v) := r]> st)) /\
  (inherited (trim v) = false -> st !! trim v = None ->
   V2.post_strings now (Some (VStr v)) st = (Created r, <[trim v := r]> st) /\
   V2.post_strings now' (Some (VStr v')) (<[trim v := r]> st)
   = (Duplicate, <[trim v := r]> st)).
Proof.
  intros Hne Hv' r. split.
  - intros Hst. now apply V1_create_twice.
  - intros Hi Hst. now apply V2_create_twice.
Qed.

(** X26.  A create that does not answer [Created] (a missing field, a value
    that is not a string, a value with an empty trim, a duplicate) leaves
    the store exactly as it was, in both variants. *)
Theorem failed_create_unchanged (now : jsstring) (value : option jsval)
    (st st' : gmap (list Z) Rec.t) (resp : post_response) :
  (forall r, resp <> Created r) ->
  (V1.post_strings now value st = (resp, st') -> st' = st) /\
  (V2.post_strings now value st = (resp, st') -> st' = st).
Proof.
  intros Hr. destruct (create_failure_unchanged now value st) as [H1 H2].
  split; intros Hp; [now apply (H1 resp st') | now apply (H2 resp st')].
Qed.

End WriteRoutes.

(** ** Numeric parameters of the list route *)

Lemma digits_value_app (ds junk : jsstring) (acc : Z) :
  forallb is_digit ds = true -> head_outside is_digit junk ->
  digits_value acc (ds ++ junk) = digits_value acc ds.
Proof.
  revert acc. induction ds as [|c t IH]; intros acc Hds Hj.
  - destruct junk as [|d j]; [reflexivity|]. simpl in *. now rewrite Hj.
  - simpl in Hds. apply andb_prop in Hds as [Hc Ht]. simpl. rewrite Hc.
    now apply IH.
Qed.

Lemma parseInt_leading_digits (ds junk : jsstring) :
  digit_string ds -> head_outside is_digit junk ->
  parseInt (VStr (ds ++ junk)) = Some (digits_value 0 ds).
Proof.
  intros [Hne Hall] Hj. destruct ds as [|c t]; [congruence|].
  pose proof Hall as Hds. simpl in Hds. apply andb_prop in Hds as [Hc _].
  assert (Hs : is_space c = false)
    by (unfold is_digit, is_space, in_range in *; lia).
  assert (c <> 45 /\ c <> 43) as [H45 H43]
    by (unfold is_digit, in_range in Hc; lia).
  unfold parseInt, ToString, parseInt_string. cbn [app trimStart]. rewrite Hs.
  replace (match c :: t ++ junk with
           | 43 :: t0 => (1, t0) | 45 :: t0 => (-1, t0) | _ => (1, c :: t ++ junk) end)
    with (1, c :: t ++ junk).
  - rewrite Hc. f_equal. rewrite Z.mul_1_l.
    apply (digits_value_app (c :: t) junk 0 Hall Hj).
  - destruct c as [|q|q]; try reflexivity.
    do 6 (destruct q as [q|q|]; try reflexivity; try congruence).
Qed.

Section LenientParameters.
Context `{CaseMapping}.

(** X27.  The list route reads a numeric parameter the way [parseInt]
    does: a value that starts with a run of digits is accepted whatever
    follows the digits, and the filter is applied with the number the digits
    spell.  For [min_length] alone, the route answers with the records of
    length at least that number. *)
Theorem get_strings_leading_digits (availableData : list Rec.t) (ds junk : jsstring) :
  digit_string ds -> head_outside is_digit junk ->
  let query := Filters.mk None (Some (VStr (ds ++ junk))) None None None in
  let data :=
    List.filter
      (fun r => digits_value 0 ds <=? Props.length (Rec.properties r))
      availableData in
  get_strings availableData query = ListOk data (Z.of_nat (length data)) query.
Proof.
  intros Hds Hj. cbn zeta. unfold get_strings, isInvalidInt, applyFilters.
  cbn [Filters.is_palindrome Filters.min_length Filters.max_length
       Filters.word_count Filters.contains_character].
  now rewrite (parseInt_leading_digits ds junk Hds Hj).
Qed.

End LenientParameters.

(** ** The properties above on concrete requests (Basic Latin) *)

Lemma one_record_per_value_witness :
  let now := js "2025-01-01T00:00:00.000Z" in
  let rs := [Post now (Some (VStr (js " hi "))); Post now (Some (VStr (js "ho")))] in
  let r := analyzeString now (js "hi") in
  V2.run_requests rs !! js "hi" = Some r /\
  V1.run_requests rs !! sha256_hex (js "hi") = Some r /\
  js "hi" = js "hi" /\ sha256_hex (js "hi") = sha256_hex (js "hi").
Proof.
  cbn zeta.
  set (now := js "2025-01-01T00:00:00.000Z").
  set (rs := [Post now (Some (VStr (js " hi "))); Post now (Some (VStr (js "ho")))]).
  set (r := analyzeString now (js "hi")).
  assert (H2 : V2.run_requests rs !! js "hi" = Some r) by (vm_compute; reflexivity).
  assert (H1 : V1.run_requests rs !! sha256_hex (js "hi") = Some r)
    by (vm_compute; reflexivity).
  split; [exact H2|]. split; [exact H1|]. split.
  - exact (proj2 (one_record_per_value rs (js "hi") (js "hi") r r eq_refl) H2 H2).
  - exact (proj1 (one_record_per_value rs (sha256_hex (js "hi"))
                    (sha256_hex (js "hi")) r r eq_refl) H1 H1).
Defined.

Lemma create_then_get_witness :
  let now := js "2025-01-01T00:00:00.000Z" in
  let r := analyzeString now (js "hi") in
  V2.post_strings now (Some (VStr (js " hi "))) ∅ = (Created r, {[js "hi" := r]}) /\
  get_string (js "hi") {[js "hi" := r]} = Found (OwnRecord r) /\
  V1.post_strings now (Some (VStr (js " hi "))) ∅ = (Created r, {[Rec.id r := r]}) /\
  get_string (Rec.id r) {[Rec.id r := r]} = Found (OwnRecord r).
Proof.
  cbn zeta.
  set (now := js "2025-01-01T00:00:00.000Z").
  set (r := analyzeString now (js "hi")).
  assert (H2 : V2.post_strings now (Some (VStr (js " hi "))) ∅
               = (Created r, {[js "hi" := r]})) by (vm_compute; reflexivity).
  assert (H1 : V1.post_strings now (Some (VStr (js " hi "))) ∅
               = (Created r, {[Rec.id r := r]})) by (vm_compute; reflexivity).
  split; [exact H2|]. split.
  - exact (proj1 (proj2 (create_then_get now (js " hi ") ∅ {[js "hi" := r]} r) H2)).
  - split; [exact H1|].
    exact (proj1 (proj1 (create_then_get now (js " hi ") ∅ {[Rec.id r := r]} r) H1)).
Defined.

Lemma delete_then_get_witness :
  let now := js "2025-01-01T00:00:00.000Z" in
  let r := analyzeString now (js "hi") in
  let st : gmap (list Z) Rec.t := {[js "hi" := r]} in
  get_string (js "hi") st <> GetNotFound /\
  inherited (js "hi") = false /\
  exists st', V2.delete_string (js "hi") st = (NoContent, st') /\
    get_string (js "hi") st' = GetNotFound /\
    (forall k, k <> js "hi" -> get_string k st' = get_string k st) /\
    S (size st') = size st.
Proof.
  cbn zeta.
  set (r := analyzeString (js "2025-01-01T00:00:00.000Z") (js "hi")).
  assert (Hf : get_string (js "hi") ({[js "hi" := r]} : gmap (list Z) Rec.t)
               <> GetNotFound).
  { unfold get_string, store_get. rewrite lookup_singleton_eq. discriminate. }
  assert (Hi : inherited (js "hi") = false) by reflexivity.
  split; [exact Hf|]. split; [exact Hi|].
  exact (proj2 (proj2 (delete_then_get (js "hi") {[js "hi" := r]})) Hf Hi).
Defined.

Lemma inherited_names_shadow_witness :
  let now := js "2025-01-01T00:00:00.000Z" in
  let rs := [Post now (Some (VStr (js "toString"))); Delete (js "toString")] in
  inherited (js "toString") = true /\
  V2.run_requests rs !! js "toString" = None /\
  get_string (js "toString") (V2.run_requests rs)
  = Found (InheritedValue (js "toString")) /\
  V2.delete_string (js "toString") (V2.run_requests rs)
  = (NoContent, V2.run_requests rs).
Proof.
  cbn zeta. split; [reflexivity|].
  destruct (inherited_names_shadow
              [Post (js "2025-01-01T00:00:00.000Z") (Some (VStr (js "toString")));
               Delete (js "toString")] (js "toString") eq_refl)
    as (_ & H1 & H2 & H3 & _).
  split; [exact H1|]. split; [exact H2|exact H3].
Defined.

Lemma create_then_delete_witness :
  let now := js "2025-01-01T00:00:00.000Z" in
  let r := analyzeString now (js "hi") in
  V2.post_strings now (Some (VStr (js " hi "))) ∅ = (Created r, {[js "hi" := r]}) /\
  V2.delete_string (Rec.value r) {[js "hi" := r]} = (NoContent, ∅) /\
  V1.post_strings now (Some (VStr (js " hi "))) ∅ = (Created r, {[Rec.id r := r]}) /\
  V1.delete_string (Rec.id r) {[Rec.id r := r]} = (NoContent, ∅).
Proof.
  cbn zeta.
  set (now := js "2025-01-01T00:00:00.000Z").
  set (r := analyzeString now (js "hi")).
  assert (H2 : V2.post_strings now (Some (VStr (js " hi "))) ∅
               = (Created r, {[js "hi" := r]})) by (vm_compute; reflexivity).
  assert (H1 : V1.post_strings now (Some (VStr (js " hi "))) ∅
               = (Created r, {[Rec.id r := r]})) by (vm_compute; reflexivity).
  split; [exact H2|]. split.
  - exact (proj2 (create_then_delete now (js " hi ") ∅ {[js "hi" := r]} r) H2).
  - split; [exact H1|].
    exact (proj1 (create_then_delete now (js " hi ") ∅ {[Rec.id r := r]} r) H1).
Defined.

Lemma applyFilters_more_filters_witness :
  let now := js "2025-01-01T00:00:00.000Z" in
  let data := [analyzeString now (js "level"); analyzeString now (js "hello")] in
  let f := Filters.mk None (Some (VStr (js "3"))) None None None in
  let f' := Filters.mk (Some (VStr (js "true"))) (Some (VStr (js "3"))) None None None in
  extends f f' /\
  (forall item, In item (applyFilters data f') -> In item (applyFilters data f)) /\
  applyFilters data f' = applyFilters (applyFilters data f) f'.
Proof.
  cbn zeta.
  assert (He : extends (Filters.mk None (Some (VStr (js "3"))) None None None)
                 (Filters.mk (Some (VStr (js "true"))) (Some (VStr (js "3")))
                    None None None)).
  { repeat split; intros v Hv; simpl in *; congruence. }
  split; [exact He|].
  exact (applyFilters_more_filters _ _ _ He).
Defined.

Lemma get_strings_ok_witness :
  let now := js "2025-01-01T00:00:00.000Z" in
  let level := analyzeString now (js "level") in
  let available := [level; analyzeString now (js "hello")] in
  let query :=
    Filters.mk (Some (VStr (js "TRUE"))) (Some (VStr (js "3"))) None None
      (Some (VStr [])) in
  get_strings available query = ListOk [level] 1 query /\
  [level] = applyFilters available query /\
  sublist [level] available /\
  [level] = applyFilters available
              (Filters.mk (Some (VStr (js "TRUE"))) (Some (VStr (js "3"))) None
                 None None).
Proof.
  cbn zeta.
  set (now := js "2025-01-01T00:00:00.000Z").
  set (level := analyzeString now (js "level")).
  set (available := [level; analyzeString now (js "hello")]).
  set (query := Filters.mk (Some (VStr (js "TRUE"))) (Some (VStr (js "3"))) None
                  None (Some (VStr []))).
  assert (Hg : get_strings available query = ListOk [level] 1 query)
    by (vm_compute; reflexivity).
  split; [exact Hg|].
  destruct (get_strings_ok available [level] query query 1 Hg)
    as (H1 & H2 & _ & _ & _ & _ & _ & _ & _ & H10).
  split; [exact H1|]. split; [exact H2|].
  exact (H10 (VStr []) eq_refl eq_refl).
Defined.

Lemma V2_natural_language_route_witness :
  let now := js "2025-01-01T00:00:00.000Z" in
  let level := analyzeString now (js "level") in
  let available := [level; analyzeString now (js "hello there")] in
  let pf := Filters.mk (Some (VBool true)) None None (Some (VNum 1)) None in
  V2_filter_by_natural_language available (Some (js " single word palindromes "))
  = NLOk [level] 1 (js " single word palindromes ") pf /\
  V2.parseNaturalLanguage (js " single word palindromes ") = Parsed pf /\
  no_keys pf = false.
Proof.
  cbn zeta.
  set (now := js "2025-01-01T00:00:00.000Z").
  set (level := analyzeString now (js "level")).
  set (available := [level; analyzeString now (js "hello there")]).
  set (pf := Filters.mk (Some (VBool true)) None None (Some (VNum 1)) None).
  assert (Hr : V2_filter_by_natural_language available
                 (Some (js " single word palindromes "))
               = NLOk [level] 1 (js " single word palindromes ") pf)
    by (vm_compute; reflexivity).
  split; [exact Hr|].
  destruct (V2_natural_language_route available [level] _ 1 _ pf Hr)
    as (_ & _ & H3 & H4 & _).
  split; [exact H3|exact H4].
Defined.

Lemma V1_natural_language_route_witness :
  let now := js "2025-01-01T00:00:00.000Z" in
  let level := analyzeString now (js "level") in
  let available := [level; analyzeString now (js "hello there")] in
  let pf := Filters.mk (Some (VBool true)) None None (Some (VNum 1)) None in
  V1_filter_by_natural_language available (Some (js "single word palindromes"))
  = NLOk [level] 1 (js "single word palindromes") pf /\
  pf = V1.extract (js "single word palindromes") /\
  no_keys pf = false.
Proof.
  cbn zeta.
  set (now := js "2025-01-01T00:00:00.000Z").
  set (level := analyzeString now (js "level")).
  set (available := [level; analyzeString now (js "hello there")]).
  set (pf := Filters.mk (Some (VBool true)) None None (Some (VNum 1)) None).
  assert (Hr : V1_filter_by_natural_language available
                 (Some (js "single word palindromes"))
               = NLOk [level] 1 (js "single word palindromes") pf)
    by (vm_compute; reflexivity).
  split; [exact Hr|].
  destruct (proj2 (V1_natural_language_route available
                     (Some (js "single word palindromes"))) [level] 1 _ pf Hr)
    as (_ & _ & H3 & H4 & _).
  split; [exact H3|exact H4].
Defined.

Lemma V2_palindrome_rule_witness :
  let q := js "All Palindromes please" in
  let f := Filters.mk (Some (VBool true)) None None None None in
  V2.parseNaturalLanguage q = Parsed f /\
  Filters.is_palindrome f = Some (VBool true).
Proof.
  cbn zeta.
  assert (Hp : V2.parseNaturalLanguage (js "All Palindromes please")
               = Parsed (Filters.mk (Some (VBool true)) None None None None))
    by (vm_compute; reflexivity).
  split; [exact Hp|].
  apply (V2_palindrome_rule (js "All Palindromes please") (js "all ") (js "s please"));
    [|exact Hp].
  left. split; vm_compute; reflexivity.
Defined.

Lemma V2_first_vowel_rule_witness :
  let q := js "strings with the letter z and the first  vowel" in
  let f := Filters.mk None None None None (Some (VStr (js "a"))) in
  V2.parseNaturalLanguage q = Parsed f /\
  Filters.contains_character f = Some (VStr (js "a")).
Proof.
  cbn zeta.
  assert (Hp : V2.parseNaturalLanguage
                 (js "strings with the letter z and the first  vowel")
               = Parsed (Filters.mk None None None None (Some (VStr (js "a")))))
    by (vm_compute; reflexivity).
  split; [exact Hp|].
  apply (V2_first_vowel_rule (js "strings with the letter z and the first  vowel")
           (js "strings with the letter z and the ") (js "  ") []);
    [vm_compute; reflexivity | split; [discriminate|reflexivity]
    | reflexivity | reflexivity | exact Hp].
Defined.

Lemma V2_longer_rule_witness :
  let q := js "Strings LONGER  than 10" in
  let f := Filters.mk None (Some (VNum 11)) None None None in
  V2.parseNaturalLanguage q = Parsed f /\
  Filters.min_length f = Some (VNum (digits_value 0 (js "10") + 1)).
Proof.
  cbn zeta.
  assert (Hp : V2.parseNaturalLanguage (js "Strings LONGER  than 10")
               = Parsed (Filters.mk None (Some (VNum 11)) None None None))
    by (vm_compute; reflexivity).
  split; [exact Hp|].
  apply (V2_longer_rule (js "Strings LONGER  than 10") (js "strings ")
           (js "longer") (js "  ") (js " ") (js "10") []).
  - vm_compute. reflexivity.
  - now left.
  - split; [discriminate|reflexivity].
  - split; [discriminate|reflexivity].
  - split; [discriminate|reflexivity].
  - reflexivity.
  - reflexivity.
  - change (V2.normalize (js "Strings LONGER  than 10"))
      with (js "strings longer  than 10").
    unfold no_match_before. no_match_enum.
  - vm_compute. reflexivity.
  - unfold safe_integer. vm_compute. split; discriminate.
  - exact Hp.
Defined.

Lemma V2_shorter_rule_witness :
  let q := js "words less than 5 long" in
  let f := Filters.mk None None (Some (VNum 4)) None None in
  V2.parseNaturalLanguage q = Parsed f /\
  Filters.max_length f = Some (VNum (digits_value 0 (js "5") - 1)).
Proof.
  cbn zeta.
  assert (Hp : V2.parseNaturalLanguage (js "words less than 5 long")
               = Parsed (Filters.mk None None (Some (VNum 4)) None None))
    by (vm_compute; reflexivity).
  split; [exact Hp|].
  apply (V2_shorter_rule (js "words less than 5 long") (js "words ")
           (js "less") (js " ") (js " ") (js "5") (js " long")).
  - vm_compute. reflexivity.
  - now right.
  - split; [discriminate|reflexivity].
  - split; [discriminate|reflexivity].
  - split; [discriminate|reflexivity].
  - reflexivity.
  - reflexivity.
  - change (V2.normalize (js "words less than 5 long"))
      with (js "words less than 5 long").
    unfold no_match_before. no_match_enum.
  - vm_compute. reflexivity.
  - unfold safe_integer. vm_compute. split; discriminate.
  - exact Hp.
Defined.

Lemma V2_exactly_rule_witness :
  let q := js "longer than 20 but of 7 characters" in
  exists f,
    V2.parseNaturalLanguage q = Parsed f /\
    Filters.min_length f = Some (VNum (digits_value 0 (js "7"))) /\
    Filters.max_length f = Some (VNum (digits_value 0 (js "7"))).
Proof.
  cbn zeta.
  apply (V2_exactly_rule (js "longer than 20 but of 7 characters")
           (js "longer than 20 but ") (js "of") (js " ") (js "7") (js " ")
           (js "s") []).
  - vm_compute. reflexivity.
  - now right.
  - split; [discriminate|reflexivity].
  - split; [discriminate|reflexivity].
  - split; [discriminate|reflexivity].
  - now right.
  - reflexivity.
  - reflexivity.
  - change (V2.normalize (js "longer than 20 but of 7 characters"))
      with (js "longer than 20 but of 7 characters").
    unfold no_match_before. no_match_enum.
  - unfold safe_integer. vm_compute. split; discriminate.
Defined.

Lemma V2_single_word_whole_words_witness :
  let q := js "every One   word string" in
  let f := Filters.mk None None None (Some (VNum 1)) None in
  V2.parseNaturalLanguage q = Parsed f /\
  Filters.word_count f = Some (VNum 1).
Proof.
  cbn zeta.
  assert (Hp : V2.parseNaturalLanguage (js "every One   word string")
               = Parsed (Filters.mk None None None (Some (VNum 1)) None))
    by (vm_compute; reflexivity).
  split; [exact Hp|].
  apply (V2_single_word_whole_words (js "every One   word string") (js "every ")
           (js "one") (js "   ") (js " string"));
    [vm_compute; reflexivity | now right | split; [discriminate|reflexivity]
    | reflexivity | reflexivity | exact Hp].
Defined.

Lemma V2_conflict_phrases_witness :
  V2.parseNaturalLanguage (js "Strings longer than 20 but SHORTER  than 5")
  = ParseConflict.
Proof.
  apply (V2_conflict_phrases (js "Strings longer than 20 but SHORTER  than 5")
           (js "strings ") (js "longer") (js " ") (js " ") (js "20")
           (js " but shorter  than 5")
           (js "strings longer than 20 but ") (js "shorter") (js "  ") (js " ")
           (js "5") []).
  - vm_compute. reflexivity.
  - now left.
  - split; [discriminate|reflexivity].
  - split; [discriminate|reflexivity].
  - split; [discriminate|reflexivity].
  - reflexivity.
  - reflexivity.
  - change (V2.normalize (js "Strings longer than 20 but SHORTER  than 5"))
      with (js "strings longer than 20 but shorter  than 5").
    unfold no_match_before. no_match_enum.
  - vm_compute. reflexivity.
  - now left.
  - split; [discriminate|reflexivity].
  - split; [discriminate|reflexivity].
  - split; [discriminate|reflexivity].
  - reflexivity.
  - reflexivity.
  - change (V2.normalize (js "Strings longer than 20 but SHORTER  than 5"))
      with (js "strings longer than 20 but shorter  than 5").
    unfold no_match_before. no_match_enum.
  - vm_compute. reflexivity.
  - unfold safe_integer. vm_compute. split; discriminate.
  - unfold safe_integer. vm_compute. split; discriminate.
  - vm_compute. reflexivity.
Defined.

Lemma create_twice_witness :
  let now := js "2025-01-01T00:00:00.000Z" in
  let later := js "2025-01-02T00:00:00.000Z" in
  let r := analyzeString now (js "hi") in
  (V2.post_strings now (Some (VStr (js " hi "))) ∅ = (Created r, {[js "hi" := r]}) /\
   V2.post_strings later (Some (VStr (js "hi  "))) {[js "hi" := r]}
   = (Duplicate, {[js "hi" := r]})) /\
  (V1.post_strings now (Some (VStr (js " hi "))) ∅
   = (Created r, {[sha256_hex (js "hi") := r]}) /\
   V1.post_strings later (Some (VStr (js "hi  "))) {[sha256_hex (js "hi") := r]}
   = (Duplicate, {[sha256_hex (js "hi") := r]})).
Proof.
  cbn zeta.
  destruct (create_twice (js "2025-01-01T00:00:00.000Z") (js "2025-01-02T00:00:00.000Z")
              (js " hi ") (js "hi  ") ∅ ltac:(discriminate) eq_refl) as [H1 H2].
  split.
  - exact (H2 eq_refl (lookup_empty _)).
  - exact (H1 (lookup_empty _)).
Defined.

Lemma failed_create_unchanged_witness :
  let now := js "2025-01-01T00:00:00.000Z" in
  let r := analyzeString now (js "hi") in
  let st : gmap (list Z) Rec.t := {[js "hi" := r]} in
  V2.post_strings now (Some (VStr (js "   "))) st = (EmptyValue, st) /\
  (forall r', EmptyValue <> Created r') /\
  st = st.
Proof.
  cbn zeta.
  set (now := js "2025-01-01T00:00:00.000Z").
  set (r := analyzeString now (js "hi")).
  assert (Hp : V2.post_strings now (Some (VStr (js "   "))) {[js "hi" := r]}
               = (EmptyValue, {[js "hi" := r]})) by reflexivity.
  assert (Hr : forall r', EmptyValue <> Created r') by discriminate.
  split; [exact Hp|]. split; [exact Hr|].
  exact (proj2 (failed_create_unchanged now (Some (VStr (js "   ")))
                  {[js "hi" := r]} {[js "hi" := r]} EmptyValue Hr) Hp).
Defined.

Lemma get_strings_leading_digits_witness :
  let now := js "2025-01-01T00:00:00.000Z" in
  let level := analyzeString now (js "level") in
  let available := [analyzeString now (js "hi"); level] in
  let query := Filters.mk None (Some (VStr (js "3 or more"))) None None None in
  digit_string (js "3") /\
  get_strings available query = ListOk [level] 1 query.
Proof.
  cbn zeta.
  assert (Hd : digit_string (js "3")) by (split; [discriminate|reflexivity]).
  split; [exact Hd|].
  exact (get_strings_leading_digits
           [analyzeString (js "2025-01-01T00:00:00.000Z") (js "hi");
            analyzeString (js "2025-01-01T00:00:00.000Z") (js "level")]
           (js "3") (js " or more") Hd eq_refl).
Defined.

Lemma frequency_map_counts_witness :
  let value := js "racecar" in
  let m := Props.character_frequency_map
             (Rec.properties (analyzeString (js "2025-01-01T00:00:00.000Z") value)) in
  0 < occurrences (js "c") (codePoints value) /\
  m !! js "c" = Some (occurrences (js "c") (codePoints value)) /\
  occurrences (js "x") (codePoints value) = 0 /\
  m !! js "x" = None.
Proof.
  cbn zeta.
  pose proof (frequency_map_counts (js "2025-01-01T00:00:00.000Z") (js "racecar") (js "c")) as Hc.
  pose proof (frequency_map_counts (js "2025-01-01T00:00:00.000Z") (js "racecar") (js "x")) as Hx.
  cbn zeta in Hc, Hx.
  assert (H1 : 0 < occurrences (js "c") (codePoints (js "racecar"))) by (vm_compute; reflexivity).
  assert (H2 : occurrences (js "x") (codePoints (js "racecar")) = 0) by (vm_compute; reflexivity).
  split; [exact H1|]. split; [exact (proj1 Hc H1)|]. split; [exact H2|exact (proj2 Hx H2)].
Defined.
